(** * SecureSphere vault core: a shallow embedding and its properties

    The development follows the JavaScript sources of the extension:
    - [lib/password/index.js]      (encryptData, decryptData)
    - [lib/key/index.js]           (key derivation, secure storage wrapper)
    - [lib/auth/auth-service.js]   (AuthService: PIN vault, session)
    - [lib/password/password-service.js] (PasswordService: credential store)
    - the background script        (the same operations over module-level
      session variables: storePinCode, verifyPinCode, storeCredentials)

    Asynchronous functions are written in a state-and-exception monad over
    a [World]: the persistent key-value store, the session variables and
    the readings of the host's clock, random source and storage faults.
    The host primitives (WebCrypto, bip39, JSON) are the fields of the
    [Platform] class; everything the repository itself does is a definition. *)

From Stdlib Require Import ZArith List String Ascii Lia Bool.
From Stdlib.Strings Require Import Byte.
From stdpp Require Import gmap strings list fin_maps pretty.
Import ListNotations.
Set Warnings "-register-all".
Open Scope string_scope.
Open Scope list_scope.
Open Scope Z_scope.

(** ** JavaScript values *)

(** The values that are stored, serialised and inspected: the JSON
    fragment of JavaScript. [undefined] is the [None] of [option value]. *)
Inductive value : Type :=
  | VNull
  | VBool (b : bool)
  | VNum (n : Z)
  | VStr (s : string)
  | VArr (xs : list value)
  | VObj (fields : list (string * value)).

(** Errors: [JsError msg] is [new Error(msg)]; the others are raised by the
    host (property access on null or undefined, a call of a non-function,
    a failed decryption, a JSON syntax error, a storage fault). *)
Inductive host_error : Type :=
  | TypeError
  | OperationError
  | SyntaxError
  | LastError.

Inductive exn : Type :=
  | JsError (msg : string)
  | HostError (e : host_error).

Inductive result (A : Type) : Type :=
  | Ok (a : A)
  | Throw (e : exn).
Arguments Ok {A} a.
Arguments Throw {A} e.

(** [!v] is [negb (truthy v)]. *)
Definition truthy (v : value) : bool :=
  match v with
  | VNull => false
  | VBool b => b
  | VNum n => negb (n =? 0)
  | VStr s => negb (String.eqb s "")
  | VArr _ => true
  | VObj _ => true
  end.

Definition truthy_opt (v : option value) : bool :=
  match v with
  | Some x => truthy x
  | None => false
  end.

Fixpoint assoc (k : string) (fields : list (string * value)) : option value :=
  match fields with
  | [] => None
  | (k', v) :: rest => if String.eqb k k' then Some v else assoc k rest
  end.

(** [v.k] for a value that is neither null nor undefined: an own field of
    an object, [undefined] otherwise. *)
Definition field (v : value) (k : string) : option value :=
  match v with
  | VObj fields => assoc k fields
  | _ => None
  end.

(** [typeof v === 'object'] *)
Definition typeof_object (v : value) : bool :=
  match v with
  | VNull | VArr _ | VObj _ => true
  | _ => false
  end.

Definition Array_isArray (v : value) : bool :=
  match v with
  | VArr _ => true
  | _ => false
  end.

(** ** Text

    A string is the sequence of the UTF-8 bytes of a JavaScript string
    without unpaired surrogates; a byte string that is not well-formed
    UTF-8 stands for no string of the program. *)

(** [lo <= b <= hi] *)
Definition in_range (lo hi : N) (b : byte) : bool :=
  ((lo <=? Byte.to_N b) && (Byte.to_N b <=? hi))%N.

(** The bounds of the byte that follows a lead byte: E0 and F0 exclude the
    overlong forms, ED the surrogates, F4 what lies beyond U+10FFFF. *)
Definition lower_boundary (lead : byte) : N :=
  match lead with
  | xe0 => 160
  | xf0 => 144
  | _ => 128
  end.

Definition upper_boundary (lead : byte) : N :=
  match lead with
  | xed => 159
  | xf4 => 143
  | _ => 191
  end.

(** U+FFFD *)
Definition replacement : list byte := [xef; xbf; xbd].

(** The UTF-8 decoder of the Encoding standard, in replacement mode.
    [seen] are the bytes of the character being read, [needed] the number
    of bytes it still lacks, [lower] and [upper] the bounds of the next
    one. A character that is read is written with the bytes it was read
    from; a byte that cannot continue the character ends it with U+FFFD
    and is read again as the start of the next one. *)
Fixpoint utf8_decode (bytes seen : list byte) (needed : nat) (lower upper : N)
  : list byte :=
  match bytes with
  | [] =>
      match needed with
      | O => []
      | S _ => replacement
      end
  | b :: rest =>
      let start :=
        if in_range 0 127 b then b :: utf8_decode rest [] 0 128 191
        else if in_range 194 223 b then utf8_decode rest [b] 1 128 191
        else if in_range 224 239 b
        then utf8_decode rest [b] 2 (lower_boundary b) (upper_boundary b)
        else if in_range 240 244 b
        then utf8_decode rest [b] 3 (lower_boundary b) (upper_boundary b)
        else replacement ++ utf8_decode rest [] 0 128 191 in
      match needed with
      | O => start
      | S k =>
          if in_range lower upper b then
            match k with
            | O => seen ++ b :: utf8_decode rest [] 0 128 191
            | S _ => utf8_decode rest (seen ++ [b]) k 128 191
            end
          else replacement ++ start
      end
  end.

(** Well-formed UTF-8 (the Unicode standard, table 3-7). *)
Fixpoint utf8_valid (bytes : list byte) : bool :=
  match bytes with
  | [] => true
  | b :: rest =>
      if in_range 0 127 b then utf8_valid rest
      else if in_range 194 223 b then
        match rest with
        | b1 :: rest1 => in_range 128 191 b1 && utf8_valid rest1
        | _ => false
        end
      else if in_range 224 239 b then
        match rest with
        | b1 :: b2 :: rest2 =>
            in_range (lower_boundary b) (upper_boundary b) b1
            && in_range 128 191 b2 && utf8_valid rest2
        | _ => false
        end
      else if in_range 240 244 b then
        match rest with
        | b1 :: b2 :: b3 :: rest3 =>
            in_range (lower_boundary b) (upper_boundary b) b1
            && in_range 128 191 b2 && in_range 128 191 b3 && utf8_valid rest3
        | _ => false
        end
      else false
  end.

(** The byte order mark U+FEFF at the head of a text. *)
Definition starts_with_BOM (bytes : list byte) : bool :=
  match bytes with
  | xef :: xbb :: xbf :: _ => true
  | _ => false
  end.

Definition strip_BOM (bytes : list byte) : list byte :=
  match bytes with
  | xef :: xbb :: xbf :: rest => rest
  | _ => bytes
  end.

(** [new TextEncoder().encode(s)]: the bytes of the string. *)
Definition TextEncoder_encode (s : string) : list byte := list_byte_of_string s.

(** [new TextDecoder().decode(bytes)]: the decoder is UTF-8, not fatal, and
    does not ignore the byte order mark, so the first character is dropped
    when it is U+FEFF. *)
Definition TextDecoder_decode (bytes : list byte) : string :=
  string_of_list_byte (strip_BOM (utf8_decode bytes [] 0 128 191)).

(** A well-formed text that does not begin with U+FEFF: the texts that
    [TextDecoder_decode] returns as [TextEncoder_encode] wrote them. *)
Definition plain_text (s : string) : Prop :=
  utf8_valid (list_byte_of_string s) = true
  /\ starts_with_BOM (list_byte_of_string s) = false.

Definition well_formed (s : string) : Prop :=
  utf8_valid (list_byte_of_string s) = true.

(** A text without the U+FEFF at its head, if it has one. *)
Definition without_BOM (s : string) : string :=
  string_of_list_byte (strip_BOM (list_byte_of_string s)).

(** What a text comes back as, encoded and decoded again. *)
Definition decoded (s : string) : string :=
  TextDecoder_decode (TextEncoder_encode s).

(** ** The host platform *)

Class Platform : Type := {
  (** [crypto.subtle.encrypt({name:'AES-GCM', iv}, key, data)];
      a key is its raw key material *)
  aes_gcm_encrypt : list byte -> list byte -> list byte -> list byte;
  (** [crypto.subtle.decrypt]; [None] is the rejection of the promise *)
  aes_gcm_decrypt : list byte -> list byte -> list byte -> option (list byte);
  (** [importKey('raw', password, 'PBKDF2')] followed by
      [deriveKey({name:'PBKDF2', salt, iterations, hash:'SHA-256'}, ...,
      {name:'AES-GCM', length:256})] *)
  pbkdf2_sha256 : list byte -> list byte -> Z -> list byte;
  (** [bip39.mnemonicToSeed] and [bip39.validateMnemonic] *)
  mnemonicToSeed : string -> list byte;
  validateMnemonic : string -> bool;
  (** [JSON.stringify] and [JSON.parse]; [None] is a SyntaxError *)
  JSON_stringify : value -> string;
  JSON_parse : string -> option value;
  (** [JSON.parse] reads JSON texts only: no JSON text begins with U+FEFF,
      which is no white space of the grammar, and a byte string that is
      not well-formed is no string that it could be given *)
  JSON_parse_text : forall s v, JSON_parse s = Some v -> plain_text s;
  (** [new Date(ms).toISOString()] *)
  toISOString : Z -> string;
  (** ToNumber on a value that is not a number, and the typed array built
      from an operand that is not an array *)
  ToNumber_other : value -> Z;
  Uint8Array_other : option value -> list byte;
  (** [error.message] of an error raised by the host *)
  host_message : host_error -> string
}.

Definition message `{Platform} (e : exn) : string :=
  match e with
  | JsError msg => msg
  | HostError h => host_message h
  end.

(** ** Bytes, typed arrays and text *)

Definition byte_of_Z (z : Z) : byte :=
  match Byte.of_N (Z.to_N (z mod 256)) with
  | Some b => b
  | None => x00
  end.

Definition Z_of_byte (b : byte) : Z := Z.of_N (Byte.to_N b).

(** [Array.from(new Uint8Array(buffer))] *)
Definition Array_from (bs : list byte) : value :=
  VArr (map (fun b => VNum (Z_of_byte b)) bs).
Arguments Array_from : simpl never.

Definition ToUint8 `{Platform} (v : value) : byte :=
  match v with
  | VNum n => byte_of_Z n
  | _ => byte_of_Z (ToNumber_other v)
  end.

(** [new Uint8Array(v)] *)
Definition Uint8Array_from `{Platform} (v : option value) : list byte :=
  match v with
  | Some (VArr xs) => map ToUint8 xs
  | _ => Uint8Array_other v
  end.

(** ** The world *)

(** [currentUserSession] *)
Record Session : Type := {
  seedPhrase : string;
  timestamp : Z;
  isActive : bool
}.

Record World : Type := {
  (** [chrome.storage.local] *)
  storage : gmap string value;
  (** the session variables ([this.currentUserSession], ... in AuthService;
      the module-level variables of the same names in the background script) *)
  currentUserSession : option Session;
  currentStorageKey : option (list byte);
  sessionTimeout : Z;
  (** [ENV.get('ENCRYPTION_ITERATIONS')] *)
  encryptionIterations : Z;
  (** the readings of the host: at step [tick], [crypto.getRandomValues]
      yields [rng], [Date.now()] yields [clock] and a storage call sets
      [chrome.runtime.lastError] when [fault] holds *)
  tick : N;
  rng : N -> byte;
  clock : N -> Z;
  fault : N -> bool
}.

Definition set_storage (s : gmap string value) (w : World) : World :=
  {| storage := s;
     currentUserSession := currentUserSession w;
     currentStorageKey := currentStorageKey w;
     sessionTimeout := sessionTimeout w;
     encryptionIterations := encryptionIterations w;
     tick := tick w; rng := rng w; clock := clock w; fault := fault w |}.

Definition set_session (s : option Session) (w : World) : World :=
  {| storage := storage w;
     currentUserSession := s;
     currentStorageKey := currentStorageKey w;
     sessionTimeout := sessionTimeout w;
     encryptionIterations := encryptionIterations w;
     tick := tick w; rng := rng w; clock := clock w; fault := fault w |}.

Definition set_key (k : option (list byte)) (w : World) : World :=
  {| storage := storage w;
     currentUserSession := currentUserSession w;
     currentStorageKey := k;
     sessionTimeout := sessionTimeout w;
     encryptionIterations := encryptionIterations w;
     tick := tick w; rng := rng w; clock := clock w; fault := fault w |}.

Definition set_tick (t : N) (w : World) : World :=
  {| storage := storage w;
     currentUserSession := currentUserSession w;
     currentStorageKey := currentStorageKey w;
     sessionTimeout := sessionTimeout w;
     encryptionIterations := encryptionIterations w;
     tick := t; rng := rng w; clock := clock w; fault := fault w |}.

(** ** The monad of asynchronous code *)

Definition M (A : Type) : Type := World -> result A * World.

Definition ret {A} (a : A) : M A := fun w => (Ok a, w).

Definition throw {A} (e : exn) : M A := fun w => (Throw e, w).

Definition bind {A B} (m : M A) (f : A -> M B) : M B :=
  fun w =>
    match m w with
    | (Ok a, w') => f a w'
    | (Throw e, w') => (Throw e, w')
    end.

(** [try { m } catch (e) { h e }] *)
Definition try_catch {A} (m : M A) (h : exn -> M A) : M A :=
  fun w =>
    match m w with
    | (Ok a, w') => (Ok a, w')
    | (Throw e, w') => h e w'
    end.

Notation "'let*' x ':=' m 'in' k" := (bind m (fun x => k))
  (at level 10, x pattern, m at level 100, k at level 200).
Notation "m ';;' k" := (bind m (fun _ => k))
  (at level 100, k at level 200, right associativity).

Definition get_world : M World := fun w => (Ok w, w).
Definition modify (f : World -> World) : M unit := fun w => (Ok tt, f w).

(** [Date.now()] *)
Definition Date_now : M Z :=
  fun w => (Ok (clock w (tick w)), set_tick (N.succ (tick w)) w).

(** [crypto.getRandomValues(new Uint8Array(n))] *)
Definition getRandomValues (n : nat) : M (list byte) :=
  fun w =>
    (Ok (map (fun i => rng w (tick w + N.of_nat i)%N) (seq 0 n)),
     set_tick (tick w + N.of_nat n)%N w).

(** [chrome.storage.local.get(keys, callback)] wrapped in a promise that
    rejects with [chrome.runtime.lastError]; [None] asks for every entry. *)
Definition restrict (keys : list string) (s : gmap string value) : gmap string value :=
  filter (fun kv => bool_decide (kv.1 ∈ keys)) s.

Definition chrome_storage_get (keys : option (list string)) : M (gmap string value) :=
  fun w =>
    let w' := set_tick (N.succ (tick w)) w in
    if fault w (tick w) then (Throw (HostError LastError), w')
    else (Ok (match keys with
              | Some ks => restrict ks (storage w)
              | None => storage w
              end), w').

(** [chrome.storage.local.set(items, callback)]: the entries of [items]
    replace those of the store under the same keys. *)
Definition chrome_storage_set (items : gmap string value) : M unit :=
  fun w =>
    let w' := set_tick (N.succ (tick w)) w in
    if fault w (tick w) then (Throw (HostError LastError), w')
    else (Ok tt, set_storage (items ∪ storage w) w').

(** [chrome.storage.local.remove(keys, callback)] and
    [chrome.storage.local.clear(callback)], wrapped like the others. *)
Definition chrome_storage_remove (keys : list string) : M unit :=
  fun w =>
    let w' := set_tick (N.succ (tick w)) w in
    if fault w (tick w) then (Throw (HostError LastError), w')
    else (Ok tt,
          set_storage (filter (fun kv => negb (bool_decide (kv.1 ∈ keys))) (storage w)) w').

Definition chrome_storage_clear : M unit :=
  fun w =>
    let w' := set_tick (N.succ (tick w)) w in
    if fault w (tick w) then (Throw (HostError LastError), w')
    else (Ok tt, set_storage ∅ w').

(** [v.k] where [v] may be null: a TypeError then. *)
Definition prop (v : value) (k : string) : M (option value) :=
  match v with
  | VNull => throw (HostError TypeError)
  | _ => ret (field v k)
  end.

(** ** lib/password/index.js *)

Section Password.
Context `{Platform}.

Definition encryptData (data : string) (key : list byte) : M value :=
  try_catch
    (let dataBuffer := TextEncoder_encode data in
     let* iv := getRandomValues 12 in
     let encryptedData := aes_gcm_encrypt key iv dataBuffer in
     ret (VObj [("iv", Array_from iv);
                ("data", Array_from encryptedData)]))
    (fun error => throw error).

Definition decryptData (encryptedObj : value) (key : list byte) : M string :=
  try_catch
    (let* iv := prop encryptedObj "iv" in
     let* data := prop encryptedObj "data" in
     match aes_gcm_decrypt key (Uint8Array_from iv) (Uint8Array_from data) with
     | Some decrypted => ret (TextDecoder_decode decrypted)
     | None => throw (HostError OperationError)
     end)
    (fun error => throw error).

End Password.

(** ** String helpers of the language *)

(** The length of the white space or line terminator at the head of a
    UTF-8 text ([0] if there is none): TAB, LF, VT, FF, CR, SP, U+00A0,
    U+1680, U+2000..U+200A, U+2028, U+2029, U+202F, U+205F, U+3000, U+FEFF. *)
Definition ws_len (l : list byte) : nat :=
  match l with
  | (x09 | x0a | x0b | x0c | x0d | x20) :: _ => 1
  | xc2 :: xa0 :: _ => 2
  | xe1 :: x9a :: x80 :: _ => 3
  | xe2 :: x80 :: (x80 | x81 | x82 | x83 | x84 | x85 | x86 | x87 | x88 | x89
                   | x8a | xa8 | xa9 | xaf) :: _ => 3
  | xe2 :: x81 :: x9f :: _ => 3
  | xe3 :: x80 :: x80 :: _ => 3
  | xef :: xbb :: xbf :: _ => 3
  | _ => 0
  end%nat.

(** The same at the end of a text, read backwards. *)
Definition ws_len_rev (l : list byte) : nat :=
  match l with
  | (x09 | x0a | x0b | x0c | x0d | x20) :: _ => 1
  | xa0 :: xc2 :: _ => 2
  | x80 :: x9a :: xe1 :: _ => 3
  | (x80 | x81 | x82 | x83 | x84 | x85 | x86 | x87 | x88 | x89
     | x8a | xa8 | xa9 | xaf) :: x80 :: xe2 :: _ => 3
  | x9f :: x81 :: xe2 :: _ => 3
  | x80 :: x80 :: xe3 :: _ => 3
  | xbf :: xbb :: xef :: _ => 3
  | _ => 0
  end%nat.

Fixpoint strip (len : list byte -> nat) (fuel : nat) (l : list byte) : list byte :=
  match fuel with
  | O => l
  | S fuel' =>
      match len l with
      | O => l
      | n => strip len fuel' (skipn n l)
      end
  end.

(** [s.trim()] *)
Definition String_trim (s : string) : string :=
  let l := list_byte_of_string s in
  let l1 := strip ws_len (List.length l) l in
  let l2 := rev (strip ws_len_rev (List.length l1) (rev l1)) in
  string_of_list_byte l2.

(** [s.length]: the number of UTF-16 code units of a UTF-8 text. A byte
    that is not a continuation byte starts a character; the characters of
    four bytes take two code units. *)
Definition code_units (b : byte) : nat :=
  let n := Byte.to_N b in
  if (n <? 128)%N then 1
  else if (n <? 192)%N then 0
  else if (n <? 240)%N then 1
  else 2.

Definition String_length (s : string) : nat :=
  list_sum (map code_units (list_byte_of_string s)).

(** The characters of a text, as [[...s]] yields them. *)
Fixpoint chars_from (cur : list byte) (l : list byte) : list (list byte) :=
  match l with
  | [] => match cur with [] => [] | _ => [rev cur] end
  | b :: l' =>
      if (code_units b =? 0)%nat then chars_from (b :: cur) l'
      else match cur with
           | [] => chars_from [b] l'
           | _ => rev cur :: chars_from [b] l'
           end
  end.

Definition String_chars (s : string) : list string :=
  map string_of_list_byte (chars_from [] (list_byte_of_string s)).

(** [s.padEnd(n, filler)] *)
Definition String_padEnd (s : string) (n : nat) (filler : string) : string :=
  let len := String_length s in
  if (n <=? len)%nat then s
  else if String.eqb filler "" then s
  else
    let fill := list_ascii_of_string filler in
    let room := (n - len)%nat in
    s +:+ string_of_list_ascii (firstn room (List.concat (repeat fill room))).

Definition hex_digit (n : N) : ascii :=
  match n with
  | 0 => "0" | 1 => "1" | 2 => "2" | 3 => "3" | 4 => "4" | 5 => "5"
  | 6 => "6" | 7 => "7" | 8 => "8" | 9 => "9" | 10 => "a" | 11 => "b"
  | 12 => "c" | 13 => "d" | 14 => "e" | _ => "f"
  end%N%char.

(** [bytes.reduce((str, byte) => str + byte.toString(16).padStart(2, '0'), '')] *)
Definition toHexString (bytes : list byte) : string :=
  fold_left
    (fun str b =>
       str +:+ String (hex_digit (Byte.to_N b / 16)%N)
                 (String (hex_digit (Byte.to_N b mod 16)%N) EmptyString))
    bytes "".

(** [n.toString()] for an integer *)
Definition Number_toString (n : Z) : string := pretty n.

(** [l.includes(key)] *)
Definition includes (l : list string) (key : string) : bool :=
  existsb (String.eqb key) l.

(** ToString of a value of the JSON fragment: an array is its elements
    joined by commas, null elements printing as nothing; an object is
    ["[object Object]"]. *)
Fixpoint ToString (v : value) : string :=
  match v with
  | VNull => "null"
  | VBool true => "true"
  | VBool false => "false"
  | VNum n => Number_toString n
  | VStr s => s
  | VArr xs =>
      (fix join (l : list value) : string :=
         match l with
         | [] => ""
         | x :: l' =>
             let e := match x with VNull => "" | _ => ToString x end in
             match l' with
             | [] => e
             | _ => e +:+ "," +:+ join l'
             end
         end) xs
  | VObj _ => "[object Object]"
  end.

(** The text that [new TextEncoder().encode(v)] encodes: the argument
    defaults to the empty text when it is undefined. *)
Definition USVString (v : option value) : string :=
  match v with
  | Some x => ToString x
  | None => ""
  end.

(** [xs.splice(index, 1)] for an integral [index]: what is left in [xs]. *)
Definition Array_splice (xs : list value) (index : Z) : list value :=
  let len := Z.of_nat (List.length xs) in
  let actualStart := if index <? 0 then Z.max (len + index) 0 else Z.min index len in
  let actualDeleteCount := Z.min 1 (len - actualStart) in
  firstn (Z.to_nat actualStart) xs
  ++ skipn (Z.to_nat (actualStart + actualDeleteCount)) xs.

(** The properties of an object literal whose value is defined. *)
Definition defined (fields : list (string * option value)) : list (string * value) :=
  omap (fun kv => match kv.2 with Some v => Some (kv.1, v) | None => None end) fields.

Fixpoint foldM {A B} (f : B -> A -> M B) (l : list A) (b : B) : M B :=
  match l with
  | [] => ret b
  | a :: l' => let* b' := f b a in foldM f l' b'
  end.

(** ** lib/password/index.js: the password list *)

Section PasswordList.
Context `{Platform}.

(** [const { passwords = [] } = await chrome.storage.local.get(['passwords'])] *)
Definition stored_passwords : M value :=
  let* result := chrome_storage_get (Some ["passwords"]) in
  ret (match result !! "passwords" with
       | Some v => v
       | None => VArr []
       end).

Definition savePassword (credentials : value) (encryptionKey : list byte) : M bool :=
  try_catch
    (let* passwords := stored_passwords in
     let* password := prop credentials "password" in
     let* encryptedPassword := encryptData (USVString password) encryptionKey in
     let* url := prop credentials "url" in
     let* username := prop credentials "username" in
     let* now := Date_now in
     let newCredential :=
       VObj (defined [("url", url);
                      ("username", username);
                      ("password", Some encryptedPassword);
                      ("timestamp", Some (VNum now))]) in
     match passwords with
     | VArr xs =>
         chrome_storage_set {["passwords" := VArr (xs ++ [newCredential])]} ;;
         ret true
     | _ => throw (HostError TypeError)
     end)
    (fun error => throw error).

Definition getPasswords : M value :=
  try_catch stored_passwords (fun error => throw error).

Definition deletePassword (index : Z) : M bool :=
  try_catch
    (let* passwords := stored_passwords in
     match passwords with
     | VArr xs =>
         chrome_storage_set {["passwords" := VArr (Array_splice xs index)]} ;;
         ret true
     | _ => throw (HostError TypeError)
     end)
    (fun error => throw error).

End PasswordList.

(** ** lib/key/index.js *)

Record KeyBundle : Type := {
  encryptionKey : list byte;
  privateKey : string;
  publicKey : string
}.

Definition skipEncryption : list string :=
  ["firstTimeSetup"; "hasEncryptedStorage"; "storageVersion"].

Section Key.
Context `{Platform}.

Definition generateKeyFromSeedBytes (seed : list byte) : M KeyBundle :=
  if (List.length seed <? 64)%nat then
    throw (JsError "Valid seed bytes (at least 64 bytes) are required for key generation.")
  else
    let keyMaterial := firstn 32 seed in
    let privateKeyBuffer := firstn 32 seed in
    let publicKeyBuffer := firstn 32 (skipn 32 seed) in
    ret {| encryptionKey := keyMaterial;
           privateKey := "0x" +:+ toHexString privateKeyBuffer;
           publicKey := "0x" +:+ toHexString publicKeyBuffer |}.

Definition generateStorageEncryptionKey (seedPhrase : string) : M (list byte) :=
  try_catch
    (let salt := TextEncoder_encode "SecureSphere-LocalStorage-Protection-v1" in
     let keyMaterial := TextEncoder_encode seedPhrase in
     ret (pbkdf2_sha256 keyMaterial salt 250000))
    (fun _ => throw (JsError "Failed to generate storage encryption key")).

Definition encryptStorageData (data : value) (storageKey : list byte) : M value :=
  try_catch
    (let dataString :=
       match data with
       | VStr s => s
       | _ => JSON_stringify data
       end in
     let dataBuffer := TextEncoder_encode dataString in
     let* iv := getRandomValues 12 in
     let encryptedData := aes_gcm_encrypt storageKey iv dataBuffer in
     let* now := Date_now in
     ret (VObj [("encrypted", VBool true);
                ("version", VStr "1.0");
                ("iv", Array_from iv);
                ("data", Array_from encryptedData);
                ("timestamp", VNum now)]))
    (fun _ => throw (JsError "Failed to encrypt storage data")).

Definition decryptStorageData (encryptedObj : value) (storageKey : list byte) : M value :=
  try_catch
    (if negb (truthy encryptedObj) || negb (typeof_object encryptedObj)
        || negb (truthy_opt (field encryptedObj "encrypted"))
     then ret encryptedObj
     else if negb (truthy_opt (field encryptedObj "iv"))
             || negb (truthy_opt (field encryptedObj "data"))
     then throw (JsError "Invalid encrypted data structure")
     else
       match aes_gcm_decrypt storageKey
               (Uint8Array_from (field encryptedObj "iv"))
               (Uint8Array_from (field encryptedObj "data")) with
       | None => throw (HostError OperationError)
       | Some decrypted =>
           let decryptedString := TextDecoder_decode decrypted in
           match JSON_parse decryptedString with
           | Some parsed => ret parsed
           | None => ret (VStr decryptedString)
           end
       end)
    (fun _ => throw (JsError "Failed to decrypt storage data - possible corruption or wrong key")).

(** The object [encryptedItems] that [secureStorageSet] hands to
    [chrome.storage.local.set]. *)
Definition secureStorageSet_items (items : gmap string value) (storageKey : list byte)
  : M (gmap string value) :=
  let* encryptedItems :=
    foldM (fun (encryptedItems : gmap string value) '(key, v) =>
             if includes skipEncryption key
             then ret (<[key := v]> encryptedItems)
             else
               let* e := encryptStorageData v storageKey in
               ret (<[key := e]> encryptedItems))
          (map_to_list items) ∅ in
  let encryptedItems := <["hasEncryptedStorage" := VBool true]> encryptedItems in
  let encryptedItems := <["storageVersion" := VStr "1.0"]> encryptedItems in
  ret encryptedItems.

Definition secureStorageSet (items : gmap string value) (storageKey : list byte) : M unit :=
  try_catch
    (let* encryptedItems := secureStorageSet_items items storageKey in
     chrome_storage_set encryptedItems)
    (fun error => throw error).

Definition secureStorageGet (keys : list string) (storageKey : list byte)
  : M (gmap string value) :=
  try_catch
    (let* result := chrome_storage_get (Some keys) in
     try_catch
       (foldM (fun (decryptedResult : gmap string value) '(key, v) =>
                 if includes skipEncryption key
                 then ret (<[key := v]> decryptedResult)
                 else
                   let* d := decryptStorageData v storageKey in
                   ret (<[key := d]> decryptedResult))
              (map_to_list result) ∅)
       (fun decryptError => throw decryptError))
    (fun error => throw error).

Definition migrateToEncryptedStorage (storageKey : list byte) : M bool :=
  try_catch
    (let* allData := chrome_storage_get None in
     if truthy_opt (allData !! "hasEncryptedStorage") then ret true
     else
       let* encryptedData :=
         foldM (fun (encryptedData : gmap string value) '(key, v) =>
                  if includes skipEncryption key
                  then ret (<[key := v]> encryptedData)
                  else
                    match v with
                    | VNull => ret encryptedData
                    | _ =>
                        let* e := encryptStorageData v storageKey in
                        ret (<[key := e]> encryptedData)
                    end)
               (map_to_list allData) ∅ in
       let encryptedData := <["hasEncryptedStorage" := VBool true]> encryptedData in
       let encryptedData := <["storageVersion" := VStr "1.0"]> encryptedData in
       chrome_storage_set encryptedData ;;
       ret true)
    (fun error =>
       throw (JsError ("Storage encryption migration failed: " +:+ message error))).

Definition verifyStorageEncryption (storageKey : list byte) : M bool :=
  try_catch
    (let* now := Date_now in
     let testData :=
       VObj [("test", VStr "encryption_test");
             ("timestamp", VNum now);
             ("array", VArr [VNum 1; VNum 2; VNum 3]);
             ("object", VObj [("nested", VBool true)])] in
     let* encrypted := encryptStorageData testData storageKey in
     let* decrypted := decryptStorageData encrypted storageKey in
     let isValid := String.eqb (JSON_stringify testData) (JSON_stringify decrypted) in
     if isValid then ret true else ret false)
    (fun _ => ret false).

End Key.

(** ** lib/auth/auth-service.js *)

(** [v] when it is truthy. *)
Definition if_truthy (v : option value) : option value :=
  match v with
  | Some x => if truthy x then Some x else None
  | None => None
  end.

Section AuthService.
Context `{Platform}.

Definition initializeStorageEncryption (seedPhrase : string) : M bool :=
  try_catch
    (let* k := generateStorageEncryptionKey seedPhrase in
     modify (set_key (Some k)) ;;
     let* verificationResult := verifyStorageEncryption k in
     if negb verificationResult
     then throw (JsError "Storage encryption verification failed")
     else
       migrateToEncryptedStorage k ;;
       ret true)
    (fun error =>
       modify (set_key None) ;;
       throw error).

(** [getSecureStorage().set] and [getSecureStorage().get] *)
Definition secureStorage_set (items : gmap string value) : M unit :=
  let* w := get_world in
  match currentStorageKey w with
  | None => chrome_storage_set items
  | Some k => secureStorageSet items k
  end.

Definition secureStorage_get (keys : list string) : M (gmap string value) :=
  let* w := get_world in
  match currentStorageKey w with
  | None => chrome_storage_get (Some keys)
  | Some k => secureStorageGet keys k
  end.

Definition validateSeedPhrase (seedPhrase : string) : bool :=
  if String.eqb seedPhrase "" then false
  else validateMnemonic (String_trim seedPhrase).

(** The key derived from the PIN alone: PBKDF2 over the PIN padded to 32
    characters, with the fixed salt. *)
Definition pinKey (pin : string) (iterations : Z) : list byte :=
  pbkdf2_sha256 (TextEncoder_encode (String_padEnd pin 32 "0"))
                (TextEncoder_encode "SecureSphere") iterations.

Definition ensureStorageEncryption (seedPhrase : string) : M unit :=
  let* w := get_world in
  match currentStorageKey w with
  | None => initializeStorageEncryption seedPhrase ;; ret tt
  | Some _ => ret tt
  end.

Definition createUserSession (seedPhrase : string) : M unit :=
  let* now := Date_now in
  modify (set_session (Some {| seedPhrase := seedPhrase;
                               timestamp := now;
                               isActive := true |})).

Definition clearUserSession : M unit :=
  modify (fun w => set_key None (set_session None w)).

Definition storePin (pin seedPhrase : string) : M value :=
  try_catch
    (ensureStorageEncryption seedPhrase ;;
     let seed := mnemonicToSeed seedPhrase in
     let* keys := generateKeyFromSeedBytes seed in
     let key := encryptionKey keys in
     let* encryptedPin := encryptData pin key in
     let* w := get_world in
     let pinDerivedKey := pinKey pin (encryptionIterations w) in
     let* encryptedSeed := encryptData seedPhrase pinDerivedKey in
     secureStorage_set
       (list_to_map [("pinCode", encryptedPin);
                     ("encryptedSeedPhrase", encryptedSeed);
                     ("storedSeedPhrase", VStr seedPhrase);
                     ("hasSeedPhrase", VBool true)]) ;;
     ret (VObj [("success", VBool true)]))
    (fun error =>
       ret (VObj [("success", VBool false); ("error", VStr (message error))])).

Definition verifyPin (pin : string) : M value :=
  try_catch
    (let* result := secureStorage_get ["pinCode"; "encryptedSeedPhrase"] in
     match if_truthy (result !! "pinCode"),
           if_truthy (result !! "encryptedSeedPhrase") with
     | Some pinCode, Some encryptedSeedPhrase =>
         let* w := get_world in
         let tempKey := pinKey pin (encryptionIterations w) in
         let* recovered :=
           try_catch
             (let* s := decryptData encryptedSeedPhrase tempKey in ret (Some s))
             (fun _ => ret None) in
         match recovered with
         | None =>
             ret (VObj [("verified", VBool false); ("error", VStr "Invalid PIN")])
         | Some seedPhrase =>
             ensureStorageEncryption seedPhrase ;;
             let seed := mnemonicToSeed seedPhrase in
             let* keys := generateKeyFromSeedBytes seed in
             let key := encryptionKey keys in
             let* decryptedPin := decryptData pinCode key in
             if String.eqb decryptedPin pin
             then
               createUserSession seedPhrase ;;
               ret (VObj [("verified", VBool true); ("seedPhrase", VStr seedPhrase)])
             else
               ret (VObj [("verified", VBool false); ("error", VStr "Invalid PIN")])
         end
     | _, _ =>
         ret (VObj [("verified", VBool false);
                    ("error", VStr "PIN not set or seed phrase not found")])
     end)
    (fun error =>
       ret (VObj [("verified", VBool false); ("error", VStr (message error))])).

Definition verifySeedPhraseLogin (seedPhrase : string) : M value :=
  try_catch
    (if negb (validateSeedPhrase seedPhrase)
     then ret (VObj [("success", VBool false); ("error", VStr "Invalid seed phrase")])
     else
       ensureStorageEncryption seedPhrase ;;
       createUserSession seedPhrase ;;
       ret (VObj [("success", VBool true); ("seedPhrase", VStr seedPhrase)]))
    (fun error =>
       ret (VObj [("success", VBool false); ("error", VStr (message error))])).

Definition isSessionValid : M bool :=
  let* w := get_world in
  match currentUserSession w with
  | None => ret false
  | Some session =>
      if negb (isActive session) then ret false
      else
        let* now := Date_now in
        let sessionAge := now - timestamp session in
        if sessionTimeout w <? sessionAge
        then clearUserSession ;; ret false
        else ret true
  end.

Definition refreshUserSession : M unit :=
  let* w := get_world in
  match currentUserSession w with
  | Some session =>
      if isActive session
      then
        let* now := Date_now in
        modify (set_session (Some {| seedPhrase := seedPhrase session;
                                     timestamp := now;
                                     isActive := isActive session |}))
      else ret tt
  | None => ret tt
  end.

Definition getCurrentSession : M value :=
  let* w := get_world in
  match currentUserSession w with
  | None => ret VNull
  | Some _ =>
      let* valid := isSessionValid in
      if negb valid then ret VNull
      else
        let* w := get_world in
        match currentUserSession w with
        | None => throw (HostError TypeError)
        | Some session =>
            let* now := Date_now in
            ret (VObj [("seedPhrase", VStr (seedPhrase session));
                       ("timestamp", VNum (timestamp session));
                       ("isActive", VBool (isActive session));
                       ("timeRemaining",
                        VNum (sessionTimeout w - (now - timestamp session)))])
        end
  end.

(** [v === true] *)
Definition strict_eq_true (v : option value) : bool :=
  match v with
  | Some (VBool true) => true
  | _ => false
  end.

Definition login_status
    (isLoggedIn requiresPin firstTimeSetup hasStoredCredentials hasPinSetup : bool)
  : value :=
  VObj [("isLoggedIn", VBool isLoggedIn);
        ("requiresPin", VBool requiresPin);
        ("firstTimeSetup", VBool firstTimeSetup);
        ("hasStoredCredentials", VBool hasStoredCredentials);
        ("hasPinSetup", VBool hasPinSetup)].

Definition checkLoginStatus : M value :=
  try_catch
    (let* hasValidSession := isSessionValid in
     let* result :=
       secureStorage_get ["hasSeedPhrase"; "encryptedSeedPhrase"; "storedSeedPhrase";
                          "firstTimeSetup"; "pinCode"; "credentials"] in
     if strict_eq_true (result !! "firstTimeSetup") then
       ret (login_status false false true false false)
     else
       let hasPinSetup :=
         truthy_opt (result !! "pinCode")
         && truthy_opt (result !! "encryptedSeedPhrase") in
       let hasStoredCredentials :=
         truthy_opt (result !! "credentials")
         || truthy_opt (result !! "hasSeedPhrase")
         || truthy_opt (result !! "storedSeedPhrase") in
       let isLoggedIn := hasValidSession in
       ret (login_status isLoggedIn hasPinSetup false hasStoredCredentials hasPinSetup))
    (fun _ => ret (login_status false false false false false)).

(** [verifyResult.seedPhrase] is the phrase whenever [verifyResult.verified]
    holds; the other case of the match is not reached. *)
Definition changePin (currentPin newPin : string) : M value :=
  try_catch
    (let* verifyResult := verifyPin currentPin in
     if negb (truthy_opt (field verifyResult "verified")) then
       ret (VObj [("success", VBool false);
                  ("error", VStr "Current PIN is incorrect")])
     else
       let* seedPhrase :=
         match field verifyResult "seedPhrase" with
         | Some (VStr s) => ret s
         | _ => throw (HostError TypeError)
         end in
       let* storeResult := storePin newPin seedPhrase in
       if negb (truthy_opt (field storeResult "success")) then
         ret (VObj [("success", VBool false);
                    ("error", VStr "Failed to store new PIN")])
       else ret (VObj [("success", VBool true)]))
    (fun error =>
       ret (VObj [("success", VBool false); ("error", VStr (message error))])).

(** [secureAuth.clearSession()] of lib/auth/secure-auth.js *)
Definition secureAuth_clearSession : M unit :=
  try_catch
    (chrome_storage_remove ["isVerified"; "lastLoginTimestamp"; "serverResponse"])
    (fun _ => ret tt).

Definition logout : M value :=
  try_catch
    (clearUserSession ;;
     secureAuth_clearSession ;;
     ret (VObj [("success", VBool true)]))
    (fun error =>
       ret (VObj [("success", VBool false); ("error", VStr (message error))])).

(** [this.currentUserSession && this.currentUserSession.isActive] *)
Definition hasActiveSession : M value :=
  let* w := get_world in
  ret (match currentUserSession w with
       | None => VNull
       | Some session => VBool (isActive session)
       end).

End AuthService.

(** ** lib/password/password-service.js *)

(** [v.length] *)
Definition js_length (v : value) : M (option value) :=
  match v with
  | VNull => throw (HostError TypeError)
  | VArr xs => ret (Some (VNum (Z.of_nat (List.length xs))))
  | VStr s => ret (Some (VNum (Z.of_nat (String_length s))))
  | _ => ret None
  end.

(** [[...v]] *)
Definition spread (v : value) : M (list value) :=
  match v with
  | VArr xs => ret xs
  | VStr s => ret (map VStr (String_chars s))
  | _ => throw (HostError TypeError)
  end.

(** [v === s] for a string [s] *)
Definition strict_eq_string (v : option value) (s : string) : bool :=
  match v with
  | Some (VStr t) => String.eqb t s
  | _ => false
  end.

(** [v || []] *)
Definition or_empty (v : option value) : value :=
  match if_truthy v with
  | Some x => x
  | None => VArr []
  end.

(** [!v || v.trim().length === 0] *)
Definition missing (v : option value) : M bool :=
  match if_truthy v with
  | None => ret true
  | Some (VStr s) => ret (String_length (String_trim s) =? 0)%nat
  | Some _ => throw (HostError TypeError)
  end.

Fixpoint filterM {A} (f : A -> M bool) (l : list A) : M (list A) :=
  match l with
  | [] => ret []
  | a :: l' =>
      let* keep := f a in
      let* rest := filterM f l' in
      ret (if keep then a :: rest else rest)
  end.

Section PasswordService.
Context `{Platform}.

Definition createBackupRecord (credentialCount : option value) : M unit :=
  try_catch
    (let* backupResult := secureStorage_get ["backups"] in
     let backups := or_empty (backupResult !! "backups") in
     let* id := Date_now in
     let* now := Date_now in
     let newBackup :=
       VObj ([("id", VStr (Number_toString id)); ("timestamp", VNum now)]
             ++ match credentialCount with
                | Some c => [("credentialCount", c)]
                | None => []
                end) in
     let* rest := spread backups in
     let updatedBackups := firstn 10 (newBackup :: rest) in
     secureStorage_set
       (list_to_map [("backups", VArr updatedBackups);
                     ("currentBackupId", VStr (Number_toString id))]))
    (fun error => throw error).

Fixpoint storeCredentials_retry (attempts : nat) (credentials : value)
    (seedPhrase : string) (timestamp : option string) (retryCount : nat) : M value :=
  try_catch
    (let seed := mnemonicToSeed seedPhrase in
     let* keys := generateKeyFromSeedBytes seed in
     let key := encryptionKey keys in
     let* stamp :=
       match timestamp with
       | Some t => if String.eqb t "" then
                     let* now := Date_now in ret (toISOString now)
                   else ret t
       | None => let* now := Date_now in ret (toISOString now)
       end in
     let dataToStore := VObj [("credentials", credentials); ("timestamp", VStr stamp)] in
     let* encrypted := encryptData (JSON_stringify dataToStore) key in
     let* stored :=
       try_catch
         (secureStorage_set
            (list_to_map [("credentials", encrypted); ("hasSeedPhrase", VBool true)]) ;;
          ret None)
         (fun storageError =>
            if (retryCount <? 3)%nat then
              match attempts with
              | S attempts' =>
                  let* r := storeCredentials_retry attempts' credentials seedPhrase
                              timestamp (S retryCount) in
                  ret (Some r)
              | O => throw storageError
              end
            else throw storageError) in
     match stored with
     | Some r => ret r
     | None =>
         try_catch
           (let* n := js_length credentials in createBackupRecord n)
           (fun backupError => ret tt) ;;
         ret (VObj [("success", VBool true)])
     end)
    (fun error =>
       ret (VObj [("success", VBool false); ("error", VStr (message error))])).

(** [storeCredentials(credentials, seedPhrase, timestamp = null, retryCount = 0)];
    a call at [retryCount] is followed by at most [3 - retryCount] others. *)
Definition storeCredentials (credentials : value) (seedPhrase : string)
    (timestamp : option string) (retryCount : nat) : M value :=
  storeCredentials_retry (3 - retryCount) credentials seedPhrase timestamp retryCount.

Definition empty_result (error : option string) : value :=
  VObj ([("credentials", VArr []); ("walletSeeds", VArr [])]
        ++ match error with
           | Some e => [("error", VStr e)]
           | None => []
           end).

(** The three document shapes that [getCredentials] accepts. *)
Definition shape (data : value) : M value :=
  if Array_isArray data then
    ret (VObj [("credentials", data); ("walletSeeds", VArr [])])
  else
    let* c := prop data "credentials" in
    match if_truthy c with
    | Some credentials =>
        let* ws := prop data "walletSeeds" in
        ret (VObj [("credentials", credentials); ("walletSeeds", or_empty ws)])
    | None =>
        if typeof_object data then
          ret (VObj [("credentials", VArr [data]); ("walletSeeds", VArr [])])
        else ret (empty_result None)
    end.

Definition getCredentials (seedPhrase : string) : M value :=
  try_catch
    (if String.eqb seedPhrase "" then
       try_catch
         (let* result := secureStorage_get ["credentials"] in
          match if_truthy (result !! "credentials") with
          | None => ret (empty_result (Some "No credentials found"))
          | Some credentials =>
              ret (VObj [("credentials", credentials);
                         ("walletSeeds", or_empty (result !! "walletSeeds"))])
          end)
         (fun storageError =>
            ret (empty_result
                   (Some (if String.eqb (message storageError) ""
                          then "Failed to access storage"
                          else message storageError))))
     else
       try_catch
         (if negb (validateSeedPhrase seedPhrase)
          then ret (empty_result (Some "Invalid seed phrase"))
          else
            let seed := mnemonicToSeed seedPhrase in
            let* keys := generateKeyFromSeedBytes seed in
            let key := encryptionKey keys in
            let* stored := secureStorage_get ["credentials"; "backupCID"] in
            match if_truthy (stored !! "credentials") with
            | Some credentials =>
                try_catch
                  (let* decrypted := decryptData credentials key in
                   match JSON_parse decrypted with
                   | None => throw (HostError SyntaxError)
                   | Some data => shape data
                   end)
                  (fun decryptError =>
                     ret (empty_result
                            (Some ("Failed to decrypt credentials: "
                                   +:+ message decryptError))))
            | None => ret (empty_result None)
            end)
         (fun error => ret (empty_result (Some (message error)))))
    (fun error => ret (VObj [("error", VStr (message error))])).

Definition validateCredential (credential : value) : M value :=
  if negb (truthy credential) || negb (typeof_object credential) then
    ret (VObj [("valid", VBool false);
               ("errors", VArr [VStr "Credential must be an object"])])
  else
    let* errors :=
      if strict_eq_string (field credential "type") "wallet" then
        let* e1 := missing (field credential "name") in
        let* e2 := missing (field credential "seedPhrase") in
        ret ((if e1 then ["Wallet name is required"] else [])
             ++ (if e2 then ["Wallet seed phrase is required"] else []))
      else
        let* e1 := missing (field credential "website") in
        let* e2 := missing (field credential "username") in
        let* e3 := missing (field credential "password") in
        ret ((if e1 then ["Website is required"] else [])
             ++ (if e2 then ["Username is required"] else [])
             ++ (if e3 then ["Password is required"] else [])) in
    ret (VObj (("valid", VBool (List.length errors =? 0)%nat)
               :: match errors with
                  | [] => []
                  | _ => [("errors", VArr (map VStr errors))]
                  end)).

Definition is_valid (credential : value) : M bool :=
  let* validation := validateCredential credential in
  ret (truthy_opt (field validation "valid")).

Definition importCredentials (data seedPhrase format : string) (options : value)
  : M value :=
  try_catch
    (let* importedCredentials :=
       if String.eqb format "json" then
         match JSON_parse data with
         | None => throw (HostError SyntaxError)
         | Some parsed =>
             let* c := prop parsed "credentials" in
             match if_truthy c with
             | Some x => ret x
             | None =>
                 let* p := prop parsed "passwords" in
                 ret (or_empty p)
             end
         end
       else throw (JsError ("Unsupported import format: " +:+ format)) in
     let* records :=
       match importedCredentials with
       | VArr xs => ret xs
       | _ => throw (HostError TypeError)
       end in
     let* validCredentials := filterM is_valid records in
     if (List.length validCredentials =? 0)%nat then
       throw (JsError "No valid credentials found in import data")
     else
       let* existingResult := getCredentials seedPhrase in
       let existingCredentials := or_empty (field existingResult "credentials") in
       let* replace := prop options "replace" in
       let* finalCredentials :=
         if truthy_opt replace then ret validCredentials
         else
           let* existing := spread existingCredentials in
           ret (existing ++ validCredentials) in
       let* storeResult := storeCredentials (VArr finalCredentials) seedPhrase None 0 in
       if truthy_opt (field storeResult "success") then
         ret (VObj [("success", VBool true);
                    ("imported", VNum (Z.of_nat (List.length validCredentials)));
                    ("total", VNum (Z.of_nat (List.length finalCredentials)));
                    ("skipped",
                     VNum (Z.of_nat (List.length records)
                           - Z.of_nat (List.length validCredentials)))])
       else
         throw (JsError (match if_truthy (field storeResult "error") with
                         | Some (VStr e) => e
                         | _ => "Failed to store imported credentials"
                         end)))
    (fun error =>
       ret (VObj [("success", VBool false); ("error", VStr (message error))])).

Definition getBackups : M value :=
  try_catch
    (let* result := chrome_storage_get (Some ["backups"]) in
     ret (match result !! "backups" with
          | Some v => v
          | None => VArr []
          end))
    (fun _ => ret (VArr [])).

Definition restoreFromBackup (backupId : option value) (seedPhrase : string) : M value :=
  try_catch
    (let seed := mnemonicToSeed seedPhrase in
     let* keys := generateKeyFromSeedBytes seed in
     let key := encryptionKey keys in
     let* result := chrome_storage_get (Some ["credentials"]) in
     match if_truthy (result !! "credentials") with
     | None => throw (JsError "No credentials found to restore")
     | Some credentials =>
         let* decrypted := decryptData credentials key in
         match JSON_parse decrypted with
         | None => throw (HostError SyntaxError)
         | Some data =>
             chrome_storage_set (list_to_map (defined [("currentBackupId", backupId)])) ;;
             let* c := prop data "credentials" in
             ret (VObj (defined [("success", Some (VBool true)); ("credentials", c)]))
         end
     end)
    (fun error =>
       ret (VObj [("success", VBool false);
                  ("error", VStr ("Failed to restore from backup: " +:+ message error))])).

Definition createBackup (seedPhrase : string) : M value :=
  try_catch
    (let* credentialsResult := getCredentials seedPhrase in
     let credentials := or_empty (field credentialsResult "credentials") in
     let* now := Date_now in
     let* credentialCount := js_length credentials in
     let backupData :=
       VObj (defined [("timestamp", Some (VStr (toISOString now)));
                      ("appVersion", Some (VStr "1.0.0"));
                      ("credentials", Some credentials);
                      ("credentialCount", credentialCount)]) in
     ret (VObj [("success", VBool true); ("data", backupData)]))
    (fun error =>
       ret (VObj [("success", VBool false); ("error", VStr (message error))])).

End PasswordService.


(** ** The background script

    The background script keeps [currentStorageKey], [currentUserSession]
    and [sessionTimeout] in module-level variables and repeats the session
    functions of AuthService over them. *)

Module Background.
Section Background.
Context `{Platform}.

Definition createUserSession (seedPhrase : string) : M unit :=
  let* now := Date_now in
  modify (set_session (Some {| seedPhrase := seedPhrase;
                               timestamp := now;
                               isActive := true |})).

Definition clearUserSession : M unit :=
  modify (fun w => set_key None (set_session None w)).

Definition isSessionValid : M bool :=
  let* w := get_world in
  match currentUserSession w with
  | None => ret false
  | Some session =>
      if negb (isActive session) then ret false
      else
        let* now := Date_now in
        let sessionAge := now - timestamp session in
        if sessionTimeout w <? sessionAge
        then clearUserSession ;; ret false
        else ret true
  end.

Definition validateSeedPhrase (seedPhrase : string) : bool :=
  validateMnemonic seedPhrase.

(** [initializeStorageEncryption] and [secureStorage] of the background
    script are, line by line, those of AuthService. *)
Definition ensureStorageEncryption (seedPhrase : string) : M unit :=
  let* w := get_world in
  match currentStorageKey w with
  | None => initializeStorageEncryption seedPhrase ;; ret tt
  | Some _ => ret tt
  end.

Definition pinKey (pin : string) : list byte :=
  pbkdf2_sha256 (TextEncoder_encode (String_padEnd pin 32 "0"))
                (TextEncoder_encode "SecureSphere") 100000.

Definition storePinCode (pin seedPhrase : string) : M bool :=
  try_catch
    (ensureStorageEncryption seedPhrase ;;
     let seed := mnemonicToSeed seedPhrase in
     let* keys := generateKeyFromSeedBytes seed in
     let key := encryptionKey keys in
     let* encryptedPin := encryptData pin key in
     secureStorage_set (list_to_map [("pinCode", encryptedPin)]) ;;
     let pinDerivedKey := pinKey pin in
     let* encryptedSeed := encryptData seedPhrase pinDerivedKey in
     secureStorage_set (list_to_map [("encryptedSeedPhrase", encryptedSeed)]) ;;
     ret true)
    (fun error => ret false).

Definition verifyPinCode (pin : string) : M value :=
  try_catch
    (let* result := secureStorage_get ["pinCode"; "encryptedSeedPhrase"] in
     match if_truthy (result !! "pinCode"),
           if_truthy (result !! "encryptedSeedPhrase") with
     | Some pinCode, Some encryptedSeedPhrase =>
         let tempKey := pinKey pin in
         let* recovered :=
           try_catch
             (let* s := decryptData encryptedSeedPhrase tempKey in ret (Some s))
             (fun _ => ret None) in
         match recovered with
         | None =>
             ret (VObj [("verified", VBool false); ("error", VStr "Invalid PIN")])
         | Some seedPhrase =>
             ensureStorageEncryption seedPhrase ;;
             let seed := mnemonicToSeed seedPhrase in
             let* keys := generateKeyFromSeedBytes seed in
             let key := encryptionKey keys in
             let* decryptedPin := decryptData pinCode key in
             if String.eqb decryptedPin pin
             then
               createUserSession seedPhrase ;;
               ret (VObj [("verified", VBool true); ("seedPhrase", VStr seedPhrase)])
             else
               ret (VObj [("verified", VBool false); ("error", VStr "Invalid PIN")])
         end
     | _, _ =>
         ret (VObj [("verified", VBool false);
                    ("error", VStr "PIN not set or seed phrase not found")])
     end)
    (fun error =>
       ret (VObj [("verified", VBool false); ("error", VStr (message error))])).

Fixpoint storeCredentials_retry (attempts : nat) (credentials : value)
    (seedPhrase : string) (timestamp : option string) (retryCount : nat) : M bool :=
  try_catch
    (ensureStorageEncryption seedPhrase ;;
     let seed := mnemonicToSeed seedPhrase in
     let* keys := generateKeyFromSeedBytes seed in
     let key := encryptionKey keys in
     let* stamp :=
       match timestamp with
       | Some t => if String.eqb t "" then
                     let* now := Date_now in ret (toISOString now)
                   else ret t
       | None => let* now := Date_now in ret (toISOString now)
       end in
     let dataToStore := VObj [("credentials", credentials); ("timestamp", VStr stamp)] in
     js_length credentials ;;
     let* encrypted := encryptData (JSON_stringify dataToStore) key in
     let* stored :=
       try_catch
         (secureStorage_set
            (list_to_map [("credentials", encrypted); ("hasSeedPhrase", VBool true)]) ;;
          ret None)
         (fun storageError =>
            if (retryCount <? 3)%nat then
              match attempts with
              | S attempts' =>
                  let* r := storeCredentials_retry attempts' credentials seedPhrase
                              timestamp (S retryCount) in
                  ret (Some r)
              | O => throw storageError
              end
            else throw storageError) in
     match stored with
     | Some r => ret r
     | None =>
         try_catch
           (let* backupResult := secureStorage_get ["backups"] in
            let backups := or_empty (backupResult !! "backups") in
            let* id := Date_now in
            let* now := Date_now in
            let* credentialCount := js_length credentials in
            let newBackup :=
              VObj ([("id", VStr (Number_toString id)); ("timestamp", VNum now)]
                    ++ match credentialCount with
                       | Some c => [("credentialCount", c)]
                       | None => []
                       end) in
            let* rest := spread backups in
            let updatedBackups := firstn 10 (newBackup :: rest) in
            secureStorage_set
              (list_to_map [("backups", VArr updatedBackups);
                            ("currentBackupId", VStr (Number_toString id))]))
           (fun backupError => ret tt) ;;
         ret true
     end)
    (fun error => ret false).

Definition storeCredentials (credentials : value) (seedPhrase : string)
    (timestamp : option string) (retryCount : nat) : M bool :=
  storeCredentials_retry (3 - retryCount) credentials seedPhrase timestamp retryCount.

Definition getCredentials (seedPhrase : string) : M value :=
  try_catch
    (if String.eqb seedPhrase "" then
       try_catch
         (let* result := secureStorage_get ["credentials"] in
          match if_truthy (result !! "credentials") with
          | None => ret (empty_result (Some "No credentials found"))
          | Some credentials =>
              ret (VObj [("credentials", credentials);
                         ("walletSeeds", or_empty (result !! "walletSeeds"))])
          end)
         (fun storageError =>
            ret (empty_result
                   (Some (if String.eqb (message storageError) ""
                          then "Failed to access storage"
                          else message storageError))))
     else
       try_catch
         (if negb (validateSeedPhrase seedPhrase)
          then ret (empty_result (Some "Invalid seed phrase"))
          else
            ensureStorageEncryption seedPhrase ;;
            let seed := mnemonicToSeed seedPhrase in
            let* keys := generateKeyFromSeedBytes seed in
            let key := encryptionKey keys in
            let* stored := secureStorage_get ["credentials"; "backupCID"] in
            match if_truthy (stored !! "credentials") with
            | Some credentials =>
                try_catch
                  (let* decrypted :=
                     try_catch
                       (let* d := decryptData credentials key in ret (inl d))
                       (fun decryptError =>
                          if negb (truthy_opt (field credentials "iv"))
                             || negb (truthy_opt (field credentials "data"))
                          then ret (inr (empty_result
                                           (Some "Corrupted credential data structure")))
                          else
                            let* n := js_length
                                        (match field credentials "iv" with
                                         | Some iv => iv
                                         | None => VNull
                                         end) in
                            match n with
                            | Some (VNum 12) => throw decryptError
                            | _ => ret (inr (empty_result
                                               (Some "Invalid encryption format")))
                            end) in
                   match decrypted with
                   | inr early => ret early
                   | inl text =>
                       match JSON_parse text with
                       | None => throw (HostError SyntaxError)
                       | Some data => shape data
                       end
                   end)
                  (fun decryptError =>
                     ret (empty_result
                            (Some ("Failed to decrypt credentials: "
                                   +:+ message decryptError))))
            | None => ret (empty_result None)
            end)
         (fun error => ret (empty_result (Some (message error)))))
    (fun error => ret (VObj [("error", VStr (message error))])).

Definition getBackups : M value :=
  try_catch
    (let* result := chrome_storage_get (Some ["backups"]) in
     ret (match result !! "backups" with
          | Some v => v
          | None => VArr []
          end))
    (fun _ => ret (VArr [])).

Definition restoreFromBackup (backupId : option value) (seedPhrase : string)
  : M (option value) :=
  try_catch
    (let seed := mnemonicToSeed seedPhrase in
     let* keys := generateKeyFromSeedBytes seed in
     let key := encryptionKey keys in
     let* result := chrome_storage_get (Some ["credentials"]) in
     match if_truthy (result !! "credentials") with
     | None => throw (JsError "No credentials found to restore")
     | Some credentials =>
         let* decrypted := decryptData credentials key in
         match JSON_parse decrypted with
         | None => throw (HostError SyntaxError)
         | Some data =>
             chrome_storage_set (list_to_map (defined [("currentBackupId", backupId)])) ;;
             prop data "credentials"
         end
     end)
    (fun _ => throw (JsError "Failed to restore from backup")).

Definition saveSettings (settings : value) : M bool :=
  try_catch
    (secureStorage_set {["extensionSettings" := settings]} ;;
     ret true)
    (fun _ => ret false).

Definition default_settings (now : Z) : value :=
  VObj [("backup", VObj [("type", VStr "securesphere")]);
        ("session", VObj [("timeout", VNum 30)]);
        ("autoLock", VObj [("onClose", VBool true); ("onSleep", VBool false)]);
        ("buildNumber", VStr ("1.0.0-" +:+ Number_toString now))].

Definition getSettings : M value :=
  try_catch
    (let* result := secureStorage_get ["extensionSettings"] in
     match if_truthy (result !! "extensionSettings") with
     | Some settings => ret settings
     | None => let* now := Date_now in ret (default_settings now)
     end)
    (fun _ => let* now := Date_now in ret (default_settings now)).

Definition changePin (currentPin newPin : string) : M value :=
  try_catch
    (let* verifyResult := verifyPinCode currentPin in
     if negb (truthy_opt (field verifyResult "verified")) then
       ret (VObj [("success", VBool false);
                  ("error", VStr "Current PIN is incorrect")])
     else
       let* seedPhrase :=
         match field verifyResult "seedPhrase" with
         | Some (VStr s) => ret s
         | _ => throw (HostError TypeError)
         end in
       let* storeResult := storePinCode newPin seedPhrase in
       if negb storeResult then
         ret (VObj [("success", VBool false);
                    ("error", VStr "Failed to store new PIN")])
       else ret (VObj [("success", VBool true)]))
    (fun error =>
       ret (VObj [("success", VBool false); ("error", VStr (message error))])).

Definition itemsToKeep : list string :=
  ["credentials"; "pinCode"; "encryptedSeedPhrase"; "storedSeedPhrase";
   "extensionSettings"; "backups"].

Definition clearCache : M value :=
  try_catch
    (let* allItems := chrome_storage_get None in
     let itemsToRemove :=
       List.filter (fun key => negb (includes itemsToKeep key))
                   (map fst (map_to_list allItems)) in
     (if (0 <? List.length itemsToRemove)%nat
      then chrome_storage_remove itemsToRemove
      else ret tt) ;;
     ret (VObj [("success", VBool true)]))
    (fun error =>
       ret (VObj [("success", VBool false); ("error", VStr (message error))])).

Definition resetAllData : M value :=
  try_catch
    (chrome_storage_clear ;;
     clearUserSession ;;
     chrome_storage_set {["firstTimeSetup" := VBool true]} ;;
     ret (VObj [("success", VBool true)]))
    (fun error =>
       ret (VObj [("success", VBool false); ("error", VStr (message error))])).

End Background.
End Background.

(** ** Assumptions on the host *)

(** The envelope [{iv, data}] that [encryptData] returns, and the
    initialisation vector it draws in a world. *)
Definition envelope (iv data : list byte) : value :=
  VObj [("iv", Array_from iv); ("data", Array_from data)].

Definition fresh_iv (w : World) : list byte :=
  map (fun i => rng w (tick w + N.of_nat i)%N) (seq 0 12).

Section Laws.
Context `{Platform}.

(** The text that [encryptStorageData] encrypts, and the object it
    returns for an initialisation vector and a clock reading. *)
Definition dataString (data : value) : string :=
  match data with
  | VStr s => s
  | _ => JSON_stringify data
  end.

Definition storage_envelope (storageKey : list byte) (data : value)
    (iv : list byte) (now : Z) : value :=
  VObj [("encrypted", VBool true);
        ("version", VStr "1.0");
        ("iv", Array_from iv);
        ("data", Array_from (aes_gcm_encrypt storageKey iv
                               (TextEncoder_encode (dataString data))));
        ("timestamp", VNum now)].

(** AES-GCM decrypts what it encrypted under the same key and IV. *)
Definition aes_gcm_sound : Prop :=
  forall key iv data,
    aes_gcm_decrypt key iv (aes_gcm_encrypt key iv data) = Some data.

(** The idealisation of the authentication tag: a ciphertext is rejected
    under any other key. *)
Definition aes_gcm_authentic : Prop :=
  forall key key' iv data,
    key <> key' ->
    aes_gcm_decrypt key' iv (aes_gcm_encrypt key iv data) = None.

(** [JSON.parse(JSON.stringify(v))] is [v] for the envelopes. *)
Definition JSON_envelopes : Prop :=
  forall iv data,
    JSON_parse (JSON_stringify (envelope iv data)) = Some (envelope iv data).

(** bip39 seeds have 64 bytes. *)
Definition bip39_seed_length : Prop :=
  forall m, List.length (mnemonicToSeed m) = 64%nat.

End Laws.

(** ** A reference host

    An executable instance of [Platform], on which the model runs on
    concrete inputs. Its JSON is the real grammar on the integer fragment;
    its AEAD and key derivations are transparent stand-ins that satisfy the
    assumptions above (they protect nothing). *)

Module Reference.

Definition byte_of_N (n : N) : byte :=
  match Byte.of_N n with Some b => b | None => x00 end.

(** *** JSON text *)

Fixpoint digits (fuel : nat) (n : N) (acc : list byte) : list byte :=
  let acc' := byte_of_N (48 + n mod 10) :: acc in
  match fuel with
  | O => acc'
  | S fuel' => if (n <? 10)%N then acc' else digits fuel' (n / 10) acc'
  end.

Definition print_N (n : N) : list byte := digits (N.to_nat (N.log2 n)) n [].

Definition print_Z (z : Z) : list byte :=
  if z <? 0 then x2d :: print_N (Z.abs_N z) else print_N (Z.abs_N z).

Definition hex_byte (n : N) : byte :=
  byte_of_N (if (n <? 10)%N then 48 + n else 87 + n).

Definition escape (b : byte) : list byte :=
  match b with
  | x22 => [x5c; x22]
  | x5c => [x5c; x5c]
  | x08 => [x5c; x62]
  | x0c => [x5c; x66]
  | x0a => [x5c; x6e]
  | x0d => [x5c; x72]
  | x09 => [x5c; x74]
  | _ =>
      if (Byte.to_N b <? 32)%N
      then [x5c; x75; x30; x30; hex_byte (Byte.to_N b / 16); hex_byte (Byte.to_N b mod 16)]
      else [b]
  end.

Definition print_string (s : string) : list byte :=
  x22 :: flat_map escape (list_byte_of_string s) ++ [x22].

Fixpoint print (v : value) : list byte :=
  match v with
  | VNull => [x6e; x75; x6c; x6c]
  | VBool true => [x74; x72; x75; x65]
  | VBool false => [x66; x61; x6c; x73; x65]
  | VNum n => print_Z n
  | VStr s => print_string s
  | VArr xs =>
      x5b :: (fix elements (xs : list value) : list byte :=
                match xs with
                | [] => [x5d]
                | [x] => print x ++ [x5d]
                | x :: rest => print x ++ x2c :: elements rest
                end) xs
  | VObj fields =>
      x7b :: (fix members (fs : list (string * value)) : list byte :=
                match fs with
                | [] => [x7d]
                | [(k, x)] => print_string k ++ x3a :: print x ++ [x7d]
                | (k, x) :: rest => print_string k ++ x3a :: print x ++ x2c :: members rest
                end) fields
  end.

Fixpoint skip_ws (l : list byte) : list byte :=
  match l with
  | (x20 | x09 | x0a | x0d) :: l' => skip_ws l'
  | _ => l
  end.

Definition digit (b : byte) : option N :=
  let n := Byte.to_N b in
  if ((48 <=? n) && (n <=? 57))%N then Some (n - 48)%N else None.

Fixpoint parse_digits (l : list byte) (acc : N) : N * list byte :=
  match l with
  | b :: l' =>
      match digit b with
      | Some d => parse_digits l' (acc * 10 + d)
      | None => (acc, l)
      end
  | [] => (acc, l)
  end.

(** An integer literal; a fraction or an exponent is outside the fragment. *)
Definition parse_unsigned (l : list byte) : option (N * list byte) :=
  match l with
  | x30 :: l' => Some (0%N, l')
  | b :: l' =>
      match digit b with
      | Some d => Some (parse_digits l' d)
      | None => None
      end
  | [] => None
  end.

Definition end_of_integer (l : list byte) : bool :=
  match l with
  | (x2e | x65 | x45) :: _ => false
  | _ => true
  end.

Definition parse_number (l : list byte) : option (Z * list byte) :=
  let '(neg, l1) := match l with
                    | x2d :: l' => (true, l')
                    | _ => (false, l)
                    end in
  match parse_unsigned l1 with
  | Some (n, rest) =>
      if end_of_integer rest
      then Some (if neg then - Z.of_N n else Z.of_N n, rest)
      else None
  | None => None
  end.

Definition hex_value (b : byte) : option N :=
  let n := Byte.to_N b in
  if ((48 <=? n) && (n <=? 57))%N then Some (n - 48)%N
  else if ((97 <=? n) && (n <=? 102))%N then Some (n - 87)%N
  else if ((65 <=? n) && (n <=? 70))%N then Some (n - 55)%N
  else None.

(** The UTF-8 bytes of a code point below U+10000; a surrogate stands for
    U+FFFD, as the text encoder writes it. *)
Definition utf8 (c : N) : list byte :=
  if (c <? 128)%N then [byte_of_N c]
  else if (c <? 2048)%N then [byte_of_N (192 + c / 64); byte_of_N (128 + c mod 64)]
  else if ((55296 <=? c) && (c <? 57344))%N then [xef; xbf; xbd]
  else [byte_of_N (224 + c / 4096); byte_of_N (128 + (c / 64) mod 64);
        byte_of_N (128 + c mod 64)].

Definition utf8_pair (hi lo : N) : list byte :=
  let c := (65536 + (hi - 55296) * 1024 + (lo - 56320))%N in
  [byte_of_N (240 + c / 262144); byte_of_N (128 + (c / 4096) mod 64);
   byte_of_N (128 + (c / 64) mod 64); byte_of_N (128 + c mod 64)].

Definition hex4 (a b c d : byte) : option N :=
  match hex_value a, hex_value b, hex_value c, hex_value d with
  | Some x, Some y, Some z, Some t => Some (((x * 16 + y) * 16 + z) * 16 + t)%N
  | _, _, _, _ => None
  end.

(** The characters of a string literal after its opening quote. *)
Fixpoint parse_chars (l : list byte) : option (list byte * list byte) :=
  match l with
  | [] => None
  | x22 :: rest => Some ([], rest)
  | x5c :: l1 =>
      match l1 with
      | x75 :: a :: b :: c :: d :: rest =>
          match hex4 a b c d with
          | None => None
          | Some hi =>
              let single :=
                match parse_chars rest with
                | Some (s, r) => Some (utf8 hi ++ s, r)
                | None => None
                end in
              match rest with
              | x5c :: x75 :: a' :: b' :: c' :: d' :: rest' =>
                  match hex4 a' b' c' d' with
                  | Some lo =>
                      if ((55296 <=? hi) && (hi <? 56320)
                          && (56320 <=? lo) && (lo <? 57344))%N
                      then
                        match parse_chars rest' with
                        | Some (s, r) => Some (utf8_pair hi lo ++ s, r)
                        | None => None
                        end
                      else single
                  | None => single
                  end
              | _ => single
              end
          end
      | e :: rest =>
          let simple :=
            match e with
            | x22 => Some x22
            | x5c => Some x5c
            | x2f => Some x2f
            | x62 => Some x08
            | x66 => Some x0c
            | x6e => Some x0a
            | x72 => Some x0d
            | x74 => Some x09
            | _ => None
            end in
          match simple with
          | Some b =>
              match parse_chars rest with
              | Some (s, r) => Some (b :: s, r)
              | None => None
              end
          | None => None
          end
      | [] => None
      end
  | b :: rest =>
      if (Byte.to_N b <? 32)%N then None
      else
        match parse_chars rest with
        | Some (s, r) => Some (b :: s, r)
        | None => None
        end
  end.

(** [obj[k] = v] on the fields read so far. *)
Fixpoint obj_set (k : string) (v : value) (fields : list (string * value))
  : list (string * value) :=
  match fields with
  | [] => [(k, v)]
  | (k', v') :: rest =>
      if String.eqb k k' then (k, v) :: rest else (k', v') :: obj_set k v rest
  end.

Fixpoint parse_value (fuel : nat) (l : list byte) : option (value * list byte) :=
  match fuel with
  | O => None
  | S fuel' =>
      match skip_ws l with
      | x6e :: x75 :: x6c :: x6c :: rest => Some (VNull, rest)
      | x74 :: x72 :: x75 :: x65 :: rest => Some (VBool true, rest)
      | x66 :: x61 :: x6c :: x73 :: x65 :: rest => Some (VBool false, rest)
      | x22 :: rest =>
          match parse_chars rest with
          | Some (s, r) => Some (VStr (string_of_list_byte s), r)
          | None => None
          end
      | x5b :: rest =>
          match skip_ws rest with
          | x5d :: r => Some (VArr [], r)
          | _ =>
              match parse_elements fuel' rest with
              | Some (xs, r) => Some (VArr xs, r)
              | None => None
              end
          end
      | x7b :: rest =>
          match skip_ws rest with
          | x7d :: r => Some (VObj [], r)
          | _ =>
              match parse_members fuel' rest [] with
              | Some (fs, r) => Some (VObj fs, r)
              | None => None
              end
          end
      | l' =>
          match parse_number l' with
          | Some (n, r) => Some (VNum n, r)
          | None => None
          end
      end
  end
with parse_elements (fuel : nat) (l : list byte) : option (list value * list byte) :=
  match fuel with
  | O => None
  | S fuel' =>
      match parse_value fuel' l with
      | Some (v, r) =>
          match skip_ws r with
          | x2c :: r' =>
              match parse_elements fuel' r' with
              | Some (vs, r'') => Some (v :: vs, r'')
              | None => None
              end
          | x5d :: r' => Some ([v], r')
          | _ => None
          end
      | None => None
      end
  end
with parse_members (fuel : nat) (l : list byte) (acc : list (string * value))
  : option (list (string * value) * list byte) :=
  match fuel with
  | O => None
  | S fuel' =>
      match skip_ws l with
      | x22 :: l1 =>
          match parse_chars l1 with
          | Some (k, l2) =>
              match skip_ws l2 with
              | x3a :: l3 =>
                  match parse_value fuel' l3 with
                  | Some (v, r) =>
                      let acc' := obj_set (string_of_list_byte k) v acc in
                      match skip_ws r with
                      | x2c :: r' => parse_members fuel' r' acc'
                      | x7d :: r' => Some (acc', r')
                      | _ => None
                      end
                  | None => None
                  end
              | _ => None
              end
          | None => None
          end
      | _ => None
      end
  end.

Definition stringify (v : value) : string := string_of_list_byte (print v).

(** A JSON text is a well-formed text; the grammar refuses U+FEFF at its
    head like any other character that starts no value. *)
Definition parse (s : string) : option value :=
  let l := list_byte_of_string s in
  if utf8_valid l && negb (starts_with_BOM l) then
    match parse_value (S (List.length l)) l with
    | Some (v, rest) =>
        match skip_ws rest with
        | [] => Some v
        | _ => None
        end
    | None => None
    end
  else None.

(** *** A transparent AEAD *)

Fixpoint frame (l : list byte) : list byte :=
  match l with
  | [] => [x00]
  | b :: l' => x01 :: b :: frame l'
  end.

Fixpoint unframe (l : list byte) : option (list byte * list byte) :=
  match l with
  | x00 :: rest => Some ([], rest)
  | x01 :: b :: rest =>
      match unframe rest with
      | Some (p, r) => Some (b :: p, r)
      | None => None
      end
  | _ => None
  end.

Definition bytes_eqb (a b : list byte) : bool :=
  String.eqb (string_of_list_byte a) (string_of_list_byte b).

Definition seal (key iv data : list byte) : list byte :=
  frame key ++ frame iv ++ data.

Definition unseal (key iv sealed : list byte) : option (list byte) :=
  match unframe sealed with
  | Some (k, rest) =>
      match unframe rest with
      | Some (i, data) =>
          if bytes_eqb k key && bytes_eqb i iv then Some data else None
      | None => None
      end
  | None => None
  end.

(** *** Key derivation *)

Definition derive (password salt : list byte) (iterations : Z) : list byte :=
  firstn 32 (password ++ salt ++ print_Z iterations ++ repeat x00 32).

Definition seed_of (mnemonic : string) : list byte :=
  firstn 64 (list_byte_of_string mnemonic ++ repeat x00 64).

(** Twelve to twenty-four words of lower-case letters (no checksum). *)
Fixpoint words (l : list byte) (cur : list byte) : list (list byte) :=
  match l with
  | [] => [rev cur]
  | x20 :: l' => rev cur :: words l' []
  | b :: l' => words l' (b :: cur)
  end.

Definition lower (b : byte) : bool :=
  ((97 <=? Byte.to_N b) && (Byte.to_N b <=? 122))%N.

Definition valid_mnemonic (mnemonic : string) : bool :=
  let ws := words (list_byte_of_string mnemonic) [] in
  forallb (fun w => negb (List.length w =? 0)%nat && forallb lower w) ws
  && existsb (Nat.eqb (List.length ws)) [12; 15; 18; 21; 24]%nat.

Definition error_text (e : host_error) : string :=
  match e with
  | TypeError => "TypeError"
  | OperationError => "The operation failed for an operation-specific reason"
  | SyntaxError => "Unexpected token in JSON"
  | LastError => "storage unavailable"
  end.

#[export] Instance host : Platform.
Proof.
  refine {| aes_gcm_encrypt := seal;
            aes_gcm_decrypt := unseal;
            pbkdf2_sha256 := derive;
            mnemonicToSeed := seed_of;
            validateMnemonic := valid_mnemonic;
            JSON_stringify := stringify;
            JSON_parse := parse;
            JSON_parse_text := _;
            toISOString := fun ms => string_of_list_byte (print_Z ms);
            ToNumber_other := fun _ => 0;
            Uint8Array_other := fun _ => [];
            host_message := error_text |}.
  intros s v. unfold parse, plain_text.
  destruct (utf8_valid (list_byte_of_string s)); [| discriminate].
  destruct (starts_with_BOM (list_byte_of_string s)); [discriminate |].
  intros _. split; reflexivity.
Defined.

(** A world at rest: an empty store, no session, the default timeout of
    thirty minutes, a clock that advances by a millisecond per reading and
    a random source that alternates two bytes. *)
Definition idle : World :=
  {| storage := ∅;
     currentUserSession := None;
     currentStorageKey := None;
     sessionTimeout := 30 * 60 * 1000;
     encryptionIterations := 100000;
     tick := 0;
     rng := fun n => if N.odd n then x5a else xa5;
     clock := fun n => Z.of_N n + 1700000000000;
     fault := fun _ => false |}.

Definition mnemonic : string :=
  "legal winner thank year wave sausage worth useful legal winner thank yellow".

(** The world at rest after a session was established at time [ts]. *)
Definition unlocked (ts : Z) : World :=
  set_session (Some {| seedPhrase := mnemonic; timestamp := ts; isActive := true |})
    (set_key (Some (derive (list_byte_of_string mnemonic) [] 250000)) idle).

(** The text of the elements of a byte array, after the opening bracket. *)
Fixpoint elems (bs : list byte) : list byte :=
  match bs with
  | [] => [x5d]
  | [b] => print_Z (Z_of_byte b) ++ [x5d]
  | b :: rest => print_Z (Z_of_byte b) ++ x2c :: elems rest
  end.

Definition after_first (bs : list byte) : list byte :=
  match bs with
  | [] => [x5d]
  | _ => x2c :: elems bs
  end.

(** Worlds and import batches on which the properties are run. *)

Definition login : value :=
  VObj [("id", VStr "1"); ("type", VStr "login"); ("website", VStr "example.com");
        ("username", VStr "a@b.com"); ("password", VStr "hunter2")].

(** The world after [storeCredentials([login], mnemonic, "2024-01-01")]. *)
Definition stored_world : World :=
  snd (storeCredentials (VArr [login]) mnemonic (Some "2024-01-01") 0 idle).

(** The world after [storeCredentials(null, mnemonic, "2024-01-01")]:
    the stored document is [{credentials: null, timestamp}]. *)
Definition null_world : World :=
  snd (storeCredentials VNull mnemonic (Some "2024-01-01") 0 idle).



(** The world after [storePin("1234", mnemonic)], and after [storePinCode]. *)
Definition pin_world : World := snd (storePin "1234" mnemonic idle).

Definition pin_code_world : World := snd (Background.storePinCode "1234" mnemonic idle).

(** U+FEFF in UTF-8 (EF BB BF), and a PIN that begins with it. *)
Definition U_FEFF : string :=
  String "239" (String "187" (String "191" EmptyString)).


(** A store from before the storage encryption, with two plain entries. *)
Definition plain_world : World :=
  set_storage (list_to_map [("note", VStr "hello"); ("count", VNum 7)]) idle.

(** Another phrase that the reference host takes for a mnemonic. *)
Definition other_mnemonic : string :=
  "zoo zoo zoo zoo zoo zoo zoo zoo zoo zoo zoo wrong".

(** A store with a list of three passwords. *)
Definition passwords_world : World :=
  set_storage {["passwords" := VArr [VStr "a"; VStr "b"; VStr "c"]]} idle.

(** A store as [secureStorageSet] leaves it, with one entry beside the six
    that [clearCache] keeps. *)
Definition cached_world : World :=
  snd (secureStorageSet (list_to_map [("credentials", VStr "blob"); ("userId", VStr "u1")])
         [x01] idle).

End Reference.

(** * Vocabulary of the statements *)

(** Two worlds that differ only in the step counter of the host. *)
Definition same_state (w w' : World) : Prop :=
  storage w' = storage w
  /\ currentUserSession w' = currentUserSession w
  /\ currentStorageKey w' = currentStorageKey w
  /\ sessionTimeout w' = sessionTimeout w
  /\ encryptionIterations w' = encryptionIterations w
  /\ rng w' = rng w /\ clock w' = clock w /\ fault w' = fault w.

(** [same_vars]: the session variables and the host are the same (the
    store and the step counter may differ); [same_host]: the host and the
    configuration are the same. *)
Definition same_vars (w w' : World) : Prop :=
  currentUserSession w' = currentUserSession w
  /\ currentStorageKey w' = currentStorageKey w
  /\ sessionTimeout w' = sessionTimeout w
  /\ encryptionIterations w' = encryptionIterations w
  /\ rng w' = rng w /\ clock w' = clock w /\ fault w' = fault w.

Definition same_host (w w' : World) : Prop :=
  sessionTimeout w' = sessionTimeout w
  /\ encryptionIterations w' = encryptionIterations w
  /\ rng w' = rng w /\ clock w' = clock w /\ fault w' = fault w.

(** The computation [m] relates every world to the one it leaves. *)
Definition keeps {A} (R : World -> World -> Prop) (m : M A) : Prop :=
  forall w, R w (snd (m w)).

(** The marker is set: [allData.hasEncryptedStorage] is truthy. *)
Definition marked (s : gmap string value) : bool :=
  truthy_opt (s !! "hasEncryptedStorage").

(** [chrome.storage.local] never reports [lastError]. *)
Definition available (w : World) : Prop := forall n, fault w n = false.

(** [validateCredential] without the monad: [None] is the TypeError of
    [.trim()] on a truthy field that is not a string. *)
Definition missing_field (v : option value) : option bool :=
  match if_truthy v with
  | None => Some true
  | Some (VStr s) => Some (String_length (String_trim s) =? 0)%nat
  | Some _ => None
  end.

(** The verdict of [validateCredential] on a record of the batch. *)
Definition record_ok (r : value) : option bool :=
  if negb (truthy r) || negb (typeof_object r) then Some false
  else
    if strict_eq_string (field r "type") "wallet" then
      match missing_field (field r "name"), missing_field (field r "seedPhrase") with
      | Some e1, Some e2 => Some (negb e1 && negb e2)
      | _, _ => None
      end
    else
      match missing_field (field r "website"), missing_field (field r "username"),
            missing_field (field r "password") with
      | Some e1, Some e2, Some e3 => Some (negb e1 && negb e2 && negb e3)
      | _, _, _ => None
      end.


(** [parsed.credentials || parsed.passwords || []] *)
Definition batch_of (parsed : value) : value :=
  match if_truthy (field parsed "credentials") with
  | Some x => x
  | None => or_empty (field parsed "passwords")
  end.

Section Vocabulary.
Context `{Platform}.

(** The loop of [secureStorageSet] over the entries of [items]. *)
Definition set_entry (k : list byte) (acc : gmap string value) (kv : string * value)
  : M (gmap string value) :=
  let '(key, v) := kv in
  if includes skipEncryption key
  then ret (<[key := v]> acc)
  else
    let* e := encryptStorageData v k in
    ret (<[key := e]> acc).

(** The loop of [migrateToEncryptedStorage] over the entries of the store. *)
Definition migrate_entry (k : list byte) (acc : gmap string value) (kv : string * value)
  : M (gmap string value) :=
  let '(key, v) := kv in
  if includes skipEncryption key
  then ret (<[key := v]> acc)
  else
    match v with
    | VNull => ret acc
    | _ =>
        let* e := encryptStorageData v k in
        ret (<[key := e]> acc)
    end.

(** What [decryptStorageData] makes of a decrypted text. *)
Definition revive (text : string) : value :=
  match JSON_parse text with
  | Some parsed => parsed
  | None => VStr text
  end.

(** What [decryptStorageData] makes of the envelope that
    [encryptStorageData] made of [data]: the text that was encrypted,
    decoded and revived. *)
Definition read_back (data : value) : value := revive (decoded (dataString data)).

(** The loop of [secureStorageGet] over the entries read. *)
Definition get_entry (k : list byte) (acc : gmap string value) (kv : string * value)
  : M (gmap string value) :=
  let '(key, v) := kv in
  if includes skipEncryption key
  then ret (<[key := v]> acc)
  else
    let* d := decryptStorageData v k in
    ret (<[key := d]> acc).

(** The key derived from the mnemonic, as [generateKeyFromSeedBytes]
    computes it. *)
Definition seedKey (m : string) : list byte := firstn 32 (mnemonicToSeed m).

(** The state of the store after a PIN was set: the storage key is
    resident and the two envelopes are stored under it. *)
Definition pin_vault (pinK : list byte) (p m : string) (w : World) : Prop :=
  (64 <= List.length (mnemonicToSeed m))%nat
  /\ exists sk iv1 iv2 ivs1 ivs2 n1 n2,
      currentStorageKey w = Some sk
      /\ storage w !! "pinCode"
         = Some (storage_envelope sk
                   (envelope iv1 (aes_gcm_encrypt (seedKey m) iv1 (TextEncoder_encode p)))
                   ivs1 n1)
      /\ storage w !! "encryptedSeedPhrase"
         = Some (storage_envelope sk
                   (envelope iv2 (aes_gcm_encrypt pinK iv2 (TextEncoder_encode m)))
                   ivs2 n2).

End Vocabulary.

(** The two hexadecimal digits that [toHexString] prints for a byte. *)
Definition hex_pair (b : byte) : string :=
  String (hex_digit (Byte.to_N b / 16)%N)
    (String (hex_digit (Byte.to_N b mod 16)%N) EmptyString).

(** The one error that [decryptStorageData] throws. *)
Definition decrypt_error : exn :=
  JsError "Failed to decrypt storage data - possible corruption or wrong key".

(** [decryptStorageData] under the key [k] makes [v'] of the stored [v]. *)
Definition reads `{Platform} (k : list byte) (v v' : value) : Prop :=
  forall w, decryptStorageData v k w = (Ok v', w).

(** How [getSecureStorage().set] stores [v]: as it is without a storage
    key, in an envelope under the key otherwise. *)
Definition stored_as `{Platform} (key : option (list byte)) (v x : value) : Prop :=
  match key with
  | None => x = v
  | Some k => exists iv now, x = storage_envelope k v iv now
  end.

(** The object that [verifyStorageEncryption] encrypts at a clock reading. *)
Definition testData (now : Z) : value :=
  VObj [("test", VStr "encryption_test");
        ("timestamp", VNum now);
        ("array", VArr [VNum 1; VNum 2; VNum 3]);
        ("object", VObj [("nested", VBool true)])].

(** The storage key that [generateStorageEncryptionKey] derives. *)
Definition storageKey `{Platform} (seedPhrase : string) : list byte :=
  pbkdf2_sha256 (TextEncoder_encode seedPhrase)
    (TextEncoder_encode "SecureSphere-LocalStorage-Protection-v1") 250000.

(** The entry under [key] and the session variables are the same. *)
Definition same_entry (key : string) (w w' : World) : Prop :=
  storage w' !! key = storage w !! key /\ same_vars w w'.

(** The document that [storeCredentials] encrypts. *)
Definition credentials_document (credentials : value) (stamp : string) : value :=
  VObj [("credentials", credentials); ("timestamp", VStr stamp)].



(** * Properties *)

(** ** The monad *)

Lemma bind_ok {A B} (m : M A) (f : A -> M B) w a w' :
  m w = (Ok a, w') -> bind m f w = f a w'.
Proof. intros E. unfold bind. now rewrite E. Qed.

Lemma bind_throw {A B} (m : M A) (f : A -> M B) w e w' :
  m w = (Throw e, w') -> bind m f w = (Throw e, w').
Proof. intros E. unfold bind. now rewrite E. Qed.

Lemma bind_inv {A B} (m : M A) (f : A -> M B) w b w' :
  bind m f w = (Ok b, w') ->
  exists a w1, m w = (Ok a, w1) /\ f a w1 = (Ok b, w').
Proof.
  unfold bind. destruct (m w) as [[a | e] w1]; intros E.
  - now exists a, w1.
  - discriminate.
Qed.

Lemma foldM_cons {A B} (f : B -> A -> M B) a l b :
  foldM f (a :: l) b = (let* b' := f b a in foldM f l b').
Proof. reflexivity. Qed.

Lemma try_catch_ok {A} (m : M A) h w a w' :
  m w = (Ok a, w') -> try_catch m h w = (Ok a, w').
Proof. intros E. unfold try_catch. now rewrite E. Qed.

Lemma try_catch_throw {A} (m : M A) h w e w' :
  m w = (Throw e, w') -> try_catch m h w = h e w'.
Proof. intros E. unfold try_catch. now rewrite E. Qed.

Lemma try_rethrow {A} (m : M A) w :
  try_catch m (fun e => throw e) w = m w.
Proof. unfold try_catch, throw. now destruct (m w) as [[a | e] w1]. Qed.

(** ** Bytes *)

Lemma byte_of_Z_of_byte b : byte_of_Z (Z_of_byte b) = b.
Proof.
  unfold byte_of_Z, Z_of_byte.
  pose proof (Byte.to_N_bounded b) as Hb.
  rewrite Z.mod_small by lia.
  rewrite N2Z.id. now rewrite Byte.of_to_N.
Qed.

(** ** Text *)

Lemma utf8_decode_valid bytes :
  utf8_valid bytes = true -> utf8_decode bytes [] 0 128 191 = bytes.
Proof.
  remember (List.length bytes) as n eqn:Hn. revert bytes Hn.
  induction n as [n IH] using lt_wf_ind. intros bytes Hn Hv.
  destruct bytes as [| b rest]; [reflexivity |].
  cbn [utf8_valid] in Hv. cbn [utf8_decode].
  destruct (in_range 0 127 b) eqn:R1.
  { f_equal. apply (IH (List.length rest)); simpl in *; try lia; easy. }
  destruct (in_range 194 223 b) eqn:R2.
  { destruct rest as [| b1 rest1]; [discriminate |].
    apply andb_true_iff in Hv as [H1 Hr].
    cbn [utf8_decode]. rewrite H1. cbn [app]. do 2 f_equal.
    apply (IH (List.length rest1)); simpl in *; try lia; easy. }
  destruct (in_range 224 239 b) eqn:R3.
  { destruct rest as [| b1 [| b2 rest2]]; try discriminate.
    apply andb_true_iff in Hv as [Hv Hr]. apply andb_true_iff in Hv as [H1 H2].
    cbn [utf8_decode]. rewrite H1. cbn [utf8_decode app]. rewrite H2.
    cbn [app]. do 3 f_equal.
    apply (IH (List.length rest2)); simpl in *; try lia; easy. }
  destruct (in_range 240 244 b) eqn:R4; [| discriminate].
  destruct rest as [| b1 [| b2 [| b3 rest3]]]; try discriminate.
  apply andb_true_iff in Hv as [Hv Hr]. apply andb_true_iff in Hv as [Hv H3].
  apply andb_true_iff in Hv as [H1 H2].
  cbn [utf8_decode]. rewrite H1. cbn [utf8_decode app]. rewrite H2.
  cbn [utf8_decode app]. rewrite H3. cbn [app]. do 4 f_equal.
  apply (IH (List.length rest3)); simpl in *; try lia; easy.
Qed.

Lemma strip_BOM_none bytes : starts_with_BOM bytes = false -> strip_BOM bytes = bytes.
Proof.
  unfold starts_with_BOM, strip_BOM.
  destruct bytes as [| b0 rest]; [reflexivity |]. destruct b0; try reflexivity.
  destruct rest as [| b1 rest]; [reflexivity |]. destruct b1; try reflexivity.
  destruct rest as [| b2 rest]; [reflexivity |]. destruct b2; try reflexivity.
  discriminate.
Qed.

(** The decoder drops the U+FEFF at the head of a well-formed text and
    nothing else. *)
Lemma decoded_well_formed s : well_formed s -> decoded s = without_BOM s.
Proof.
  intros Hv. unfold decoded, TextDecoder_decode, TextEncoder_encode, without_BOM.
  now rewrite (utf8_decode_valid _ Hv).
Qed.

Lemma decode_encode s : plain_text s -> TextDecoder_decode (TextEncoder_encode s) = s.
Proof.
  intros [Hv Hb]. fold (decoded s). rewrite (decoded_well_formed s Hv).
  unfold without_BOM. rewrite (strip_BOM_none _ Hb).
  apply string_of_list_byte_of_string.
Qed.






















(** A text that [JSON.parse] reads is decoded as it was encoded. *)
Lemma decode_parsed `{Platform} s v :
  JSON_parse s = Some v -> TextDecoder_decode (TextEncoder_encode s) = s.
Proof. intros E. apply decode_encode. eapply JSON_parse_text. exact E. Qed.

Section PasswordFacts.
Context `{Platform}.

Lemma Uint8Array_from_Array_from bs :
  Uint8Array_from (Some (Array_from bs)) = bs.
Proof.
  unfold Uint8Array_from, Array_from.
  induction bs as [| b bs IH]; simpl; [reflexivity |].
  rewrite byte_of_Z_of_byte. f_equal. exact IH.
Qed.

Lemma encryptData_eq data key w :
  encryptData data key w =
    (Ok (envelope (fresh_iv w)
           (aes_gcm_encrypt key (fresh_iv w) (TextEncoder_encode data))),
     set_tick (tick w + 12)%N w).
Proof. reflexivity. Qed.

Lemma decryptData_envelope iv data key w :
  decryptData (envelope iv data) key w =
    match aes_gcm_decrypt key iv data with
    | Some decrypted => (Ok (TextDecoder_decode decrypted), w)
    | None => (Throw (HostError OperationError), w)
    end.
Proof.
  unfold decryptData. rewrite try_rethrow. unfold envelope, bind, prop, ret. simpl.
  pose proof Uint8Array_from_Array_from as E.
  unfold Uint8Array_from, Array_from in E. rewrite !E.
  now destruct (aes_gcm_decrypt key iv data).
Qed.

End PasswordFacts.

(** ** Encryption envelope *)

Section EnvelopeRoundTrip.
Context `{Platform}.

Lemma generateKeyFromSeedBytes_ok seed w :
  (64 <= List.length seed)%nat ->
  exists keys,
    generateKeyFromSeedBytes seed w = (Ok keys, w)
    /\ encryptionKey keys = firstn 32 seed.
Proof.
  intros Hlen. unfold generateKeyFromSeedBytes.
  destruct (List.length seed <? 64)%nat eqn:E.
  - apply Nat.ltb_lt in E. lia.
  - eexists. split; reflexivity.
Qed.

End EnvelopeRoundTrip.

(** C1 (as the code has it). For every key [k] and every well-formed
    plaintext [p], [encryptData(p, k)] returns an envelope [{iv, data}] and
    [decryptData] of that envelope under [k] returns, in any later world,
    [p] without the U+FEFF at its head, if it has one: so [p] itself
    exactly for the plaintexts that do not begin with U+FEFF. In
    particular the key of a valid mnemonic is derived (from the first 32
    bytes of its seed) and round-trips these plaintexts. *)
Theorem encryptData_decryptData_roundtrip `{Platform} :
  aes_gcm_sound ->
  bip39_seed_length ->
  forall (p : string) (w : World),
    well_formed p ->
    (forall k : list byte,
        exists e w',
          encryptData p k w = (Ok e, w')
          /\ e = envelope (fresh_iv w)
                   (aes_gcm_encrypt k (fresh_iv w) (TextEncoder_encode p))
          /\ (forall w2, decryptData e k w2 = (Ok (without_BOM p), w2))
          /\ (starts_with_BOM (list_byte_of_string p) = false ->
              forall w2, decryptData e k w2 = (Ok p, w2)))
    /\ (forall m : string,
          validateMnemonic m = true ->
          starts_with_BOM (list_byte_of_string p) = false ->
          exists keys e w',
            generateKeyFromSeedBytes (mnemonicToSeed m) w = (Ok keys, w)
            /\ encryptData p (encryptionKey keys) w = (Ok e, w')
            /\ forall w2, decryptData e (encryptionKey keys) w2 = (Ok p, w2)).
Proof.
  intros sound seed64 p w Hp.
  assert (G : forall k, exists e w',
             encryptData p k w = (Ok e, w')
             /\ e = envelope (fresh_iv w)
                      (aes_gcm_encrypt k (fresh_iv w) (TextEncoder_encode p))
             /\ (forall w2, decryptData e k w2 = (Ok (without_BOM p), w2))
             /\ (starts_with_BOM (list_byte_of_string p) = false ->
                 forall w2, decryptData e k w2 = (Ok p, w2))).
  { intros k. eexists _, _. split; [apply encryptData_eq |]. split; [reflexivity |].
    split.
    - intros w2. rewrite decryptData_envelope, sound.
      fold (decoded p). now rewrite (decoded_well_formed p Hp).
    - intros Hb w2. rewrite decryptData_envelope, sound.
      now rewrite (decode_encode p (conj Hp Hb)). }
  split; [exact G |].
  intros m _ Hb.
  destruct (generateKeyFromSeedBytes_ok (mnemonicToSeed m) w) as [keys [Hk _]].
  { rewrite seed64. lia. }
  destruct (G (encryptionKey keys)) as [e [w' [He [_ [_ Hd]]]]].
  exists keys, e, w'. split; [exact Hk |]. split; [exact He |]. now apply Hd.
Qed.

(** ** Session expiry *)

Section SessionFacts.

Lemma isSessionValid_spec w :
  isSessionValid w =
    match currentUserSession w with
    | None => (Ok false, w)
    | Some s =>
        if negb (isActive s) then (Ok false, w)
        else if sessionTimeout w <? clock w (tick w) - timestamp s
             then (Ok false, set_key None (set_session None (set_tick (N.succ (tick w)) w)))
             else (Ok true, set_tick (N.succ (tick w)) w)
    end.
Proof.
  unfold isSessionValid, bind, get_world. simpl.
  destruct (currentUserSession w) as [s |]; [| reflexivity].
  destruct (isActive s); simpl; [| reflexivity].
  unfold Date_now. simpl.
  now destruct (sessionTimeout w <? clock w (tick w) - timestamp s).
Qed.

Lemma Background_isSessionValid_eq : Background.isSessionValid = isSessionValid.
Proof. reflexivity. Qed.

Lemma getCurrentSession_none w :
  currentUserSession w = None -> getCurrentSession w = (Ok VNull, w).
Proof. intros E. unfold getCurrentSession, bind, get_world. simpl. now rewrite E. Qed.

End SessionFacts.

(** C3 (as the code has it). A session is reported valid exactly when it
    exists, is active and [now - t <= T]: the check compares with [>], so
    at [now - t = T] the session is still valid. When the elapsed time
    exceeds [T] the check returns false and, in the same step, clears the
    session and the cached storage key, so that [getCurrentSession()]
    returns null afterwards. The background script has the same check. *)
Theorem isSessionValid_lazy_expiry (w : World) :
  (fst (isSessionValid w) = Ok true <->
     exists s, currentUserSession w = Some s
               /\ isActive s = true
               /\ clock w (tick w) - timestamp s <= sessionTimeout w)
  /\ (forall s,
        currentUserSession w = Some s ->
        isActive s = true ->
        sessionTimeout w < clock w (tick w) - timestamp s ->
        fst (isSessionValid w) = Ok false
        /\ currentUserSession (snd (isSessionValid w)) = None
        /\ currentStorageKey (snd (isSessionValid w)) = None
        /\ fst (getCurrentSession (snd (isSessionValid w))) = Ok VNull)
  /\ Background.isSessionValid w = isSessionValid w.
Proof.
  rewrite isSessionValid_spec. split; [| split].
  - split.
    + destruct (currentUserSession w) as [s |]; [| discriminate].
      destruct (isActive s) eqn:Ea; simpl; [| discriminate].
      destruct (sessionTimeout w <? clock w (tick w) - timestamp s) eqn:Et;
        [discriminate |].
      intros _. exists s. apply Z.ltb_ge in Et. auto.
    + intros [s [Es [Ea Et]]]. rewrite Es, Ea. simpl.
      apply Z.ltb_ge in Et. now rewrite Et.
  - intros s Es Ea Et. rewrite Es, Ea. simpl.
    apply Z.ltb_lt in Et. rewrite Et. simpl.
    repeat split.
  - now rewrite <- isSessionValid_spec.
Qed.

(** At an elapsed time of exactly the timeout the check answers true and
    keeps the session: the session is not invalid "whenever the elapsed
    time reaches" the timeout. *)
Lemma isSessionValid_at_timeout :
  let w := Reference.unlocked (1700000000000 - 30 * 60 * 1000) in
  clock w (tick w) - (1700000000000 - 30 * 60 * 1000) = sessionTimeout w
  /\ fst (isSessionValid w) = Ok true
  /\ currentUserSession (snd (isSessionValid w)) = currentUserSession w
  /\ currentUserSession w <> None.
Proof. vm_compute. repeat split; congruence. Qed.

Lemma isSessionValid_lazy_expiry_witness :
  let w := Reference.unlocked 0 in
  fst (isSessionValid w) = Ok false
  /\ currentUserSession (snd (isSessionValid w)) = None
  /\ currentStorageKey (snd (isSessionValid w)) = None
  /\ fst (getCurrentSession (snd (isSessionValid w))) = Ok VNull.
Proof.
  intros w.
  apply (proj1 (proj2 (isSessionValid_lazy_expiry w))
           {| seedPhrase := Reference.mnemonic; timestamp := 0; isActive := true |}).
  - reflexivity.
  - reflexivity.
  - vm_compute. reflexivity.
Defined.

(** ** Secure storage wrapper *)

Lemma same_state_refl w : same_state w w.
Proof. repeat split. Qed.

Lemma same_state_trans w1 w2 w3 :
  same_state w1 w2 -> same_state w2 w3 -> same_state w1 w3.
Proof. unfold same_state. intuition congruence. Qed.

Lemma same_state_tick t w : same_state w (set_tick t w).
Proof. repeat split. Qed.

Section StorageFacts.
Context `{Platform}.

Lemma encryptStorageData_eq data k w :
  encryptStorageData data k w =
    (Ok (storage_envelope k data (fresh_iv w) (clock w (tick w + 12)%N)),
     set_tick (N.succ (tick w + 12)) w).
Proof. destruct data; reflexivity. Qed.

Lemma includes_true_iff l key : includes l key = true <-> In key l.
Proof.
  unfold includes. rewrite existsb_exists. split.
  - intros [x [Hin Heq]]. apply String.eqb_eq in Heq. now subst.
  - intros Hin. exists key. split; [assumption | apply String.eqb_refl].
Qed.

Lemma set_entries k (l : list (string * value)) :
  forall (acc : gmap string value) w,
  exists acc' w',
    foldM (set_entry k) l acc w = (Ok acc', w')
    /\ same_state w w'
    /\ (forall key, ~ In key (map fst l) -> acc' !! key = acc !! key)
    /\ (forall key, In key (map fst l) -> acc' !! key <> None)
    /\ (NoDup (map fst l) ->
        forall key v, In (key, v) l ->
          (includes skipEncryption key = true -> acc' !! key = Some v)
          /\ (includes skipEncryption key = false ->
              exists iv now, acc' !! key = Some (storage_envelope k v iv now))).
Proof.
  induction l as [| [key0 v0] l IH]; intros acc w.
  - exists acc, w. simpl. repeat split; tauto.
  - assert (Hstep : exists e w1,
               set_entry k acc (key0, v0) w = (Ok (<[key0 := e]> acc), w1)
               /\ same_state w w1
               /\ (includes skipEncryption key0 = true -> e = v0)
               /\ (includes skipEncryption key0 = false ->
                   exists iv now, e = storage_envelope k v0 iv now)).
    { unfold set_entry. destruct (includes skipEncryption key0) eqn:E.
      - exists v0, w. repeat split; try congruence.
      - unfold bind. rewrite encryptStorageData_eq. eexists _, _.
        split; [reflexivity |]. split; [apply same_state_tick |].
        split; [congruence |]. intros _. eauto. }
    destruct Hstep as [e [w1 [Hs [Hw1 [He1 He2]]]]].
    rewrite foldM_cons, (bind_ok _ _ _ _ _ Hs).
    destruct (IH (<[key0 := e]> acc) w1) as [acc' [w' [Hf [Hw' [Hout [Hin Hnd]]]]]].
    exists acc', w'. split; [exact Hf |].
    split; [eapply same_state_trans; eassumption |].
    split; [| split].
    + intros key Hk. simpl in Hk. rewrite Hout by tauto.
      apply lookup_insert_ne. tauto.
    + intros key [Hk | Hk]; simpl in *.
      * subst key0. destruct (in_dec string_dec key (map fst l)) as [Hi | Hi].
        -- now apply Hin.
        -- rewrite Hout by assumption. rewrite lookup_insert_eq. discriminate.
      * now apply Hin.
    + intros Hnodup key v Hkv. simpl in Hnodup.
      apply NoDup_cons in Hnodup as [Hnot Hnd']. rewrite list_elem_of_In in Hnot.
      destruct Hkv as [Hkv | Hkv].
      * injection Hkv as -> ->. rewrite Hout by exact Hnot.
        rewrite lookup_insert_eq. split.
        -- intros E. now rewrite He1.
        -- intros E. destruct (He2 E) as [iv [now ->]]. eauto.
      * now apply Hnd.
Qed.

Lemma secureStorageSet_items_eq items k :
  secureStorageSet_items items k =
    (let* encryptedItems := foldM (set_entry k) (map_to_list items) ∅ in
     ret (<["storageVersion" := VStr "1.0"]>
            (<["hasEncryptedStorage" := VBool true]> encryptedItems))).
Proof. reflexivity. Qed.

End StorageFacts.

Lemma secureStorageSet_items_spec `{Platform}
    (items : gmap string value) (storageKey : list byte) (w : World) :
  exists batch w',
    secureStorageSet_items items storageKey w = (Ok batch, w')
    /\ same_state w w'
    /\ batch !! "hasEncryptedStorage" = Some (VBool true)
    /\ batch !! "storageVersion" = Some (VStr "1.0")
    /\ (forall v, items !! "firstTimeSetup" = Some v ->
                  batch !! "firstTimeSetup" = Some v)
    /\ (forall key v,
          items !! key = Some v ->
          includes skipEncryption key = false ->
          exists iv now, batch !! key = Some (storage_envelope storageKey v iv now))
    /\ (forall key,
          batch !! key <> None ->
          key = "hasEncryptedStorage" \/ key = "storageVersion" \/ items !! key <> None).
Proof.
  destruct (set_entries storageKey (map_to_list items) ∅ w)
    as [acc [w' [Hf [Hw [Hout [Hin Hnd]]]]]].
  assert (Hdup : NoDup (map fst (map_to_list items))).
  { apply (NoDup_fst_map_to_list items). }
  specialize (Hnd Hdup).
  exists (<["storageVersion" := VStr "1.0"]> (<["hasEncryptedStorage" := VBool true]> acc)), w'.
  split; [| split; [exact Hw |]].
  { rewrite secureStorageSet_items_eq. unfold bind. now rewrite Hf. }
  split; [| split; [| split; [| split]]].
  - rewrite lookup_insert_ne by discriminate. apply lookup_insert_eq.
  - apply lookup_insert_eq.
  - intros v Hv. rewrite !lookup_insert_ne by discriminate.
    apply (Hnd "firstTimeSetup" v); [| reflexivity].
    apply list_elem_of_In. now apply elem_of_map_to_list.
  - intros key v Hv Hskip.
    assert (Hne : key <> "storageVersion" /\ key <> "hasEncryptedStorage").
    { split; intros ->; discriminate. }
    rewrite !lookup_insert_ne by (intros E; symmetry in E; tauto).
    apply (Hnd key v); [| assumption].
    apply list_elem_of_In. now apply elem_of_map_to_list.
  - intros key Hkey.
    destruct (string_dec key "hasEncryptedStorage") as [-> | N1]; [tauto |].
    destruct (string_dec key "storageVersion") as [-> | N2]; [tauto |].
    right; right. rewrite !lookup_insert_ne in Hkey by congruence.
    destruct (in_dec string_dec key (map fst (map_to_list items))) as [Hi | Hi].
    + apply in_map_iff in Hi. destruct Hi as [[k' v'] [Hk Hi]]. simpl in Hk. subst k'.
      apply list_elem_of_In, elem_of_map_to_list in Hi. congruence.
    + rewrite Hout in Hkey by assumption. now rewrite lookup_empty in Hkey.
Qed.

(** Once the batch is built, [secureStorageSet] is the write of the batch. *)
Lemma secureStorageSet_write `{Platform}
    (items : gmap string value) (storageKey : list byte) w batch w' :
  secureStorageSet_items items storageKey w = (Ok batch, w') ->
  secureStorageSet items storageKey w = chrome_storage_set batch w'.
Proof.
  intros Hitems. unfold secureStorageSet. rewrite try_rethrow.
  unfold bind. now rewrite Hitems.
Qed.

(** C5. With a storage key available, the object that [secureStorageSet]
    hands to [chrome.storage.local.set] holds, for every entry of the
    batch: the value itself when the key is [firstTimeSetup], and an
    encryption envelope of the value under the storage key when the key is
    outside the allowlist; it always holds [hasEncryptedStorage = true] and
    [storageVersion = '1.0'], whatever the caller supplied for those two
    keys, and nothing else. When the store accepts the write, these entries
    replace those of the store. *)
Theorem secureStorageSet_batch `{Platform}
    (items : gmap string value) (storageKey : list byte) (w : World) :
  exists batch w',
    secureStorageSet_items items storageKey w = (Ok batch, w')
    /\ same_state w w'
    /\ secureStorageSet items storageKey w = chrome_storage_set batch w'
    /\ (fault w' (tick w') = false ->
        fst (secureStorageSet items storageKey w) = Ok tt
        /\ storage (snd (secureStorageSet items storageKey w)) = batch ∪ storage w)
    /\ batch !! "hasEncryptedStorage" = Some (VBool true)
    /\ batch !! "storageVersion" = Some (VStr "1.0")
    /\ (forall v, items !! "firstTimeSetup" = Some v ->
                  batch !! "firstTimeSetup" = Some v)
    /\ (forall key v,
          items !! key = Some v ->
          includes skipEncryption key = false ->
          exists iv now, batch !! key = Some (storage_envelope storageKey v iv now))
    /\ (forall key,
          batch !! key <> None ->
          key = "hasEncryptedStorage" \/ key = "storageVersion" \/ items !! key <> None).
Proof.
  destruct (secureStorageSet_items_spec items storageKey w)
    as (batch & w' & Hitems & Hw & Hrest).
  pose proof (secureStorageSet_write items storageKey w batch w' Hitems) as Hset.
  exists batch, w'.
  split; [exact Hitems |]. split; [exact Hw |]. split; [exact Hset |].
  split; [| exact Hrest].
  intros Hfault. rewrite Hset. unfold chrome_storage_set. rewrite Hfault.
  cbn [fst snd storage set_storage].
  split; [reflexivity |]. destruct Hw as [-> _]. reflexivity.
Qed.

(** ** Migration *)

Lemma foldM_total {A B} (f : B -> A -> M B) :
  (forall b a w, exists b' w', f b a w = (Ok b', w') /\ same_state w w') ->
  forall l b w, exists b' w', foldM f l b w = (Ok b', w') /\ same_state w w'.
Proof.
  intros Hf. induction l as [| a l IH]; intros b w.
  - exists b, w. split; [reflexivity | apply same_state_refl].
  - destruct (Hf b a w) as [b1 [w1 [E1 S1]]].
    destruct (IH b1 w1) as [b2 [w2 [E2 S2]]].
    exists b2, w2. rewrite foldM_cons, (bind_ok _ _ _ _ _ E1).
    split; [exact E2 | eapply same_state_trans; eassumption].
Qed.

Section MigrationFacts.
Context `{Platform}.

Lemma migrate_entry_total k acc kv w :
  exists acc' w', migrate_entry k acc kv w = (Ok acc', w') /\ same_state w w'.
Proof.
  destruct kv as [key v]. unfold migrate_entry.
  destruct (includes skipEncryption key).
  - eexists _, _. split; [reflexivity | apply same_state_refl].
  - destruct v;
      try (unfold bind; rewrite encryptStorageData_eq; eexists _, _;
           split; [reflexivity | apply same_state_tick]).
    eexists _, _. split; [reflexivity | apply same_state_refl].
Qed.

Lemma migrate_unfold k :
  migrateToEncryptedStorage k =
    try_catch
      (let* allData := chrome_storage_get None in
       if marked allData then ret true
       else
         let* acc := foldM (migrate_entry k) (map_to_list allData) ∅ in
         chrome_storage_set
           (<["storageVersion" := VStr "1.0"]>
              (<["hasEncryptedStorage" := VBool true]> acc)) ;;
         ret true)
      (fun error =>
         throw (JsError ("Storage encryption migration failed: " +:+ message error))).
Proof. reflexivity. Qed.

Lemma migrate_eq k w :
  migrateToEncryptedStorage k w =
    let w0 := set_tick (N.succ (tick w)) w in
    if fault w (tick w) then
      (Throw (JsError ("Storage encryption migration failed: "
                       +:+ message (HostError LastError))), w0)
    else if marked (storage w) then (Ok true, w0)
    else
      match foldM (migrate_entry k) (map_to_list (storage w)) ∅ w0 with
      | (Ok acc, w1) =>
          let batch := <["storageVersion" := VStr "1.0"]>
                         (<["hasEncryptedStorage" := VBool true]> acc) in
          let w2 := set_tick (N.succ (tick w1)) w1 in
          if fault w1 (tick w1) then
            (Throw (JsError ("Storage encryption migration failed: "
                             +:+ message (HostError LastError))), w2)
          else (Ok true, set_storage (batch ∪ storage w1) w2)
      | (Throw e, w1) =>
          (Throw (JsError ("Storage encryption migration failed: " +:+ message e)), w1)
      end.
Proof.
  rewrite migrate_unfold. cbv zeta.
  destruct (fault w (tick w)) eqn:Ef.
  - erewrite try_catch_throw; [reflexivity |].
    apply bind_throw. unfold chrome_storage_get. now rewrite Ef.
  - assert (E0 : chrome_storage_get None w
                 = (Ok (storage w), set_tick (N.succ (tick w)) w)).
    { unfold chrome_storage_get. now rewrite Ef. }
    destruct (marked (storage w)) eqn:Em.
    + erewrite try_catch_ok; [reflexivity |].
      erewrite bind_ok by exact E0. cbv beta. now rewrite Em.
    + destruct (foldM (migrate_entry k) (map_to_list (storage w)) ∅
                  (set_tick (N.succ (tick w)) w)) as [[acc | e] w1] eqn:Efold.
      * destruct (fault w1 (tick w1)) eqn:Ef1.
        -- erewrite try_catch_throw; [reflexivity |].
           erewrite bind_ok by exact E0. cbv beta. rewrite Em.
           erewrite bind_ok by exact Efold.
           apply bind_throw. unfold chrome_storage_set. now rewrite Ef1.
        -- erewrite try_catch_ok; [reflexivity |].
           erewrite bind_ok by exact E0. cbv beta. rewrite Em.
           erewrite bind_ok by exact Efold.
           erewrite bind_ok; [reflexivity |].
           unfold chrome_storage_set. now rewrite Ef1.
      * erewrite try_catch_throw; [reflexivity |].
        erewrite bind_ok by exact E0. cbv beta. rewrite Em.
        now apply bind_throw.
Qed.

Lemma migrate_marked k w :
  marked (storage w) = true ->
  storage (snd (migrateToEncryptedStorage k w)) = storage w
  /\ (fault w (tick w) = false ->
      migrateToEncryptedStorage k w = (Ok true, set_tick (N.succ (tick w)) w)).
Proof.
  intros Hm. rewrite migrate_eq. simpl. rewrite Hm.
  destruct (fault w (tick w)); split; try reflexivity. discriminate.
Qed.

Lemma migrate_marks k w r w1 :
  migrateToEncryptedStorage k w = (Ok r, w1) ->
  r = true /\ marked (storage w1) = true.
Proof.
  rewrite migrate_eq. simpl.
  destruct (fault w (tick w)); [discriminate |].
  destruct (marked (storage w)) eqn:Hm.
  - intros E. injection E as <- <-. split; [reflexivity | exact Hm].
  - destruct (foldM_total (migrate_entry k) (migrate_entry_total k)
                (map_to_list (storage w)) ∅ (set_tick (N.succ (tick w)) w))
      as [acc [w' [Ef _]]].
    rewrite Ef. destruct (fault w' (tick w')); [discriminate |].
    intros E. injection E as <- <-. split; [reflexivity |].
    unfold marked. simpl.
    erewrite lookup_union_Some_l;
      [| rewrite lookup_insert_ne by discriminate; apply lookup_insert_eq].
    reflexivity.
Qed.

End MigrationFacts.

(** C6. [migrateToEncryptedStorage] is a no-op on a store whose
    [hasEncryptedStorage] marker is set: the store is left as it is and,
    when the store can be read, the call returns true. A call that returns
    leaves the marker set, so a second call in a row changes nothing:
    migrating twice leaves the store that migrating once leaves. *)
Theorem migrateToEncryptedStorage_idempotent `{Platform}
    (storageKey : list byte) (w : World) :
  (marked (storage w) = true ->
     storage (snd (migrateToEncryptedStorage storageKey w)) = storage w
     /\ (fault w (tick w) = false ->
         fst (migrateToEncryptedStorage storageKey w) = Ok true))
  /\ (forall r w1,
        migrateToEncryptedStorage storageKey w = (Ok r, w1) ->
        r = true
        /\ marked (storage w1) = true
        /\ storage (snd (migrateToEncryptedStorage storageKey w1)) = storage w1
        /\ (fault w1 (tick w1) = false ->
            fst (migrateToEncryptedStorage storageKey w1) = Ok true)).
Proof.
  split.
  - intros Hm. destruct (migrate_marked storageKey w Hm) as [Hs Hr].
    split; [exact Hs |]. intros Hf. now rewrite (Hr Hf).
  - intros r w1 E. destruct (migrate_marks storageKey w r w1 E) as [-> Hm].
    destruct (migrate_marked storageKey w1 Hm) as [Hs Hr].
    repeat split; try assumption. intros Hf. now rewrite (Hr Hf).
Qed.

(** ** Round trip of a stored value *)

Section StorageRoundTrip.
Context `{Platform}.

Lemma decryptStorageData_envelope k k' data iv now w :
  decryptStorageData (storage_envelope k data iv now) k' w =
    match aes_gcm_decrypt k' iv
            (aes_gcm_encrypt k iv (TextEncoder_encode (dataString data))) with
    | Some decrypted => (Ok (revive (TextDecoder_decode decrypted)), w)
    | None =>
        (Throw (JsError "Failed to decrypt storage data - possible corruption or wrong key"),
         w)
    end.
Proof.
  unfold decryptStorageData, storage_envelope, try_catch. simpl.
  pose proof Uint8Array_from_Array_from as E.
  unfold Uint8Array_from, Array_from in E. rewrite !E.
  destruct (aes_gcm_decrypt k' iv _) as [d |]; [| reflexivity].
  unfold revive. now destruct (JSON_parse (TextDecoder_decode d)).
Qed.

Lemma storage_roundtrip_revive :
  aes_gcm_sound ->
  forall k data iv now w,
    decryptStorageData (storage_envelope k data iv now) k w
    = (Ok (read_back data), w).
Proof.
  intros sound k data iv now w.
  now rewrite decryptStorageData_envelope, sound.
Qed.

Lemma read_back_text data :
  plain_text (dataString data) -> read_back data = revive (dataString data).
Proof. intros Ht. unfold read_back, decoded. now rewrite decode_encode. Qed.

Lemma read_back_parsed data v :
  JSON_parse (dataString data) = Some v -> read_back data = v.
Proof.
  intros E. unfold read_back, decoded. rewrite (decode_parsed _ _ E).
  unfold revive. now rewrite E.
Qed.

(** A value that is no string and that JSON reads back as it wrote it. *)
Lemma read_back_value v :
  (forall s, v <> VStr s) -> JSON_parse (JSON_stringify v) = Some v -> read_back v = v.
Proof.
  intros Hns E. apply read_back_parsed.
  destruct v; try exact E. now destruct (Hns s).
Qed.

End StorageRoundTrip.


(** ** Credential retrieval *)

Section RetrievalFacts.
Context `{Platform}.

Lemma decryptData_world e k w : snd (decryptData e k w) = w.
Proof.
  unfold decryptData. rewrite try_rethrow. unfold bind, prop.
  destruct e; simpl; try reflexivity;
    match goal with
    | |- context [aes_gcm_decrypt ?a ?b ?c] => destruct (aes_gcm_decrypt a b c)
    end; reflexivity.
Qed.

Lemma generateKeyFromSeedBytes_world seed w :
  snd (generateKeyFromSeedBytes seed w) = w.
Proof.
  unfold generateKeyFromSeedBytes. now destruct (List.length seed <? 64)%nat.
Qed.

Lemma pair_eta {A} (m : M A) w : m w = (fst (m w), snd (m w)).
Proof. now destruct (m w). Qed.

Lemma shape_array xs w :
  shape (VArr xs) w
  = (Ok (VObj [("credentials", VArr xs); ("walletSeeds", VArr [])]), w).
Proof. reflexivity. Qed.

Lemma shape_object fs w :
  shape (VObj fs) w =
    match if_truthy (assoc "credentials" fs) with
    | Some c =>
        (Ok (VObj [("credentials", c);
                   ("walletSeeds", or_empty (assoc "walletSeeds" fs))]), w)
    | None =>
        (Ok (VObj [("credentials", VArr [VObj fs]); ("walletSeeds", VArr [])]), w)
    end.
Proof.
  unfold shape, bind, prop. simpl.
  now destruct (if_truthy (assoc "credentials" fs)).
Qed.

(** [getCredentials] on a blob that decrypts and parses. *)
Lemma getCredentials_parsed seedPhrase w keys stored w1 blob text data :
  seedPhrase <> "" ->
  validateSeedPhrase seedPhrase = true ->
  fst (generateKeyFromSeedBytes (mnemonicToSeed seedPhrase) w) = Ok keys ->
  secureStorage_get ["credentials"; "backupCID"] w = (Ok stored, w1) ->
  if_truthy (stored !! "credentials") = Some blob ->
  fst (decryptData blob (encryptionKey keys) w1) = Ok text ->
  JSON_parse text = Some data ->
  getCredentials seedPhrase w =
    match shape data w1 with
    | (Ok r, w2) => (Ok r, w2)
    | (Throw e, w2) =>
        (Ok (empty_result (Some ("Failed to decrypt credentials: " +:+ message e))), w2)
    end.
Proof.
  intros Hne Hv Hk Hs Hb Hd Hp.
  assert (Ek : generateKeyFromSeedBytes (mnemonicToSeed seedPhrase) w = (Ok keys, w)).
  { rewrite (pair_eta (generateKeyFromSeedBytes _) w), Hk.
    now rewrite generateKeyFromSeedBytes_world. }
  assert (Ed : decryptData blob (encryptionKey keys) w1 = (Ok text, w1)).
  { rewrite (pair_eta (decryptData _ _) w1), Hd. now rewrite decryptData_world. }
  unfold getCredentials.
  apply String.eqb_neq in Hne. rewrite Hne, Hv. simpl negb. cbv iota.
  assert (Inner :
    try_catch
      (let* decrypted := decryptData blob (encryptionKey keys) in
       match JSON_parse decrypted with
       | None => throw (HostError SyntaxError)
       | Some data => shape data
       end)
      (fun decryptError =>
         ret (empty_result
                (Some ("Failed to decrypt credentials: " +:+ message decryptError)))) w1
    = match shape data w1 with
      | (Ok r, w2) => (Ok r, w2)
      | (Throw e, w2) =>
          (Ok (empty_result (Some ("Failed to decrypt credentials: " +:+ message e))), w2)
      end).
  { unfold try_catch. rewrite (bind_ok _ _ _ _ _ Ed), Hp.
    now destruct (shape data w1) as [[r | e] w2]. }
  assert (Mid :
    (let* keys := generateKeyFromSeedBytes (mnemonicToSeed seedPhrase) in
     let key := encryptionKey keys in
     let* stored := secureStorage_get ["credentials"; "backupCID"] in
     match if_truthy (stored !! "credentials") with
     | Some credentials =>
         try_catch
           (let* decrypted := decryptData credentials key in
            match JSON_parse decrypted with
            | None => throw (HostError SyntaxError)
            | Some data => shape data
            end)
           (fun decryptError =>
              ret (empty_result
                     (Some ("Failed to decrypt credentials: " +:+ message decryptError))))
     | None => ret (empty_result None)
     end) w
    = match shape data w1 with
      | (Ok r, w2) => (Ok r, w2)
      | (Throw e, w2) =>
          (Ok (empty_result (Some ("Failed to decrypt credentials: " +:+ message e))), w2)
      end).
  { rewrite (bind_ok _ _ _ _ _ Ek). cbv zeta. rewrite (bind_ok _ _ _ _ _ Hs), Hb.
    exact Inner. }
  destruct (shape data w1) as [[r | e] w2] eqn:Es.
  - erewrite try_catch_ok; [reflexivity |].
    erewrite try_catch_ok; [reflexivity |]. exact Mid.
  - erewrite try_catch_ok; [reflexivity |].
    erewrite try_catch_ok; [reflexivity |]. exact Mid.
Qed.

End RetrievalFacts.

(** C7 (as the code has it). When the stored blob decrypts and parses,
    [getCredentials] returns: for a bare array, [{credentials: the array,
    walletSeeds: []}]; for an object whose [credentials] field is truthy,
    [{credentials: that field, walletSeeds: the walletSeeds field or []}];
    for any other object, one whose [credentials] field is missing or falsy
    included, the object as a single record. *)
Theorem getCredentials_legacy_shapes `{Platform}
    (seedPhrase : string) (w w1 : World) (keys : KeyBundle)
    (stored : gmap string value) (blob : value) (text : string) (data : value) :
  seedPhrase <> "" ->
  validateSeedPhrase seedPhrase = true ->
  fst (generateKeyFromSeedBytes (mnemonicToSeed seedPhrase) w) = Ok keys ->
  secureStorage_get ["credentials"; "backupCID"] w = (Ok stored, w1) ->
  if_truthy (stored !! "credentials") = Some blob ->
  fst (decryptData blob (encryptionKey keys) w1) = Ok text ->
  JSON_parse text = Some data ->
  (forall xs,
      data = VArr xs ->
      getCredentials seedPhrase w
      = (Ok (VObj [("credentials", VArr xs); ("walletSeeds", VArr [])]), w1))
  /\ (forall fs c,
        data = VObj fs ->
        if_truthy (assoc "credentials" fs) = Some c ->
        getCredentials seedPhrase w
        = (Ok (VObj [("credentials", c);
                     ("walletSeeds", or_empty (assoc "walletSeeds" fs))]), w1))
  /\ (forall fs,
        data = VObj fs ->
        if_truthy (assoc "credentials" fs) = None ->
        getCredentials seedPhrase w
        = (Ok (VObj [("credentials", VArr [VObj fs]); ("walletSeeds", VArr [])]), w1)).
Proof.
  intros Hne Hv Hk Hs Hb Hd Hp.
  rewrite (getCredentials_parsed seedPhrase w keys stored w1 blob text data)
    by assumption.
  split; [| split].
  - intros xs ->. now rewrite shape_array.
  - intros fs c -> Hc. now rewrite shape_object, Hc.
  - intros fs -> Hc. now rewrite shape_object, Hc.
Qed.

(** ** What a computation leaves untouched *)

#[local] Instance same_state_preorder : PreOrder same_state.
Proof.
  split; [intros w; apply same_state_refl |].
  intros a b c. apply same_state_trans.
Qed.

#[local] Instance same_vars_preorder : PreOrder same_vars.
Proof. split; unfold same_vars; [intros w | intros a b c]; intuition congruence. Qed.

#[local] Instance same_host_preorder : PreOrder same_host.
Proof. split; unfold same_host; [intros w | intros a b c]; intuition congruence. Qed.

Lemma same_state_vars w w' : same_state w w' -> same_vars w w'.
Proof. unfold same_state, same_vars. tauto. Qed.

Lemma same_vars_host w w' : same_vars w w' -> same_host w w'.
Proof. unfold same_vars, same_host. tauto. Qed.

Section Keeps.
Context (R : World -> World -> Prop) `{!PreOrder R}.

Lemma keeps_ret {A} (a : A) : keeps R (ret a).
Proof. intros w. reflexivity. Qed.

Lemma keeps_throw {A} e : keeps R (@throw A e).
Proof. intros w. reflexivity. Qed.

Lemma keeps_get_world : keeps R get_world.
Proof. intros w. reflexivity. Qed.

Lemma keeps_bind {A B} (m : M A) (f : A -> M B) :
  keeps R m -> (forall a, keeps R (f a)) -> keeps R (bind m f).
Proof.
  intros Hm Hf w. unfold bind. specialize (Hm w).
  destruct (m w) as [[a | e] w1]; simpl in *; [| exact Hm].
  etransitivity; [exact Hm | apply Hf].
Qed.

Lemma keeps_try_catch {A} (m : M A) h :
  keeps R m -> (forall e, keeps R (h e)) -> keeps R (try_catch m h).
Proof.
  intros Hm Hh w. unfold try_catch. specialize (Hm w).
  destruct (m w) as [[a | e] w1]; simpl in *; [exact Hm |].
  etransitivity; [exact Hm | apply Hh].
Qed.

Lemma keeps_foldM {A B} (f : B -> A -> M B) l :
  (forall b a, keeps R (f b a)) -> forall b, keeps R (foldM f l b).
Proof.
  intros Hf. induction l as [| a l IH]; intros b.
  - apply keeps_ret.
  - rewrite foldM_cons. apply keeps_bind; [apply Hf | apply IH].
Qed.

Lemma keeps_filterM {A} (f : A -> M bool) l :
  (forall a, keeps R (f a)) -> keeps R (filterM f l).
Proof.
  intros Hf. induction l as [| a l IH]; simpl.
  - apply keeps_ret.
  - apply keeps_bind; [apply Hf |]. intros keep.
    apply keeps_bind; [apply IH |]. intros rest. apply keeps_ret.
Qed.

End Keeps.

Lemma keeps_weaken {A} (R R' : World -> World -> Prop) (m : M A) :
  (forall w w', R w w' -> R' w w') -> keeps R m -> keeps R' m.
Proof. intros HR Hm w. apply HR, Hm. Qed.

Lemma keeps_Date_now : keeps same_state Date_now.
Proof. intros w. apply same_state_tick. Qed.

Lemma keeps_getRandomValues n : keeps same_state (getRandomValues n).
Proof. intros w. apply same_state_tick. Qed.

Lemma keeps_chrome_storage_get keys : keeps same_state (chrome_storage_get keys).
Proof.
  intros w. unfold chrome_storage_get.
  destruct (fault w (tick w)); apply same_state_tick.
Qed.

Lemma keeps_chrome_storage_set items : keeps same_vars (chrome_storage_set items).
Proof.
  intros w. unfold chrome_storage_set.
  destruct (fault w (tick w)); repeat split.
Qed.

Lemma keeps_prop R `{!PreOrder R} v k : keeps R (prop v k).
Proof. destruct v; simpl; first [apply keeps_throw | apply keeps_ret]; assumption. Qed.

Lemma keeps_js_length R `{!PreOrder R} v : keeps R (js_length v).
Proof. destruct v; simpl; first [apply keeps_throw | apply keeps_ret]; assumption. Qed.

Lemma keeps_spread R `{!PreOrder R} v : keeps R (spread v).
Proof. destruct v; simpl; first [apply keeps_throw | apply keeps_ret]; assumption. Qed.

(** One step of a proof that a computation keeps a relation. *)
Ltac keeps_step :=
  lazymatch goal with
  | |- keeps _ (ret _) => apply keeps_ret; try typeclasses eauto
  | |- keeps _ (throw _) => apply keeps_throw; try typeclasses eauto
  | |- keeps _ get_world => apply keeps_get_world; try typeclasses eauto
  | |- keeps _ (bind _ _) => apply keeps_bind; [try typeclasses eauto | | intros ?]
  | |- keeps _ (try_catch _ _) =>
      apply keeps_try_catch; [try typeclasses eauto | | intros ?]
  | |- keeps _ (foldM _ _ _) =>
      apply keeps_foldM; [try typeclasses eauto | intros ? [? ?]]
  | |- keeps _ (prop _ _) => apply keeps_prop; try typeclasses eauto
  | |- keeps _ (js_length _) => apply keeps_js_length; try typeclasses eauto
  | |- keeps _ (spread _) => apply keeps_spread; try typeclasses eauto
  | |- keeps _ (if ?c then _ else _) => destruct c
  | |- keeps _ (match ?x with _ => _ end) => destruct x
  | |- keeps same_state Date_now => apply keeps_Date_now
  | |- keeps same_state (getRandomValues _) => apply keeps_getRandomValues
  | |- keeps same_state (chrome_storage_get _) => apply keeps_chrome_storage_get
  | |- keeps same_vars (chrome_storage_set _) => apply keeps_chrome_storage_set
  | |- keeps same_vars _ =>
      apply (keeps_weaken same_state same_vars _ same_state_vars)
  | |- keeps same_host _ =>
      apply (keeps_weaken same_vars same_host _ same_vars_host)
  end.

Create HintDb keeps.

Ltac keeps_tac := repeat first [solve [eauto with keeps] | keeps_step].

Section KeepsFunctions.
Context `{Platform}.

Lemma keeps_encryptData data k : keeps same_state (encryptData data k).
Proof. unfold encryptData. keeps_tac. Qed.

Lemma keeps_decryptData e k : keeps same_state (decryptData e k).
Proof. unfold decryptData. keeps_tac. Qed.

Lemma keeps_generateKeyFromSeedBytes seed :
  keeps same_state (generateKeyFromSeedBytes seed).
Proof. unfold generateKeyFromSeedBytes. keeps_tac. Qed.

Lemma keeps_generateStorageEncryptionKey s :
  keeps same_state (generateStorageEncryptionKey s).
Proof. unfold generateStorageEncryptionKey. keeps_tac. Qed.

Lemma keeps_encryptStorageData v k : keeps same_state (encryptStorageData v k).
Proof. unfold encryptStorageData. keeps_tac. Qed.

Lemma keeps_decryptStorageData v k : keeps same_state (decryptStorageData v k).
Proof. unfold decryptStorageData. keeps_tac. Qed.

#[local] Hint Resolve keeps_encryptData keeps_decryptData
  keeps_generateKeyFromSeedBytes keeps_generateStorageEncryptionKey
  keeps_encryptStorageData keeps_decryptStorageData : keeps.

Lemma keeps_secureStorageSet items k : keeps same_vars (secureStorageSet items k).
Proof. unfold secureStorageSet, secureStorageSet_items. keeps_tac. Qed.

Lemma keeps_secureStorageGet keys k : keeps same_state (secureStorageGet keys k).
Proof. unfold secureStorageGet. keeps_tac. Qed.

Lemma keeps_migrate k : keeps same_vars (migrateToEncryptedStorage k).
Proof. unfold migrateToEncryptedStorage. keeps_tac. Qed.

Lemma keeps_verifyStorageEncryption k : keeps same_state (verifyStorageEncryption k).
Proof. unfold verifyStorageEncryption. keeps_tac. Qed.

End KeepsFunctions.

#[global] Hint Resolve keeps_encryptData keeps_decryptData
  keeps_generateKeyFromSeedBytes keeps_generateStorageEncryptionKey
  keeps_encryptStorageData keeps_decryptStorageData
  keeps_secureStorageSet keeps_secureStorageGet keeps_migrate
  keeps_verifyStorageEncryption : keeps.

(** ** Reading back what the secure storage wrote *)

Section ReadBack.
Context `{Platform}.
Hypothesis sound : aes_gcm_sound.

Lemma get_entries k (l : list (string * value)) :
  (forall key v, In (key, v) l ->
     includes skipEncryption key = false
     /\ exists data iv now, v = storage_envelope k data iv now) ->
  NoDup (map fst l) ->
  forall (acc : gmap string value) w,
  exists acc',
    foldM (get_entry k) l acc w = (Ok acc', w)
    /\ (forall key, ~ In key (map fst l) -> acc' !! key = acc !! key)
    /\ (forall key data iv now,
          In (key, storage_envelope k data iv now) l ->
          acc' !! key = Some (read_back data)).
Proof.
  induction l as [| [key0 v0] l IH]; intros Hall Hnd acc w.
  - exists acc. simpl. repeat split; tauto.
  - apply NoDup_cons in Hnd as [Hnot Hnd]. rewrite list_elem_of_In in Hnot.
    destruct (Hall key0 v0 (or_introl eq_refl)) as [Hskip [data0 [iv0 [now0 ->]]]].
    assert (Hstep : get_entry k acc (key0, storage_envelope k data0 iv0 now0) w
                    = (Ok (<[key0 := read_back data0]> acc), w)).
    { unfold get_entry. rewrite Hskip. unfold bind.
      now rewrite (storage_roundtrip_revive sound). }
    destruct (IH (fun key v Hin => Hall key v (or_intror Hin)) Hnd
                (<[key0 := read_back data0]> acc) w)
      as [acc' [Hf [Hout Hin]]].
    exists acc'. rewrite foldM_cons, (bind_ok _ _ _ _ _ Hstep).
    split; [exact Hf |]. split.
    + intros key Hk. simpl in Hk. rewrite Hout by tauto.
      apply lookup_insert_ne. tauto.
    + intros key data iv now [Hkv | Hkv].
      * pose proof (f_equal fst Hkv) as Hk. pose proof (f_equal snd Hkv) as Hv.
        cbn [fst snd] in Hk, Hv. subst key. rewrite Hout by exact Hnot.
        rewrite lookup_insert_eq. f_equal.
        (* the envelope determines the text it was made from *)
        assert (Hd : read_back data = read_back data0).
        { pose proof (storage_roundtrip_revive sound k data iv now w) as E1.
          pose proof (storage_roundtrip_revive sound k data0 iv0 now0 w) as E2.
          rewrite <- Hv in E1. rewrite E1 in E2. congruence. }
        now rewrite Hd.
      * exact (Hin key data iv now Hkv).
Qed.

Lemma lookup_restrict keys (s : gmap string value) key :
  restrict keys s !! key = if bool_decide (key ∈ keys) then s !! key else None.
Proof.
  unfold restrict. destruct (s !! key) as [v |] eqn:E.
  - destruct (bool_decide (key ∈ keys)) eqn:Ek.
    + apply map_lookup_filter_Some. split; [exact E |]. simpl. now rewrite Ek.
    + apply map_lookup_filter_None. right. intros v' Hv' Hp.
      simpl in Hp. now rewrite Ek in Hp.
  - assert (N : filter (fun kv : string * value => bool_decide (kv.1 ∈ keys)) s !! key
                = None).
    { apply map_lookup_filter_None. left. exact E. }
    rewrite N. now destruct (bool_decide (key ∈ keys)).
Qed.

Lemma secureStorageGet_spec k keys w :
  fault w (tick w) = false ->
  (forall key v, In key keys -> storage w !! key = Some v ->
     includes skipEncryption key = false
     /\ exists data iv now, v = storage_envelope k data iv now) ->
  exists result,
    secureStorageGet keys k w = (Ok result, set_tick (N.succ (tick w)) w)
    /\ (forall key data iv now,
          In key keys ->
          storage w !! key = Some (storage_envelope k data iv now) ->
          result !! key = Some (read_back data))
    /\ (forall key, storage w !! key = None -> result !! key = None).
Proof.
  intros Hf Hall.
  set (w0 := set_tick (N.succ (tick w)) w).
  set (l := map_to_list (restrict keys (storage w))).
  assert (Hl : forall key v, In (key, v) l <->
                 storage w !! key = Some v /\ In key keys).
  { intros key v. unfold l. rewrite <- list_elem_of_In, elem_of_map_to_list.
    rewrite lookup_restrict. destruct (bool_decide (key ∈ keys)) eqn:Ek.
    - apply bool_decide_eq_true in Ek. rewrite list_elem_of_In in Ek. tauto.
    - apply bool_decide_eq_false in Ek. rewrite list_elem_of_In in Ek.
      split; [discriminate | tauto]. }
  destruct (get_entries k l) with (acc := (∅ : gmap string value)) (w := w0)
    as [acc' [Hfold [Hout Hin]]].
  { intros key v Hkv. apply Hl in Hkv as [Hs Hk]. now apply Hall. }
  { apply (NoDup_fst_map_to_list (restrict keys (storage w))). }
  exists acc'. split; [| split].
  - unfold secureStorageGet. rewrite try_rethrow.
    assert (E0 : chrome_storage_get (Some keys) w
                 = (Ok (restrict keys (storage w)), w0)).
    { unfold chrome_storage_get. now rewrite Hf. }
    rewrite (bind_ok _ _ _ _ _ E0). rewrite try_rethrow. exact Hfold.
  - intros key data iv now Hk Hs. apply (Hin key data iv now). apply Hl. tauto.
  - intros key Hs. rewrite Hout; [apply lookup_empty |].
    intros Hk. apply in_map_iff in Hk as [[k' v'] [Hk Hi]]. simpl in Hk. subst k'.
    apply Hl in Hi as [Hi _]. congruence.
Qed.

End ReadBack.

(** ** The PIN vault *)

Lemma keeps_run {A} R (m : M A) w r w' : keeps R m -> m w = (r, w') -> R w w'.
Proof. intros Hk E. specialize (Hk w). now rewrite E in Hk. Qed.

Lemma try_catch_inv {A} (m : M A) h w r w1 :
  try_catch m h w = (Ok r, w1) ->
  m w = (Ok r, w1) \/ exists e w', m w = (Throw e, w') /\ h e w' = (Ok r, w1).
Proof.
  unfold try_catch. destruct (m w) as [[a | e] w'] eqn:E; intros Hr.
  - now left.
  - right. now exists e, w'.
Qed.

Lemma bind_get_world {A} (f : World -> M A) w : bind get_world f w = f w w.
Proof. reflexivity. Qed.

Lemma bind_modify {A} g (f : unit -> M A) w : bind (modify g) f w = f tt (g w).
Proof. reflexivity. Qed.

Section PinVault.
Context `{Platform}.

Lemma generateKeyFromSeedBytes_inv seed w keys w1 :
  generateKeyFromSeedBytes seed w = (Ok keys, w1) ->
  (64 <= List.length seed)%nat /\ encryptionKey keys = firstn 32 seed /\ w1 = w.
Proof.
  unfold generateKeyFromSeedBytes.
  destruct (List.length seed <? 64)%nat eqn:E; [discriminate |].
  intros Hr. injection Hr as <- <-. apply Nat.ltb_ge in E. auto.
Qed.

Lemma initializeStorageEncryption_inv s w b w1 :
  initializeStorageEncryption s w = (Ok b, w1) ->
  (exists sk, currentStorageKey w1 = Some sk)
  /\ same_host w w1 /\ currentUserSession w1 = currentUserSession w.
Proof.
  unfold initializeStorageEncryption. intros Hr.
  apply try_catch_inv in Hr as [Hr | [e [w' [_ Hh]]]]; [| discriminate Hh].
  apply bind_inv in Hr as [k [wa [Hgen Hr]]].
  pose proof (keeps_run _ _ _ _ _ (keeps_generateStorageEncryptionKey s) Hgen) as Sa.
  rewrite bind_modify in Hr.
  apply bind_inv in Hr as [v [wc [Hver Hr]]].
  pose proof (keeps_run _ _ _ _ _ (keeps_verifyStorageEncryption k) Hver) as Sc.
  destruct v; simpl in Hr; [| discriminate Hr].
  apply bind_inv in Hr as [v' [wd [Hmig Hr]]].
  pose proof (keeps_run _ _ _ _ _ (keeps_migrate k) Hmig) as Sd.
  injection Hr as _ <-.
  destruct Sa as (_ & Sa1 & Sa2 & Sa3 & Sa4 & Sa5 & Sa6 & Sa7).
  destruct Sc as (_ & Sc1 & Sc2 & Sc3 & Sc4 & Sc5 & Sc6 & Sc7).
  destruct Sd as (Sd1 & Sd2 & Sd3 & Sd4 & Sd5 & Sd6 & Sd7).
  simpl in *. split; [exists k; congruence |].
  split; [unfold same_host; repeat split; congruence | congruence].
Qed.

Lemma ensureStorageEncryption_inv s w u w1 :
  ensureStorageEncryption s w = (Ok u, w1) ->
  (exists sk, currentStorageKey w1 = Some sk)
  /\ same_host w w1 /\ currentUserSession w1 = currentUserSession w.
Proof.
  unfold ensureStorageEncryption. rewrite bind_get_world.
  destruct (currentStorageKey w) as [sk |] eqn:Ek.
  - intros Hr. injection Hr as _ <-. split; [eauto |].
    split; [reflexivity | reflexivity].
  - intros Hr. apply bind_inv in Hr as [b [wa [Hi Hr]]].
    injection Hr as _ <-. eapply initializeStorageEncryption_inv. exact Hi.
Qed.

Lemma ensureStorageEncryption_resident s w sk :
  currentStorageKey w = Some sk -> ensureStorageEncryption s w = (Ok tt, w).
Proof.
  intros Ek. unfold ensureStorageEncryption. rewrite bind_get_world. now rewrite Ek.
Qed.

Lemma secureStorage_set_resident items w sk :
  currentStorageKey w = Some sk -> secureStorage_set items w = secureStorageSet items sk w.
Proof. intros Ek. unfold secureStorage_set. rewrite bind_get_world. now rewrite Ek. Qed.

Lemma secureStorage_get_resident keys w sk :
  currentStorageKey w = Some sk -> secureStorage_get keys w = secureStorageGet keys sk w.
Proof. intros Ek. unfold secureStorage_get. rewrite bind_get_world. now rewrite Ek. Qed.

(** A write through the secure storage that returns has stored the
    envelopes of the values outside the allowlist. *)
Lemma secureStorageSet_inv items k w w1 :
  secureStorageSet items k w = (Ok tt, w1) ->
  same_vars w w1
  /\ (forall key v,
        items !! key = Some v ->
        includes skipEncryption key = false ->
        exists iv now, storage w1 !! key = Some (storage_envelope k v iv now))
  /\ (forall key,
        items !! key = None ->
        key <> "hasEncryptedStorage" -> key <> "storageVersion" ->
        storage w1 !! key = storage w !! key).
Proof.
  intros Hr.
  pose proof (keeps_run _ _ _ _ _ (keeps_secureStorageSet items k) Hr) as Sv.
  split; [exact Sv |].
  destruct (secureStorageSet_items_spec items k w)
    as (batch & w' & Hitems & Sw & _ & _ & _ & Henv & Honly).
  pose proof (secureStorageSet_write items k w batch w' Hitems) as Hset.
  rewrite Hset in Hr. unfold chrome_storage_set in Hr.
  destruct (fault w' (tick w')); [discriminate |].
  injection Hr as <-. simpl. destruct Sw as [-> _]. split.
  - intros key v Hv Hs. destruct (Henv key v Hv Hs) as [iv [now Hb]].
    exists iv, now. now apply lookup_union_Some_l.
  - intros key Hn N1 N2.
    assert (Hb : batch !! key = None).
    { destruct (batch !! key) eqn:E; [| reflexivity].
      destruct (Honly key) as [? | [? | ?]]; congruence. }
    now rewrite lookup_union_r.
Qed.

End PinVault.

Section AuthServicePin.
Context `{Platform}.

Lemma storePin_vault p m w :
  fst (storePin p m w) = Ok (VObj [("success", VBool true)]) ->
  let w1 := snd (storePin p m w) in
  pin_vault (pinKey p (encryptionIterations w1)) p m w1
  /\ same_host w w1.
Proof.
  intros Hs w1. subst w1.
  destruct (storePin p m w) as [r w1] eqn:Hr. simpl in Hs. subst r. simpl.
  unfold storePin in Hr.
  apply try_catch_inv in Hr as [Hr | [e [w' [_ Hh]]]]; [| discriminate Hh].
  apply bind_inv in Hr as [u [wa [Hens Hr]]].
  destruct (ensureStorageEncryption_inv _ _ _ _ Hens) as [[sk Hsk] [Ha _]].
  cbv zeta in Hr.
  apply bind_inv in Hr as [keys [wa' [Hgen Hr]]].
  apply generateKeyFromSeedBytes_inv in Hgen as [Hlen [Hkey ->]].
  cbv beta zeta in Hr.
  apply bind_inv in Hr as [ePin [wb [HeP Hr]]].
  rewrite encryptData_eq in HeP. injection HeP as <- <-.
  cbv beta in Hr. rewrite bind_get_world in Hr. cbv beta zeta in Hr.
  apply bind_inv in Hr as [eSeed [wc [HeS Hr]]].
  rewrite encryptData_eq in HeS. injection HeS as <- <-.
  cbv beta in Hr.
  apply bind_inv in Hr as [[] [wd [Hset Hr]]].
  injection Hr as <-.
  rewrite (secureStorage_set_resident _ _ sk) in Hset by exact Hsk.
  apply secureStorageSet_inv in Hset as [Sv [Henv _]].
  destruct Sv as (Sv1 & Sv2 & Sv3 & Sv4 & Sv5 & Sv6 & Sv7). simpl in *.
  destruct (Henv "pinCode" _ eq_refl eq_refl) as [ivs1 [n1 Hp]].
  destruct (Henv "encryptedSeedPhrase" _ eq_refl eq_refl) as [ivs2 [n2 He]].
  split.
  - split; [exact Hlen |].
    eexists sk, _, _, ivs1, ivs2, n1, n2.
    split; [congruence |]. split.
    + rewrite Hp. unfold seedKey. rewrite <- Hkey. reflexivity.
    + rewrite He. rewrite Sv4. reflexivity.
  - destruct Ha as (Ha1 & Ha2 & Ha3 & Ha4 & Ha5).
    unfold same_host. repeat split; congruence.
Qed.

Lemma if_truthy_envelope iv data :
  if_truthy (Some (envelope iv data)) = Some (envelope iv data).
Proof. reflexivity. Qed.

Lemma revive_envelope iv data :
  JSON_envelopes -> read_back (envelope iv data) = envelope iv data.
Proof. intros J. apply read_back_parsed. apply J. Qed.

(** Reading the two entries of the vault back. *)
Lemma read_vault pinK p m w :
  aes_gcm_sound -> JSON_envelopes ->
  pin_vault pinK p m w ->
  fault w (tick w) = false ->
  exists result iv1 iv2,
    secureStorage_get ["pinCode"; "encryptedSeedPhrase"] w
    = (Ok result, set_tick (N.succ (tick w)) w)
    /\ result !! "pinCode"
       = Some (envelope iv1 (aes_gcm_encrypt (seedKey m) iv1 (TextEncoder_encode p)))
    /\ result !! "encryptedSeedPhrase"
       = Some (envelope iv2 (aes_gcm_encrypt pinK iv2 (TextEncoder_encode m))).
Proof.
  intros sound J [Hlen (sk & iv1 & iv2 & ivs1 & ivs2 & n1 & n2 & Hsk & Hp & He)] Hf.
  destruct (secureStorageGet_spec sound sk ["pinCode"; "encryptedSeedPhrase"] w Hf)
    as [result [Hget [Hres _]]].
  { intros key v [<- | [<- | []]] Hv.
    - rewrite Hp in Hv. injection Hv as <-. split; [reflexivity | eauto].
    - rewrite He in Hv. injection Hv as <-. split; [reflexivity | eauto]. }
  exists result, iv1, iv2.
  rewrite (secureStorage_get_resident _ _ sk Hsk). split; [exact Hget |]. split.
  - erewrite Hres; [| simpl; tauto | exact Hp]. now rewrite revive_envelope.
  - erewrite Hres; [| simpl; tauto | exact He]. now rewrite revive_envelope.
Qed.

(** The mnemonic that the key of the PIN recovers from the vault. *)
Lemma recover_seedPhrase pinK m iv w :
  aes_gcm_sound ->
  try_catch
    (let* s := decryptData
                 (envelope iv (aes_gcm_encrypt pinK iv (TextEncoder_encode m))) pinK in
     ret (Some s))
    (fun _ => ret None) w
  = (Ok (Some (decoded m)), w).
Proof.
  intros sound. erewrite try_catch_ok; [reflexivity |].
  erewrite bind_ok; [reflexivity |].
  now rewrite decryptData_envelope, sound.
Qed.

Lemma recover_nothing pinK pinK' m iv w :
  (forall iv data, aes_gcm_decrypt pinK' iv (aes_gcm_encrypt pinK iv data) = None) ->
  try_catch
    (let* s := decryptData
                 (envelope iv (aes_gcm_encrypt pinK iv (TextEncoder_encode m))) pinK' in
     ret (Some s))
    (fun _ => ret None) w
  = (Ok None, w).
Proof.
  intros Hnone. erewrite try_catch_throw; [reflexivity |].
  apply bind_throw. now rewrite decryptData_envelope, Hnone.
Qed.

(** The second half of the check, once a phrase [m'] was recovered: the
    key of [m'] must open the stored PIN, and the PIN must be the
    candidate. *)
Lemma check_pin p c m m' iv w :
  aes_gcm_sound -> aes_gcm_authentic ->
  decoded p <> c ->
  exists r,
    (let* keys := generateKeyFromSeedBytes (mnemonicToSeed m') in
     let key := encryptionKey keys in
     let* decryptedPin :=
       decryptData (envelope iv (aes_gcm_encrypt (seedKey m) iv (TextEncoder_encode p)))
         key in
     if String.eqb decryptedPin c
     then
       createUserSession m' ;;
       ret (VObj [("verified", VBool true); ("seedPhrase", VStr m')])
     else
       ret (VObj [("verified", VBool false); ("error", VStr "Invalid PIN")])) w
    = (r, w)
    /\ (r = Ok (VObj [("verified", VBool false); ("error", VStr "Invalid PIN")])
        \/ exists e, r = Throw e).
Proof.
  intros sound auth Hne.
  destruct (generateKeyFromSeedBytes (mnemonicToSeed m') w) as [[keys | e] w1] eqn:Hk.
  - apply generateKeyFromSeedBytes_inv in Hk as Hk'. destruct Hk' as (_ & Hkey & ->).
    rewrite (bind_ok _ _ _ _ _ Hk). cbv zeta. rewrite Hkey.
    destruct (List.list_eq_dec byte_eq_dec (seedKey m) (firstn 32 (mnemonicToSeed m')))
      as [Heq | Hkne].
    + rewrite <- Heq.
      erewrite bind_ok; [| now rewrite decryptData_envelope, sound].
      fold (decoded p).
      assert (Hcmp : String.eqb (decoded p) c = false) by now apply String.eqb_neq.
      rewrite Hcmp. eexists. split; [reflexivity | now left].
    + eexists. split; [| right; eauto].
      apply bind_throw. rewrite decryptData_envelope, (auth _ _ _ _ Hkne). reflexivity.
  - assert (w1 = w) as ->.
    { pose proof (generateKeyFromSeedBytes_world (mnemonicToSeed m') w) as E.
      now rewrite Hk in E. }
    eexists. split; [apply bind_throw; exact Hk | right; eauto].
Qed.

Lemma verifyPin_right p m w :
  aes_gcm_sound -> JSON_envelopes ->
  plain_text p -> plain_text m ->
  pin_vault (pinKey p (encryptionIterations w)) p m w ->
  fault w (tick w) = false ->
  verifyPin p w
  = (Ok (VObj [("verified", VBool true); ("seedPhrase", VStr m)]),
     set_session (Some {| seedPhrase := m;
                          timestamp := clock w (N.succ (tick w));
                          isActive := true |})
       (set_tick (N.succ (N.succ (tick w))) w)).
Proof.
  intros sound J Tp Tm Hv Hf.
  destruct (read_vault _ p m w sound J Hv Hf) as (result & iv1 & iv2 & Hget & Hp & He).
  destruct Hv as [Hlen (sk & _ & _ & _ & _ & _ & _ & Hsk & _ & _)].
  set (w0 := set_tick (N.succ (tick w)) w) in *.
  destruct (generateKeyFromSeedBytes_ok (mnemonicToSeed m) w0 Hlen) as [keys [Hk Hkey]].
  unfold verifyPin. erewrite try_catch_ok; [reflexivity |].
  rewrite (bind_ok _ _ _ _ _ Hget). rewrite Hp, He, !if_truthy_envelope.
  rewrite bind_get_world.
  change (encryptionIterations w0) with (encryptionIterations w).
  rewrite (bind_ok _ _ _ _ _ (recover_seedPhrase _ m iv2 w0 sound)).
  unfold decoded. rewrite (decode_encode m Tm).
  rewrite (bind_ok _ _ _ _ _ (ensureStorageEncryption_resident m w0 sk Hsk)).
  rewrite (bind_ok _ _ _ _ _ Hk). cbv zeta. fold (seedKey m) in Hkey. rewrite Hkey.
  erewrite bind_ok; [| now rewrite decryptData_envelope, sound, (decode_encode p Tp)].
  rewrite String.eqb_refl. reflexivity.
Qed.

Lemma secureStorage_get_fault keys w sk :
  currentStorageKey w = Some sk ->
  fault w (tick w) = true ->
  secureStorage_get keys w
  = (Throw (HostError LastError), set_tick (N.succ (tick w)) w).
Proof.
  intros Hsk Hf. rewrite (secureStorage_get_resident _ _ sk Hsk).
  unfold secureStorageGet. rewrite try_rethrow.
  apply bind_throw. unfold chrome_storage_get. now rewrite Hf.
Qed.

(** A candidate is refused unless its key opens the mnemonic and the
    stored PIN, as it is decoded, is the candidate: either the key does
    not open the mnemonic, or the key of the recovered phrase does not
    open the stored PIN, or the stored PIN differs. *)
Lemma verifyPin_refused p c m w :
  aes_gcm_sound -> aes_gcm_authentic -> JSON_envelopes ->
  pin_vault (pinKey p (encryptionIterations w)) p m w ->
  (pinKey p (encryptionIterations w) = pinKey c (encryptionIterations w) ->
   decoded p <> c) ->
  exists error,
    verifyPin c w
    = (Ok (VObj [("verified", VBool false); ("error", VStr error)]),
       set_tick (N.succ (tick w)) w).
Proof.
  intros sound auth J Hv Hne.
  destruct (fault w (tick w)) eqn:Hf.
  - destruct Hv as [_ (sk & _ & _ & _ & _ & _ & _ & Hsk & _ & _)].
    eexists. unfold verifyPin. erewrite try_catch_throw; [reflexivity |].
    apply bind_throw. now apply secureStorage_get_fault with sk.
  - destruct (read_vault _ p m w sound J Hv Hf) as (result & iv1 & iv2 & Hget & Hp & He).
    destruct Hv as [Hlen (sk & _ & _ & _ & _ & _ & _ & Hsk & _ & _)].
    set (w0 := set_tick (N.succ (tick w)) w) in *.
    destruct (List.list_eq_dec byte_eq_dec (pinKey p (encryptionIterations w))
                (pinKey c (encryptionIterations w))) as [Heq | Hkne].
    + destruct (check_pin p c m (decoded m) iv1 w0 sound auth (Hne Heq))
        as (r & Hr & Hcase).
      unfold verifyPin.
      destruct Hcase as [-> | [e ->]].
      * exists "Invalid PIN". erewrite try_catch_ok; [reflexivity |].
        rewrite (bind_ok _ _ _ _ _ Hget). rewrite Hp, He, !if_truthy_envelope.
        rewrite bind_get_world.
        change (encryptionIterations w0) with (encryptionIterations w).
        rewrite <- Heq.
        rewrite (bind_ok _ _ _ _ _ (recover_seedPhrase _ m iv2 w0 sound)).
        rewrite (bind_ok _ _ _ _ _
                   (ensureStorageEncryption_resident (decoded m) w0 sk Hsk)).
        exact Hr.
      * exists (message e). erewrite try_catch_throw; [reflexivity |].
        rewrite (bind_ok _ _ _ _ _ Hget). rewrite Hp, He, !if_truthy_envelope.
        rewrite bind_get_world.
        change (encryptionIterations w0) with (encryptionIterations w).
        rewrite <- Heq.
        rewrite (bind_ok _ _ _ _ _ (recover_seedPhrase _ m iv2 w0 sound)).
        rewrite (bind_ok _ _ _ _ _
                   (ensureStorageEncryption_resident (decoded m) w0 sk Hsk)).
        exact Hr.
    + exists "Invalid PIN".
      unfold verifyPin. erewrite try_catch_ok; [reflexivity |].
      rewrite (bind_ok _ _ _ _ _ Hget). rewrite Hp, He, !if_truthy_envelope.
      rewrite bind_get_world.
      change (encryptionIterations w0) with (encryptionIterations w).
      now rewrite (bind_ok _ _ _ _ _
                     (recover_nothing _ _ m iv2 w0 (fun iv data => auth _ _ iv data Hkne))).
Qed.

(** For a stored PIN that is a plain text every other candidate is
    refused. *)
Lemma verifyPin_wrong p c m w :
  aes_gcm_sound -> aes_gcm_authentic -> JSON_envelopes ->
  plain_text p ->
  pin_vault (pinKey p (encryptionIterations w)) p m w ->
  c <> p ->
  exists error,
    verifyPin c w
    = (Ok (VObj [("verified", VBool false); ("error", VStr error)]),
       set_tick (N.succ (tick w)) w).
Proof.
  intros sound auth J Tp Hv Hne. apply (verifyPin_refused p c m w sound auth J Hv).
  intros _. unfold decoded. rewrite (decode_encode p Tp). congruence.
Qed.

End AuthServicePin.

Section BackgroundPin.
Context `{Platform}.

Lemma Background_ensure_eq s :
  Background.ensureStorageEncryption s = ensureStorageEncryption s.
Proof. reflexivity. Qed.

Lemma storePinCode_vault p m w :
  fst (Background.storePinCode p m w) = Ok true ->
  let w1 := snd (Background.storePinCode p m w) in
  pin_vault (Background.pinKey p) p m w1 /\ same_host w w1.
Proof.
  intros Hs w1. subst w1.
  destruct (Background.storePinCode p m w) as [r w1] eqn:Hr. simpl in Hs. subst r. simpl.
  unfold Background.storePinCode in Hr.
  apply try_catch_inv in Hr as [Hr | [e [w' [_ Hh]]]]; [| discriminate Hh].
  apply bind_inv in Hr as [u [wa [Hens Hr]]].
  rewrite Background_ensure_eq in Hens.
  destruct (ensureStorageEncryption_inv _ _ _ _ Hens) as [[sk Hsk] [Ha _]].
  cbv beta zeta in Hr.
  apply bind_inv in Hr as [keys [wa' [Hgen Hr]]].
  apply generateKeyFromSeedBytes_inv in Hgen as [Hlen [Hkey ->]].
  cbv beta zeta in Hr.
  apply bind_inv in Hr as [ePin [wb [HeP Hr]]].
  rewrite encryptData_eq in HeP. injection HeP as <- <-.
  cbv beta in Hr.
  apply bind_inv in Hr as [[] [wc [Hset1 Hr]]].
  rewrite (secureStorage_set_resident _ _ sk) in Hset1 by exact Hsk.
  apply secureStorageSet_inv in Hset1 as [Sv [Henv1 _]].
  cbv beta zeta in Hr.
  apply bind_inv in Hr as [eSeed [wd [HeS Hr]]].
  rewrite encryptData_eq in HeS. injection HeS as <- <-.
  cbv beta in Hr.
  apply bind_inv in Hr as [[] [we [Hset2 Hr]]].
  injection Hr as <-.
  destruct Sv as (Sv1 & Sv2 & Sv3 & Sv4 & Sv5 & Sv6 & Sv7). simpl in *.
  rewrite (secureStorage_set_resident _ _ sk) in Hset2 by (simpl; congruence).
  apply secureStorageSet_inv in Hset2 as [Sv' [Henv2 Hother]].
  destruct Sv' as (Sx1 & Sx2 & Sx3 & Sx4 & Sx5 & Sx6 & Sx7). simpl in *.
  destruct (Henv1 "pinCode" _ eq_refl eq_refl) as [ivs1 [n1 Hp]].
  destruct (Henv2 "encryptedSeedPhrase" _ eq_refl eq_refl) as [ivs2 [n2 He]].
  split.
  - split; [exact Hlen |].
    eexists sk, _, _, ivs1, ivs2, n1, n2.
    split; [congruence |]. split.
    + rewrite (Hother "pinCode") by (reflexivity || discriminate).
      rewrite Hp. unfold seedKey. rewrite <- Hkey. reflexivity.
    + rewrite He. reflexivity.
  - destruct Ha as (Ha1 & Ha2 & Ha3 & Ha4 & Ha5).
    unfold same_host. repeat split; congruence.
Qed.



End BackgroundPin.



(** ** Import *)

Section ImportFacts.
Context `{Platform}.

Lemma missing_eq v w :
  missing v w = (match missing_field v with
                 | Some b => Ok b
                 | None => Throw (HostError TypeError)
                 end, w).
Proof.
  unfold missing, missing_field.
  destruct (if_truthy v) as [[| | | | |] |]; reflexivity.
Qed.

Lemma is_valid_eq r w :
  is_valid r w = (match record_ok r with
                  | Some b => Ok b
                  | None => Throw (HostError TypeError)
                  end, w).
Proof.
  unfold is_valid, validateCredential, record_ok.
  destruct (negb (truthy r) || negb (typeof_object r)); [reflexivity |].
  assert (W : forall a b,
    (let* validation :=
       (let* errors :=
          (let* e1 := missing a in
           let* e2 := missing b in
           ret ((if e1 then ["Wallet name is required"] else [])
                ++ (if e2 then ["Wallet seed phrase is required"] else []))) in
        ret (VObj (("valid", VBool (List.length errors =? 0)%nat)
                   :: match errors with
                      | [] => []
                      | _ => [("errors", VArr (map VStr errors))]
                      end))) in
     ret (truthy_opt (field validation "valid"))) w
    = (match missing_field a, missing_field b with
       | Some e1, Some e2 => Ok (negb e1 && negb e2)
       | _, _ => Throw (HostError TypeError)
       end, w)).
  { intros a b. unfold bind. rewrite ?missing_eq.
    destruct (missing_field a) as [[|] |]; [| | reflexivity];
      rewrite ?missing_eq; destruct (missing_field b) as [[|] |]; reflexivity. }
  assert (L : forall a b c,
    (let* validation :=
       (let* errors :=
          (let* e1 := missing a in
           let* e2 := missing b in
           let* e3 := missing c in
           ret ((if e1 then ["Website is required"] else [])
                ++ (if e2 then ["Username is required"] else [])
                ++ (if e3 then ["Password is required"] else []))) in
        ret (VObj (("valid", VBool (List.length errors =? 0)%nat)
                   :: match errors with
                      | [] => []
                      | _ => [("errors", VArr (map VStr errors))]
                      end))) in
     ret (truthy_opt (field validation "valid"))) w
    = (match missing_field a, missing_field b, missing_field c with
       | Some e1, Some e2, Some e3 => Ok (negb e1 && negb e2 && negb e3)
       | _, _, _ => Throw (HostError TypeError)
       end, w)).
  { intros a b c. unfold bind. rewrite ?missing_eq.
    destruct (missing_field a) as [[|] |]; [| | reflexivity];
      rewrite ?missing_eq; (destruct (missing_field b) as [[|] |]; [| | reflexivity]);
      rewrite ?missing_eq; destruct (missing_field c) as [[|] |]; reflexivity. }
  destruct (strict_eq_string (field r "type") "wallet");
    [rewrite W | rewrite L];
    repeat match goal with
           | |- context [missing_field ?x] => destruct (missing_field x)
           end; reflexivity.
Qed.


End ImportFacts.

Lemma prop_defined v k w : v <> VNull -> prop v k w = (Ok (field v k), w).
Proof. intros Hn. destruct v; try reflexivity. now destruct Hn. Qed.


(** ** Storing under an unvalidated mnemonic *)

Lemma try_catch_swallow (m : M unit) w :
  exists w', try_catch m (fun _ => ret tt) w = (Ok tt, w').
Proof.
  unfold try_catch. destruct (m w) as [[[] | e] w']; eexists; reflexivity.
Qed.

Section Unvalidated.
Context `{Platform}.
Hypothesis seed64 : bip39_seed_length.

Lemma available_vars w w' : same_vars w w' -> available w -> available w'.
Proof. intros (_ & _ & _ & _ & _ & _ & Hf) Ha n. rewrite Hf. apply Ha. Qed.

Lemma secureStorage_set_available items w :
  available w ->
  exists w', secureStorage_set items w = (Ok tt, w') /\ same_vars w w'.
Proof.
  intros Ha. unfold secureStorage_set. rewrite bind_get_world.
  destruct (currentStorageKey w) as [k |].
  - destruct (secureStorageSet_items_spec items k w) as (batch & w' & Hitems & Sw & _).
    pose proof (secureStorageSet_write items k w batch w' Hitems) as Hset.
    assert (Hf : fault w' (tick w') = false).
    { destruct Sw as (_ & _ & _ & _ & _ & _ & _ & ->). apply Ha. }
    assert (Hr : fst (secureStorageSet items k w) = Ok tt).
    { rewrite Hset. unfold chrome_storage_set. now rewrite Hf. }
    exists (snd (secureStorageSet items k w)). split.
    + rewrite (pair_eta (secureStorageSet items k) w) at 1. now rewrite Hr.
    + apply keeps_secureStorageSet.
  - exists (snd (chrome_storage_set items w)). split.
    + unfold chrome_storage_set. now rewrite (Ha (tick w)).
    + apply keeps_chrome_storage_set.
Qed.

Lemma stamp_total (ts : option string) w :
  exists stamp w',
    (match ts with
     | Some t => if String.eqb t "" then
                   let* now := Date_now in ret (toISOString now)
                 else ret t
     | None => let* now := Date_now in ret (toISOString now)
     end) w = (Ok stamp, w')
    /\ same_state w w'.
Proof.
  destruct ts as [t |]; [destruct (String.eqb t "") |];
    eexists _, _; (split; [reflexivity |]);
    first [apply same_state_tick | apply same_state_refl].
Qed.

Lemma storeCredentials_retry_available attempts credentials m ts retryCount w :
  available w ->
  fst (storeCredentials_retry attempts credentials m ts retryCount w)
  = Ok (VObj [("success", VBool true)]).
Proof.
  intros Ha.
  destruct (generateKeyFromSeedBytes_ok (mnemonicToSeed m) w) as [keys [Hk _]].
  { rewrite seed64. lia. }
  destruct (stamp_total ts w) as (stamp & w1 & Hstamp & S1).
  pose proof (available_vars _ _ (same_state_vars _ _ S1) Ha) as Ha1.
  set (text := JSON_stringify
                 (VObj [("credentials", credentials); ("timestamp", VStr stamp)])).
  set (w2 := set_tick (tick w1 + 12)%N w1).
  assert (Ha2 : available w2) by exact Ha1.
  set (e := envelope (fresh_iv w1)
              (aes_gcm_encrypt (encryptionKey keys) (fresh_iv w1)
                 (TextEncoder_encode text))).
  destruct (secureStorage_set_available
              (list_to_map [("credentials", e); ("hasSeedPhrase", VBool true)]) w2 Ha2)
    as (w3 & Hset & S3).
  destruct (try_catch_swallow
              (let* n := js_length credentials in createBackupRecord n) w3)
    as [w4 Hbackup].
  destruct attempts; unfold storeCredentials_retry; fold storeCredentials_retry;
    (erewrite try_catch_ok; [reflexivity |]);
    rewrite (bind_ok _ _ _ _ _ Hk); cbv zeta;
    rewrite (bind_ok _ _ _ _ _ Hstamp);
    rewrite (bind_ok _ _ _ _ _ (encryptData_eq _ _ w1));
    (erewrite bind_ok;
     [| erewrite try_catch_ok; [reflexivity |];
        fold text; fold e; fold w2; now rewrite (bind_ok _ _ _ _ _ Hset)]);
    cbv iota; now rewrite (bind_ok _ _ _ _ _ Hbackup).
Qed.

Lemma Background_storeCredentials_retry_available
    attempts credentials m ts retryCount w :
  available w ->
  currentStorageKey w <> None ->
  credentials <> VNull ->
  fst (Background.storeCredentials_retry attempts credentials m ts retryCount w)
  = Ok true.
Proof.
  intros Ha Hkey Hc.
  destruct (currentStorageKey w) as [sk |] eqn:Hsk; [clear Hkey | now destruct Hkey].
  pose proof (ensureStorageEncryption_resident m w sk Hsk) as Hens.
  destruct (generateKeyFromSeedBytes_ok (mnemonicToSeed m) w) as [keys [Hk _]].
  { rewrite seed64. lia. }
  destruct (stamp_total ts w) as (stamp & w1 & Hstamp & S1).
  pose proof (available_vars _ _ (same_state_vars _ _ S1) Ha) as Ha1.
  assert (Hlen : exists n, js_length credentials w1 = (Ok n, w1)).
  { destruct credentials; try (eexists; reflexivity). now destruct Hc. }
  destruct Hlen as [n Hlen].
  set (text := JSON_stringify
                 (VObj [("credentials", credentials); ("timestamp", VStr stamp)])).
  set (w2 := set_tick (tick w1 + 12)%N w1).
  assert (Ha2 : available w2) by exact Ha1.
  set (e := envelope (fresh_iv w1)
              (aes_gcm_encrypt (encryptionKey keys) (fresh_iv w1)
                 (TextEncoder_encode text))).
  destruct (secureStorage_set_available
              (list_to_map [("credentials", e); ("hasSeedPhrase", VBool true)]) w2 Ha2)
    as (w3 & Hset & S3).
  destruct attempts;
    unfold Background.storeCredentials_retry; fold Background.storeCredentials_retry;
    match goal with
    | |- context [try_catch ?b (fun backupError => ret tt)] =>
        destruct (try_catch_swallow b w3) as [w4 Hbackup]
    end;
    (erewrite try_catch_ok; [reflexivity |]);
    rewrite (bind_ok _ _ _ _ _ Hens);
    rewrite (bind_ok _ _ _ _ _ Hk); cbv zeta;
    rewrite (bind_ok _ _ _ _ _ Hstamp);
    rewrite (bind_ok _ _ _ _ _ Hlen);
    rewrite (bind_ok _ _ _ _ _ (encryptData_eq _ _ w1));
    (erewrite bind_ok;
     [| erewrite try_catch_ok; [reflexivity |];
        fold text; fold e; fold w2; now rewrite (bind_ok _ _ _ _ _ Hset)]);
    cbv iota; now rewrite (bind_ok _ _ _ _ _ Hbackup).
Qed.

End Unvalidated.

(** C4 (what the code does). [storeCredentials] never consults
    [validateMnemonic]: with the store available it derives the key from
    the seed of any mnemonic, an invalid one included, encrypts the
    credentials under it and returns success. *)
Theorem storeCredentials_unvalidated `{Platform} :
  bip39_seed_length ->
  forall (credentials : value) (m : string) (w : World),
    validateMnemonic m = false ->
    (forall n, fault w n = false) ->
    fst (storeCredentials credentials m None 0 w) = Ok (VObj [("success", VBool true)])
    /\ (currentStorageKey w <> None ->
        credentials <> VNull ->
        fst (Background.storeCredentials credentials m None 0 w) = Ok true).
Proof.
  intros seed64 credentials m w _ Ha. split.
  - now apply storeCredentials_retry_available.
  - intros Hk Hc. now apply Background_storeCredentials_retry_available.
Qed.

(** ** Key bundle *)

Lemma append_String c s t : String c s +:+ t = String c (s +:+ t).
Proof. reflexivity. Qed.

Lemma append_empty_r s : s +:+ "" = s.
Proof. induction s as [| c s IH]; [reflexivity |]. now rewrite append_String, IH. Qed.

Lemma append_assoc s t u : (s +:+ t) +:+ u = s +:+ (t +:+ u).
Proof. induction s as [| c s IH]; [reflexivity |]. now rewrite !append_String, IH. Qed.

Lemma toHexString_fold bs acc :
  fold_left (fun str b => str +:+ hex_pair b) bs acc
  = acc +:+ fold_left (fun str b => str +:+ hex_pair b) bs "".
Proof.
  revert acc. induction bs as [| b bs IH]; intros acc; simpl.
  - now rewrite append_empty_r.
  - rewrite IH. rewrite (IH ("" +:+ hex_pair b)). now rewrite append_assoc.
Qed.

Lemma toHexString_cons b bs :
  toHexString (b :: bs) = hex_pair b +:+ toHexString bs.
Proof.
  unfold toHexString. simpl. fold (hex_pair b).
  change (fun (str : string) (b0 : byte) =>
            str +:+ String (hex_digit (Byte.to_N b0 / 16)%N)
                      (String (hex_digit (Byte.to_N b0 mod 16)%N) EmptyString))
    with (fun str b0 => str +:+ hex_pair b0).
  now rewrite toHexString_fold.
Qed.

Lemma toHexString_length bs :
  String.length (toHexString bs) = (2 * List.length bs)%nat.
Proof.
  induction bs as [| b bs IH]; [reflexivity |].
  rewrite toHexString_cons. unfold hex_pair. rewrite !append_String.
  change ("" +:+ toHexString bs) with (toHexString bs). simpl. rewrite IH. lia.
Qed.

Lemma hex_digit_inj a b :
  (a < 16)%N -> (b < 16)%N -> hex_digit a = hex_digit b -> a = b.
Proof.
  intros Ha Hb.
  assert (Ea : In a (map N.of_nat (seq 0 16))).
  { apply in_map_iff. exists (N.to_nat a). split; [lia |]. apply in_seq. lia. }
  assert (Eb : In b (map N.of_nat (seq 0 16))).
  { apply in_map_iff. exists (N.to_nat b). split; [lia |]. apply in_seq. lia. }
  simpl in Ea, Eb.
  repeat (destruct Ea as [<- | Ea]; [| ]);
    try (now destruct Ea);
    repeat (destruct Eb as [<- | Eb]; [| ]);
    try (now destruct Eb); try reflexivity; intros E; discriminate E.
Qed.

Lemma hex_pair_inj a b : hex_pair a = hex_pair b -> a = b.
Proof.
  intros E. injection E as E1 E2.
  pose proof (Byte.to_N_bounded a) as Ba. pose proof (Byte.to_N_bounded b) as Bb.
  apply hex_digit_inj in E1;
    [| apply N.Div0.div_lt_upper_bound; lia | apply N.Div0.div_lt_upper_bound; lia].
  apply hex_digit_inj in E2; [| apply N.mod_lt; lia | apply N.mod_lt; lia].
  assert (En : Byte.to_N a = Byte.to_N b).
  { rewrite (N.div_mod' (Byte.to_N a) 16), (N.div_mod' (Byte.to_N b) 16). congruence. }
  pose proof (Byte.of_to_N a) as Oa. pose proof (Byte.of_to_N b) as Ob.
  rewrite En in Oa. congruence.
Qed.

Lemma toHexString_inj a : forall b, toHexString a = toHexString b -> a = b.
Proof.
  induction a as [| x a IH]; intros [| y b] E.
  - reflexivity.
  - apply (f_equal String.length) in E. rewrite !toHexString_length in E.
    simpl in E. lia.
  - apply (f_equal String.length) in E. rewrite !toHexString_length in E.
    simpl in E. lia.
  - rewrite !toHexString_cons in E. unfold hex_pair in E.
    rewrite !append_String in E.
    change ("" +:+ toHexString a) with (toHexString a) in E.
    change ("" +:+ toHexString b) with (toHexString b) in E.
    injection E as E1 E2 E3. f_equal.
    + apply hex_pair_inj. unfold hex_pair. congruence.
    + now apply IH.
Qed.

(** X1. [generateKeyFromSeedBytes] refuses a seed of fewer than 64 bytes
    with its explicit error and returns a bundle for any other seed. In the
    bundle the AES key is the first 32 bytes of the seed and [privateKey] is
    ['0x'] followed by the hexadecimal of those same bytes (66 characters,
    as [publicKey]): the private key string determines the encryption key. *)
Theorem generateKeyFromSeedBytes_bundle `{Platform} (seed : list byte) (w : World) :
  ((List.length seed < 64)%nat ->
   generateKeyFromSeedBytes seed w
   = (Throw (JsError
        "Valid seed bytes (at least 64 bytes) are required for key generation."), w))
  /\ ((64 <= List.length seed)%nat ->
      exists keys,
        generateKeyFromSeedBytes seed w = (Ok keys, w)
        /\ encryptionKey keys = firstn 32 seed
        /\ String.length (privateKey keys) = 66%nat
        /\ String.length (publicKey keys) = 66%nat
        /\ forall seed' keys' w',
             generateKeyFromSeedBytes seed' w' = (Ok keys', w') ->
             privateKey keys' = privateKey keys ->
             encryptionKey keys' = encryptionKey keys).
Proof.
  split.
  - intros Hlt. unfold generateKeyFromSeedBytes.
    apply Nat.ltb_lt in Hlt. now rewrite Hlt.
  - intros Hge. unfold generateKeyFromSeedBytes.
    pose proof Hge as Hge'. apply Nat.ltb_ge in Hge'. rewrite Hge'.
    eexists. split; [reflexivity |]. cbn [encryptionKey privateKey publicKey].
    split; [reflexivity |].
    assert (L1 : List.length (firstn 32 seed) = 32%nat) by (rewrite length_firstn; lia).
    assert (L2 : List.length (firstn 32 (skipn 32 seed)) = 32%nat).
    { rewrite length_firstn, length_skipn. lia. }
    split; [| split].
    + rewrite !append_String. change ("" +:+ ?x) with x. simpl.
      rewrite toHexString_length, L1. reflexivity.
    + rewrite !append_String. change ("" +:+ ?x) with x. simpl.
      rewrite toHexString_length, L2. reflexivity.
    + intros seed' keys' w'. 
      destruct (List.length seed' <? 64)%nat; [discriminate |].
      intros E. injection E as <-. cbn [encryptionKey privateKey].
      intros E. rewrite !append_String in E. injection E as E.
      now apply toHexString_inj.
Qed.

(** ** Reading stored values *)

Section Reads.
Context `{Platform}.

Lemma decryptStorageData_plain v k w :
  negb (truthy v) || negb (typeof_object v)
  || negb (truthy_opt (field v "encrypted")) = true ->
  decryptStorageData v k w = (Ok v, w).
Proof.
  intros E. unfold decryptStorageData, try_catch. now rewrite E.
Qed.

Lemma decryptStorageData_result v k w :
  (exists v', decryptStorageData v k w = (Ok v', w))
  \/ decryptStorageData v k w = (Throw decrypt_error, w).
Proof.
  unfold decryptStorageData, try_catch, decrypt_error.
  destruct (negb (truthy v) || negb (typeof_object v)
            || negb (truthy_opt (field v "encrypted"))); [left; eauto |].
  destruct (negb (truthy_opt (field v "iv")) || negb (truthy_opt (field v "data")));
    [right; reflexivity |].
  destruct (aes_gcm_decrypt k _ _) as [d |]; [| right; reflexivity].
  destruct (JSON_parse _); left; eauto.
Qed.

Lemma reads_envelope k data iv now :
  aes_gcm_sound -> reads k (storage_envelope k data iv now) (read_back data).
Proof. intros sound w. apply (storage_roundtrip_revive sound). Qed.

Lemma reads_plain k v :
  negb (truthy v) || negb (typeof_object v)
  || negb (truthy_opt (field v "encrypted")) = true ->
  reads k v v.
Proof. intros E w. now apply decryptStorageData_plain. Qed.

Lemma reads_fun k v v1 v2 : reads k v v1 -> reads k v v2 -> v1 = v2.
Proof.
  intros H1 H2.
  pose proof (H1 {| storage := ∅; currentUserSession := None; currentStorageKey := None;
                    sessionTimeout := 0; encryptionIterations := 0; tick := 0;
                    rng := fun _ => x00; clock := fun _ => 0; fault := fun _ => false |}) as E1.
  rewrite H2 in E1. congruence.
Qed.

Lemma get_entries_reads k (l : list (string * value)) :
  (forall key v, In (key, v) l ->
     includes skipEncryption key = false -> exists v', reads k v v') ->
  NoDup (map fst l) ->
  forall (acc : gmap string value) w,
  exists acc',
    foldM (get_entry k) l acc w = (Ok acc', w)
    /\ (forall key, ~ In key (map fst l) -> acc' !! key = acc !! key)
    /\ (forall key v,
          In (key, v) l ->
          (includes skipEncryption key = true -> acc' !! key = Some v)
          /\ (forall v', includes skipEncryption key = false ->
                         reads k v v' -> acc' !! key = Some v')).
Proof.
  induction l as [| [key0 v0] l IH]; intros Hall Hnd acc w.
  - exists acc. simpl. repeat split; tauto.
  - apply NoDup_cons in Hnd as [Hnot Hnd]. rewrite list_elem_of_In in Hnot.
    assert (Hstep : exists x,
               get_entry k acc (key0, v0) w = (Ok (<[key0 := x]> acc), w)
               /\ (includes skipEncryption key0 = true -> x = v0)
               /\ (forall v', includes skipEncryption key0 = false ->
                              reads k v0 v' -> x = v')).
    { unfold get_entry. destruct (includes skipEncryption key0) eqn:E.
      - exists v0. split; [reflexivity |]. split; [reflexivity | discriminate].
      - destruct (Hall key0 v0 (or_introl eq_refl) E) as [v' Hv'].
        exists v'. split; [| split; [discriminate |]].
        + unfold bind. now rewrite Hv'.
        + intros v'' _ Hv''. eapply reads_fun; eassumption. }
    destruct Hstep as (x & Hstep & Hx1 & Hx2).
    destruct (IH (fun key v Hin => Hall key v (or_intror Hin)) Hnd (<[key0 := x]> acc) w)
      as [acc' [Hf [Hout Hin]]].
    exists acc'. rewrite foldM_cons, (bind_ok _ _ _ _ _ Hstep).
    split; [exact Hf |]. split.
    + intros key Hk. simpl in Hk. rewrite Hout by tauto.
      apply lookup_insert_ne. tauto.
    + intros key v [Hkv | Hkv].
      * pose proof (f_equal fst Hkv) as Hk. pose proof (f_equal snd Hkv) as Hv.
        cbn [fst snd] in Hk, Hv. subst key v. rewrite Hout by exact Hnot.
        rewrite lookup_insert_eq. split.
        -- intros E. now rewrite (Hx1 E).
        -- intros v' E Hr. now rewrite (Hx2 v' E Hr).
      * exact (Hin key v Hkv).
Qed.

Lemma secureStorageGet_reads k keys w :
  fault w (tick w) = false ->
  (forall key v, In key keys -> storage w !! key = Some v ->
     includes skipEncryption key = false -> exists v', reads k v v') ->
  exists result,
    secureStorageGet keys k w = (Ok result, set_tick (N.succ (tick w)) w)
    /\ (forall key v,
          In key keys -> storage w !! key = Some v ->
          (includes skipEncryption key = true -> result !! key = Some v)
          /\ (forall v', includes skipEncryption key = false ->
                         reads k v v' -> result !! key = Some v'))
    /\ (forall key, storage w !! key = None \/ ~ In key keys -> result !! key = None).
Proof.
  intros Hf Hall.
  set (w0 := set_tick (N.succ (tick w)) w).
  set (l := map_to_list (restrict keys (storage w))).
  assert (Hl : forall key v, In (key, v) l <->
                 storage w !! key = Some v /\ In key keys).
  { intros key v. unfold l. rewrite <- list_elem_of_In, elem_of_map_to_list.
    rewrite lookup_restrict. destruct (bool_decide (key ∈ keys)) eqn:Ek.
    - apply bool_decide_eq_true in Ek. rewrite list_elem_of_In in Ek. tauto.
    - apply bool_decide_eq_false in Ek. rewrite list_elem_of_In in Ek.
      split; [discriminate | tauto]. }
  destruct (get_entries_reads k l) with (acc := (∅ : gmap string value)) (w := w0)
    as [acc' [Hfold [Hout Hin]]].
  { intros key v Hkv. apply Hl in Hkv as [Hs Hk]. now apply Hall. }
  { apply (NoDup_fst_map_to_list (restrict keys (storage w))). }
  exists acc'. split; [| split].
  - unfold secureStorageGet. rewrite try_rethrow.
    assert (E0 : chrome_storage_get (Some keys) w
                 = (Ok (restrict keys (storage w)), w0)).
    { unfold chrome_storage_get. now rewrite Hf. }
    rewrite (bind_ok _ _ _ _ _ E0). rewrite try_rethrow. exact Hfold.
  - intros key v Hk Hs. apply (Hin key v). apply Hl. tauto.
  - intros key Hs. rewrite Hout; [apply lookup_empty |].
    intros Hk. apply in_map_iff in Hk as [[k' v'] [Hk Hi]]. simpl in Hk. subst k'.
    apply Hl in Hi as [Hi Hi']. destruct Hs; [congruence | tauto].
Qed.

End Reads.

(** X2. [decryptStorageData] returns a value that is not an object marked
    [encrypted] as it is (entries written before encryption was
    turned on); it fails in one way only, with 'Failed to decrypt storage
    data - possible corruption or wrong key' and without touching the
    world: so for a marked object that lacks [iv] or [data], and, when
    AES-GCM rejects foreign ciphertexts, for an envelope sealed under
    another key. *)
Theorem decryptStorageData_failures `{Platform} (v : value) (k : list byte) (w : World) :
  (negb (truthy v) || negb (typeof_object v)
   || negb (truthy_opt (field v "encrypted")) = true ->
   decryptStorageData v k w = (Ok v, w))
  /\ (forall e w', decryptStorageData v k w = (Throw e, w') ->
                   e = decrypt_error /\ w' = w)
  /\ (truthy v = true -> typeof_object v = true ->
      truthy_opt (field v "encrypted") = true ->
      truthy_opt (field v "iv") = false \/ truthy_opt (field v "data") = false ->
      decryptStorageData v k w = (Throw decrypt_error, w))
  /\ (aes_gcm_authentic ->
      forall k0 data iv now,
        k0 <> k -> v = storage_envelope k0 data iv now ->
        decryptStorageData v k w = (Throw decrypt_error, w)).
Proof.
  split; [apply decryptStorageData_plain |]. split; [| split].
  - intros e w' E.
    destruct (decryptStorageData_result v k w) as [[v' E'] | E']; rewrite E' in E.
    + discriminate.
    + injection E as <- <-. auto.
  - intros H1 H2 H3 H4. unfold decryptStorageData, try_catch.
    rewrite H1, H2, H3. simpl.
    destruct H4 as [-> | ->]; simpl; [reflexivity |].
    now destruct (negb (truthy_opt (field v "iv"))).
  - intros auth k0 data iv now Hk ->.
    rewrite decryptStorageData_envelope. now rewrite (auth k0 k iv _ Hk).
Qed.

(** ** Writing and reading through the secure storage *)

Section SetGet.
Context `{Platform}.

(** What a successful [secureStorageSet] leaves in the store. *)
Lemma secureStorageSet_stored items k w w1 :
  secureStorageSet items k w = (Ok tt, w1) ->
  same_vars w w1
  /\ storage w1 !! "hasEncryptedStorage" = Some (VBool true)
  /\ storage w1 !! "storageVersion" = Some (VStr "1.0")
  /\ (forall v, items !! "firstTimeSetup" = Some v ->
                storage w1 !! "firstTimeSetup" = Some v)
  /\ (forall key v,
        items !! key = Some v ->
        includes skipEncryption key = false ->
        exists iv now, storage w1 !! key = Some (storage_envelope k v iv now))
  /\ (forall key,
        items !! key = None ->
        key <> "hasEncryptedStorage" -> key <> "storageVersion" ->
        storage w1 !! key = storage w !! key).
Proof.
  intros Hr.
  destruct (secureStorageSet_inv _ _ _ _ Hr) as (Sv & Henv & Hframe).
  split; [exact Sv |].
  destruct (secureStorageSet_items_spec items k w)
    as (batch & w' & Hitems & Sw & Hm & Hv & Hfirst & _ & _).
  pose proof (secureStorageSet_write items k w batch w' Hitems) as Hset.
  rewrite Hset in Hr. unfold chrome_storage_set in Hr.
  destruct (fault w' (tick w')); [discriminate |].
  injection Hr as <-. simpl.
  split; [now apply lookup_union_Some_l |].
  split; [now apply lookup_union_Some_l |].
  split; [| split; [exact Henv | exact Hframe]].
  intros v Hi. apply lookup_union_Some_l. now apply Hfirst.
Qed.

(** A failed [secureStorageSet] leaves the store as it was. *)
Lemma secureStorageSet_failed items k w e w1 :
  secureStorageSet items k w = (Throw e, w1) -> storage w1 = storage w.
Proof.
  intros Hr.
  destruct (secureStorageSet_items_spec items k w)
    as (batch & w' & Hitems & Sw & _).
  pose proof (secureStorageSet_write items k w batch w' Hitems) as Hset.
  rewrite Hset in Hr. unfold chrome_storage_set in Hr.
  destruct (fault w' (tick w')); [| discriminate].
  injection Hr as _ <-. simpl. now destruct Sw as [-> _].
Qed.

End SetGet.

(** X3. What [secureStorageSet] wrote under a key, [secureStorageGet]
    reads back under the same key: the value itself for [firstTimeSetup],
    the two markers as [true] and ['1.0'], and for every other key what
    [decryptStorageData] makes of the stored text, which is decoded (a
    U+FEFF at its head is dropped) and parsed when it parses. That is the
    value itself when it is no string and JSON reads back what it wrote
    for it, and for a string that is a well-formed text not beginning with
    U+FEFF, [JSON.parse] of it when it parses and the string when not. *)
Theorem secureStorageSet_secureStorageGet `{Platform} :
  aes_gcm_sound ->
  forall (items : gmap string value) (k : list byte) (keys : list string) (w w1 : World),
    secureStorageSet items k w = (Ok tt, w1) ->
    fault w1 (tick w1) = false ->
    (forall key, In key keys -> includes skipEncryption key = false ->
                 items !! key <> None) ->
    exists result,
      secureStorageGet keys k w1 = (Ok result, set_tick (N.succ (tick w1)) w1)
      /\ (forall key v,
            In key keys -> items !! key = Some v ->
            includes skipEncryption key = false ->
            result !! key = Some (read_back v)
            /\ ((forall s, v <> VStr s) ->
                JSON_parse (JSON_stringify v) = Some v ->
                result !! key = Some v)
            /\ (forall s, v = VStr s -> plain_text s ->
                         result !! key = Some (revive s)))
      /\ (forall v, In "firstTimeSetup" keys -> items !! "firstTimeSetup" = Some v ->
                    result !! "firstTimeSetup" = Some v)
      /\ (In "hasEncryptedStorage" keys ->
          result !! "hasEncryptedStorage" = Some (VBool true))
      /\ (In "storageVersion" keys ->
          result !! "storageVersion" = Some (VStr "1.0")).
Proof.
  intros sound items k keys w w1 Hset Hf Hkeys.
  destruct (secureStorageSet_stored _ _ _ _ Hset)
    as (_ & Hm & Hv & Hfirst & Henv & _).
  destruct (secureStorageGet_reads k keys w1 Hf) as (result & Hget & Hres & _).
  { intros key v Hk Hs Hskip.
    destruct (items !! key) as [x |] eqn:Hi; [| now destruct (Hkeys key Hk Hskip)].
    destruct (Henv key x Hi Hskip) as (iv & now & Hst).
    rewrite Hst in Hs. injection Hs as <-.
    eexists. now apply reads_envelope. }
  exists result. split; [exact Hget |].
  split; [| split; [| split]].
  - intros key v Hk Hi Hskip.
    destruct (Henv key v Hi Hskip) as (iv & now & Hst).
    assert (E : result !! key = Some (read_back v)).
    { apply (proj2 (Hres key _ Hk Hst) _ Hskip). now apply reads_envelope. }
    split; [exact E |]. split.
    + intros Hns HJ. rewrite E. f_equal. now apply read_back_value.
    + intros s -> Ts. rewrite E. f_equal. now apply (read_back_text (VStr s)).
  - intros v Hk Hi. now apply (proj1 (Hres _ _ Hk (Hfirst v Hi))).
  - intros Hk. now apply (proj1 (Hres _ _ Hk Hm)).
  - intros Hk. now apply (proj1 (Hres _ _ Hk Hv)).
Qed.

(** ** Migration of a store that is not marked *)

Lemma is_null (v : value) : v = VNull \/ v <> VNull.
Proof. destruct v; first [now left | now right]. Qed.

Section MigrateEntries.
Context `{Platform}.

Lemma migrate_entries k (l : list (string * value)) :
  forall (acc : gmap string value) w,
  exists acc' w',
    foldM (migrate_entry k) l acc w = (Ok acc', w')
    /\ same_state w w'
    /\ (forall key, ~ In key (map fst l) -> acc' !! key = acc !! key)
    /\ (NoDup (map fst l) ->
        forall key v, In (key, v) l ->
          (includes skipEncryption key = true -> acc' !! key = Some v)
          /\ (includes skipEncryption key = false -> v <> VNull ->
              exists iv now, acc' !! key = Some (storage_envelope k v iv now))
          /\ (includes skipEncryption key = false -> v = VNull ->
              acc' !! key = acc !! key)).
Proof.
  induction l as [| [key0 v0] l IH]; intros acc w.
  - exists acc, w. simpl. split; [reflexivity |].
    split; [apply same_state_refl |]. split; [reflexivity | intros _ ? ? []].
  - assert (Hstep : exists acc1 w1,
               migrate_entry k acc (key0, v0) w = (Ok acc1, w1)
               /\ same_state w w1
               /\ (forall key, key <> key0 -> acc1 !! key = acc !! key)
               /\ (includes skipEncryption key0 = true -> acc1 !! key0 = Some v0)
               /\ (includes skipEncryption key0 = false -> v0 <> VNull ->
                   exists iv now, acc1 !! key0 = Some (storage_envelope k v0 iv now))
               /\ (includes skipEncryption key0 = false -> v0 = VNull ->
                   acc1 = acc)).
    { unfold migrate_entry. destruct (includes skipEncryption key0) eqn:E.
      - exists (<[key0 := v0]> acc), w. split; [reflexivity |].
        split; [apply same_state_refl |].
        split; [intros key Hk; now apply lookup_insert_ne |].
        split; [intros _; apply lookup_insert_eq |].
        split; discriminate.
      - destruct (is_null v0) as [-> | Hn].
        + exists acc, w. split; [reflexivity |]. split; [apply same_state_refl |].
          split; [reflexivity |]. split; [discriminate |].
          split; [intros _ Hn; now destruct Hn | reflexivity].
        + assert (Eenc : (let* e := encryptStorageData v0 k in ret (<[key0 := e]> acc)) w
                         = (Ok (<[key0 := storage_envelope k v0 (fresh_iv w)
                                             (clock w (tick w + 12)%N)]> acc),
                            set_tick (N.succ (tick w + 12)) w)).
          { unfold bind. now rewrite encryptStorageData_eq. }
          eexists _, _. split; [destruct v0; first [exact Eenc | now destruct Hn] |].
          split; [apply same_state_tick |].
          split; [intros key Hk; now apply lookup_insert_ne |].
          split; [discriminate |].
          split; [intros _ _; eexists _, _; apply lookup_insert_eq |].
          intros _ Hv. now destruct Hn. }
    destruct Hstep as (acc1 & w1 & Hs & Hw1 & Hother & Hs1 & Hs2 & Hs3).
    rewrite foldM_cons, (bind_ok _ _ _ _ _ Hs).
    destruct (IH acc1 w1) as (acc' & w' & Hf & Hw' & Hout & Hnd).
    exists acc', w'. split; [exact Hf |].
    split; [eapply same_state_trans; eassumption |].
    split.
    + intros key Hk. simpl in Hk. rewrite Hout by tauto. apply Hother.
      intros ->. tauto.
    + intros Hnodup key v Hkv. simpl in Hnodup.
      apply NoDup_cons in Hnodup as [Hnot Hnd']. rewrite list_elem_of_In in Hnot.
      destruct Hkv as [Hkv | Hkv].
      * injection Hkv as -> ->. rewrite Hout by exact Hnot.
        split; [exact Hs1 |]. split; [exact Hs2 |].
        intros E Hv. now rewrite (Hs3 E Hv).
      * destruct (Hnd Hnd' key v Hkv) as (H1 & H2 & H3).
        split; [exact H1 |]. split; [exact H2 |].
        intros E Hv. rewrite (H3 E Hv). apply Hother.
        intros ->. apply Hnot. apply in_map_iff. now exists (key0, v).
Qed.

(** The store that a successful migration of an unmarked store leaves. *)
Lemma migrate_unmarked k w w1 :
  marked (storage w) = false ->
  migrateToEncryptedStorage k w = (Ok true, w1) ->
  same_vars w w1
  /\ storage w1 !! "hasEncryptedStorage" = Some (VBool true)
  /\ storage w1 !! "storageVersion" = Some (VStr "1.0")
  /\ (forall key v,
        storage w !! key = Some v -> includes skipEncryption key = false ->
        (v = VNull -> storage w1 !! key = Some VNull)
        /\ (v <> VNull ->
            exists iv now, storage w1 !! key = Some (storage_envelope k v iv now)))
  /\ (forall key,
        key <> "hasEncryptedStorage" -> key <> "storageVersion" ->
        includes skipEncryption key = true \/ storage w !! key = None ->
        storage w1 !! key = storage w !! key).
Proof.
  intros Hm Hr.
  pose proof (keeps_run _ _ _ _ _ (keeps_migrate k) Hr) as Sv.
  split; [exact Sv |].
  rewrite migrate_eq in Hr. cbv zeta in Hr.
  destruct (fault w (tick w)); [discriminate |]. rewrite Hm in Hr.
  destruct (migrate_entries k (map_to_list (storage w)) ∅ (set_tick (N.succ (tick w)) w))
    as (acc & w' & Hf & Sw & Hout & Hnd).
  specialize (Hnd (NoDup_fst_map_to_list (storage w))).
  rewrite Hf in Hr. destruct (fault w' (tick w')); [discriminate |].
  injection Hr as <-. cbn [storage set_storage set_tick].
  destruct Sw as [Sw _]. cbn [storage set_tick] in Sw. rewrite Sw.
  assert (Hin : forall key v, storage w !! key = Some v ->
                              In (key, v) (map_to_list (storage w))).
  { intros key v Hs. apply list_elem_of_In. now apply elem_of_map_to_list. }
  split; [apply lookup_union_Some_l;
          rewrite lookup_insert_ne by discriminate; apply lookup_insert_eq |].
  split; [apply lookup_union_Some_l; apply lookup_insert_eq |].
  split.
  - intros key v Hs Hskip.
    assert (N1 : key <> "storageVersion") by (intros ->; discriminate).
    assert (N2 : key <> "hasEncryptedStorage") by (intros ->; discriminate).
    destruct (Hnd key v (Hin key v Hs)) as (_ & H2 & H3).
    split.
    + intros ->. rewrite lookup_union_r; [exact Hs |].
      rewrite !lookup_insert_ne by congruence.
      rewrite (H3 Hskip eq_refl). apply lookup_empty.
    + intros Hv. destruct (H2 Hskip Hv) as (iv & now & Ha).
      exists iv, now. apply lookup_union_Some_l.
      now rewrite !lookup_insert_ne by congruence.
  - intros key N1 N2 [Hskip | Hnone].
    + destruct (storage w !! key) as [v |] eqn:Hs.
      * destruct (Hnd key v (Hin key v Hs)) as (H1 & _ & _).
        apply lookup_union_Some_l.
        rewrite !lookup_insert_ne by congruence. now apply H1.
      * rewrite lookup_union_r; [exact Hs |].
        rewrite !lookup_insert_ne by congruence.
        rewrite Hout; [apply lookup_empty |].
        intros Hk. apply in_map_iff in Hk as [[k' v'] [Hk Hi]]. simpl in Hk. subst k'.
        apply list_elem_of_In, elem_of_map_to_list in Hi. congruence.
    + rewrite lookup_union_r; [reflexivity |].
      rewrite !lookup_insert_ne by congruence.
      rewrite Hout; [apply lookup_empty |].
      intros Hk. apply in_map_iff in Hk as [[k' v'] [Hk Hi]]. simpl in Hk. subst k'.
      apply list_elem_of_In, elem_of_map_to_list in Hi. congruence.
Qed.

End MigrateEntries.

(** A migration that fails has written nothing. *)
Lemma migrate_throws `{Platform} k w e w1 :
  migrateToEncryptedStorage k w = (Throw e, w1) ->
  storage w1 = storage w
  /\ exists cause, e = JsError ("Storage encryption migration failed: " +:+ cause).
Proof.
  intros Hr. rewrite migrate_eq in Hr. cbv zeta in Hr.
  destruct (fault w (tick w)).
  { injection Hr as <- <-. split; [reflexivity | eauto]. }
  destruct (marked (storage w)); [discriminate |].
  destruct (foldM_total (migrate_entry k) (migrate_entry_total k)
              (map_to_list (storage w)) ∅ (set_tick (N.succ (tick w)) w))
    as (acc & w' & Hf & Sw).
  rewrite Hf in Hr. destruct (fault w' (tick w')); [| discriminate].
  injection Hr as <- <-. split; [| eauto].
  destruct Sw as [Sw _]. exact Sw.
Qed.

(** X4. [migrateToEncryptedStorage] either returns true, and then the
    store carries the marker, or fails with 'Storage encryption migration
    failed: ' followed by the cause, and then the store is exactly as it
    was: a migration that fails has written nothing. The session variables
    are untouched either way. *)
Theorem migrateToEncryptedStorage_outcome `{Platform} (k : list byte) (w : World) :
  same_vars w (snd (migrateToEncryptedStorage k w))
  /\ match migrateToEncryptedStorage k w with
     | (Ok b, w1) => b = true /\ marked (storage w1) = true
     | (Throw e, w1) =>
         storage w1 = storage w
         /\ exists cause,
             e = JsError ("Storage encryption migration failed: " +:+ cause)
     end.
Proof.
  split; [apply keeps_migrate |].
  destruct (migrateToEncryptedStorage k w) as [[b | e] w1] eqn:Hr.
  - eapply migrate_marks. exact Hr.
  - eapply migrate_throws. exact Hr.
Qed.

(** X5. A successful migration of a store without the marker encrypts
    every entry outside the allowlist under the key, whatever the entry is
    (an entry that already is an envelope is wrapped again); only [null]
    entries stay as they are. [secureStorageGet] under the same key then
    reads every such entry back as [decryptStorageData] makes of the text
    that was encrypted: the text as [TextDecoder] decodes it (a leading
    U+FEFF dropped), parsed when [JSON.parse] reads it and kept as a string
    when not. *)
Theorem migrateToEncryptedStorage_encrypts `{Platform} :
  aes_gcm_sound ->
  forall (k : list byte) (w w1 : World),
    marked (storage w) = false ->
    migrateToEncryptedStorage k w = (Ok true, w1) ->
    (forall key v,
       storage w !! key = Some v -> includes skipEncryption key = false ->
       v <> VNull ->
       exists iv now, storage w1 !! key = Some (storage_envelope k v iv now))
    /\ (forall key,
          storage w !! key = Some VNull -> includes skipEncryption key = false ->
          storage w1 !! key = Some VNull)
    /\ (forall keys,
          fault w1 (tick w1) = false ->
          exists result,
            secureStorageGet keys k w1 = (Ok result, set_tick (N.succ (tick w1)) w1)
            /\ forall key v,
                 In key keys -> storage w !! key = Some v ->
                 includes skipEncryption key = false ->
                 result !! key
                 = Some (match v with
                         | VNull => VNull
                         | _ => read_back v
                         end)).
Proof.
  intros sound k w w1 Hm Hr.
  destruct (migrate_unmarked k w w1 Hm Hr) as (_ & _ & _ & Henc & Hkeep).
  split; [| split].
  - intros key v Hs Hskip Hv. now apply (proj2 (Henc key v Hs Hskip)).
  - intros key Hs Hskip. now apply (proj1 (Henc key VNull Hs Hskip)).
  - intros keys Hf.
    assert (Hst : forall key x, storage w1 !! key = Some x ->
                    includes skipEncryption key = false ->
                    exists v', reads k x v').
    { intros key x Hx Hskip.
      assert (N1 : key <> "hasEncryptedStorage") by (intros ->; discriminate).
      assert (N2 : key <> "storageVersion") by (intros ->; discriminate).
      destruct (storage w !! key) as [v |] eqn:Hs.
      - destruct (is_null v) as [-> | Hv].
        + rewrite (proj1 (Henc key VNull Hs Hskip) eq_refl) in Hx.
          injection Hx as <-. exists VNull. now apply reads_plain.
        + destruct (proj2 (Henc key v Hs Hskip) Hv) as (iv & now & Hx').
          rewrite Hx' in Hx. injection Hx as <-. eexists. now apply reads_envelope.
      - rewrite (Hkeep key N1 N2 (or_intror Hs)) in Hx. congruence. }
    destruct (secureStorageGet_reads k keys w1 Hf) as (result & Hget & Hres & _).
    { intros key x _ Hx Hskip. now apply (Hst key x). }
    exists result. split; [exact Hget |].
    intros key v Hk Hs Hskip.
    destruct (is_null v) as [-> | Hv].
    + pose proof (proj1 (Henc key VNull Hs Hskip) eq_refl) as Hx.
      apply (proj2 (Hres key _ Hk Hx) _ Hskip). now apply reads_plain.
    + destruct (proj2 (Henc key v Hs Hskip) Hv) as (iv & now & Hx).
      assert (E : result !! key = Some (read_back v)).
      { apply (proj2 (Hres key _ Hk Hx) _ Hskip). now apply reads_envelope. }
      rewrite E. now destruct v.
Qed.

(** ** The self-test and the initialisation of the storage key *)

Section SelfTest.
Context `{Platform}.

Lemma verifyStorageEncryption_eq k w :
  verifyStorageEncryption k w
  = let t := testData (clock w (tick w)) in
    let w1 := set_tick (N.succ (tick w)) w in
    let w2 := set_tick (N.succ (tick w1 + 12)) w1 in
    (Ok (match aes_gcm_decrypt k (fresh_iv w1)
                 (aes_gcm_encrypt k (fresh_iv w1)
                    (TextEncoder_encode (JSON_stringify t))) with
         | Some d =>
             String.eqb (JSON_stringify t)
               (JSON_stringify (revive (TextDecoder_decode d)))
         | None => false
         end), w2).
Proof.
  unfold verifyStorageEncryption. cbv zeta. fold (testData (clock w (tick w))).
  set (t := testData (clock w (tick w))).
  set (w1 := set_tick (N.succ (tick w)) w).
  assert (E0 : Date_now w = (Ok (clock w (tick w)), w1)) by reflexivity.
  pose proof (encryptStorageData_eq t k w1) as E1.
  pose proof (decryptStorageData_envelope k k t (fresh_iv w1) (clock w1 (tick w1 + 12)%N)
                (set_tick (N.succ (tick w1 + 12)) w1)) as E2.
  change (dataString t) with (JSON_stringify t) in E2.
  destruct (aes_gcm_decrypt k (fresh_iv w1)
              (aes_gcm_encrypt k (fresh_iv w1) (TextEncoder_encode (JSON_stringify t))))
    as [d |] eqn:Ed.
  - erewrite try_catch_ok; [reflexivity |].
    rewrite (bind_ok _ _ _ _ _ E0). fold t.
    rewrite (bind_ok _ _ _ _ _ E1), (bind_ok _ _ _ _ _ E2).
    match goal with
    | |- (if ?c then _ else _) _ = (Ok ?c', _) =>
        change c' with c; destruct c; reflexivity
    end.
  - etransitivity;
      [eapply try_catch_throw; rewrite (bind_ok _ _ _ _ _ E0); fold t;
       rewrite (bind_ok _ _ _ _ _ E1); apply bind_throw; exact E2
      | reflexivity].
Qed.

Lemma generateStorageEncryptionKey_eq s w :
  generateStorageEncryptionKey s w = (Ok (storageKey s), w).
Proof. reflexivity. Qed.

End SelfTest.

(** X6. [verifyStorageEncryption] never throws and changes nothing but the
    step counter of the host. It answers true exactly when the key opens
    its own ciphertext of the test object and the text revives to a value
    that [JSON.stringify] prints like the test object; so it answers true
    whenever AES-GCM is sound and JSON reads the test object back. *)
Theorem verifyStorageEncryption_verdict `{Platform} (k : list byte) (w : World) :
  let t := testData (clock w (tick w)) in
  let iv := fresh_iv (set_tick (N.succ (tick w)) w) in
  exists b,
    fst (verifyStorageEncryption k w) = Ok b
    /\ same_state w (snd (verifyStorageEncryption k w))
    /\ (b = true <->
        exists d,
          aes_gcm_decrypt k iv
            (aes_gcm_encrypt k iv (TextEncoder_encode (JSON_stringify t))) = Some d
          /\ JSON_stringify (revive (TextDecoder_decode d)) = JSON_stringify t)
    /\ (aes_gcm_sound -> JSON_parse (JSON_stringify t) = Some t -> b = true).
Proof.
  intros t iv. rewrite verifyStorageEncryption_eq. cbv zeta. fold t. fold iv.
  eexists. split; [reflexivity |]. split; [repeat split |].
  assert (Hiff :
    match aes_gcm_decrypt k iv
            (aes_gcm_encrypt k iv (TextEncoder_encode (JSON_stringify t))) with
    | Some d => String.eqb (JSON_stringify t)
                  (JSON_stringify (revive (TextDecoder_decode d)))
    | None => false
    end = true <->
    exists d,
      aes_gcm_decrypt k iv
        (aes_gcm_encrypt k iv (TextEncoder_encode (JSON_stringify t))) = Some d
      /\ JSON_stringify (revive (TextDecoder_decode d)) = JSON_stringify t).
  { destruct (aes_gcm_decrypt k iv _) as [d |].
    - rewrite String.eqb_eq. split.
      + intros E. exists d. split; [reflexivity | now symmetry].
      + intros (d' & E & E'). injection E as <-. now symmetry.
    - split; [discriminate | intros (d & E & _); discriminate]. }
  split; [exact Hiff |].
  intros sound HJ. apply Hiff. eexists. split; [apply sound |].
  rewrite (decode_parsed _ _ HJ). unfold revive. now rewrite HJ.
Qed.

Section Initialise.
Context `{Platform}.

Lemma initializeStorageEncryption_eq s w :
  initializeStorageEncryption s w
  = let k := storageKey s in
    match verifyStorageEncryption k (set_key (Some k) w) with
    | (Ok true, w1) =>
        match migrateToEncryptedStorage k w1 with
        | (Ok _, w2) => (Ok true, w2)
        | (Throw e, w2) => (Throw e, set_key None w2)
        end
    | (Ok false, w1) =>
        (Throw (JsError "Storage encryption verification failed"), set_key None w1)
    | (Throw e, w1) => (Throw e, set_key None w1)
    end.
Proof.
  unfold initializeStorageEncryption. cbv zeta.
  unfold try_catch at 1.
  rewrite (bind_ok _ _ _ _ _ (generateStorageEncryptionKey_eq s w)).
  rewrite bind_modify.
  unfold bind at 1.
  destruct (verifyStorageEncryption (storageKey s) (set_key (Some (storageKey s)) w))
    as [[[|] | e] w1]; cbn [negb]; try reflexivity.
  unfold bind at 1.
  destruct (migrateToEncryptedStorage (storageKey s) w1) as [[b | e] w2]; reflexivity.
Qed.

End Initialise.

(** X7. [initializeStorageEncryption] leaves the storage key resident, and
    it is the key derived from the phrase, exactly when it returns; then
    the self-test has passed and the store carries the marker. When it
    fails no key is resident, whatever was there before, and the store is
    as it was. The session is not touched. *)
Theorem initializeStorageEncryption_key `{Platform} (seedPhrase : string) (w : World) :
  let k := storageKey seedPhrase in
  currentUserSession (snd (initializeStorageEncryption seedPhrase w))
  = currentUserSession w
  /\ match initializeStorageEncryption seedPhrase w with
     | (Ok b, w1) =>
         b = true
         /\ currentStorageKey w1 = Some k
         /\ marked (storage w1) = true
         /\ fst (verifyStorageEncryption k (set_key (Some k) w)) = Ok true
     | (Throw e, w1) =>
         currentStorageKey w1 = None /\ storage w1 = storage w
     end.
Proof.
  intros k. rewrite initializeStorageEncryption_eq. cbv zeta. fold k.
  pose proof (keeps_verifyStorageEncryption k (set_key (Some k) w)) as Sv.
  destruct (verifyStorageEncryption k (set_key (Some k) w)) as [[[|] | e] w1] eqn:Ev;
    cbn [snd] in Sv;
    destruct Sv as (Sv0 & Sv1 & Sv2 & _); cbn in Sv0, Sv1, Sv2.
  - pose proof (keeps_migrate k w1) as Sm.
    destruct (migrateToEncryptedStorage k w1) as [[b | e] w2] eqn:Em; cbn [snd] in Sm;
      destruct Sm as (Sm1 & Sm2 & _).
    + cbn [snd]. split; [congruence |].
      destruct (migrate_marks _ _ _ _ Em) as [-> Hm].
      split; [reflexivity |]. split; [congruence |]. split; [exact Hm | reflexivity].
    + cbn. split; [congruence |]. split; [reflexivity |].
      destruct (migrate_throws _ _ _ _ Em) as [Hm _]. congruence.
  - cbn. split; [congruence |]. split; [reflexivity | exact Sv0].
  - cbn. split; [congruence |]. split; [reflexivity | exact Sv0].
Qed.

(** ** Logging in with the phrase *)

Section Login.
Context `{Platform}.

Lemma initializeStorageEncryption_cases s w :
  currentUserSession (snd (initializeStorageEncryption s w)) = currentUserSession w
  /\ same_host w (snd (initializeStorageEncryption s w))
  /\ match initializeStorageEncryption s w with
     | (Ok b, w1) =>
         b = true /\ currentStorageKey w1 = Some (storageKey s)
         /\ marked (storage w1) = true
     | (Throw e, w1) => currentStorageKey w1 = None /\ storage w1 = storage w
     end.
Proof.
  rewrite initializeStorageEncryption_eq. cbv zeta.
  set (k := storageKey s).
  pose proof (keeps_verifyStorageEncryption k (set_key (Some k) w)) as Sv.
  destruct (verifyStorageEncryption k (set_key (Some k) w)) as [[[|] | e] w1] eqn:Ev;
    cbn [snd] in Sv;
    destruct Sv as (Sv0 & Sv1 & Sv2 & Sv3 & Sv4 & Sv5 & Sv6 & Sv7);
    cbn in Sv0, Sv1, Sv2, Sv3, Sv4, Sv5, Sv6, Sv7.
  - pose proof (keeps_migrate k w1) as Sm.
    pose proof (migrate_marks k w1) as Hm.
    destruct (migrateToEncryptedStorage k w1) as [[b | e] w2] eqn:Em; cbn [snd] in Sm;
      destruct Sm as (Sm1 & Sm2 & Sm3 & Sm4 & Sm5 & Sm6 & Sm7).
    + cbn [snd]. split; [congruence |].
      split; [unfold same_host; repeat split; congruence |].
      destruct (Hm b w2 eq_refl) as [_ Hmk].
      split; [reflexivity |]. split; [congruence | exact Hmk].
    + simpl. split; [congruence |].
      split; [unfold same_host; simpl; repeat split; congruence |].
      split; [reflexivity |].
      rewrite migrate_eq in Em. cbv zeta in Em.
      destruct (fault w1 (tick w1)).
      { injection Em as _ <-. simpl. congruence. }
      destruct (marked (storage w1)); [discriminate |].
      destruct (foldM_total (migrate_entry k) (migrate_entry_total k)
                  (map_to_list (storage w1)) ∅ (set_tick (N.succ (tick w1)) w1))
        as (acc & w' & Hf & Sw).
      rewrite Hf in Em. destruct (fault w' (tick w')); [| discriminate].
      injection Em as _ <-. destruct Sw as [Sw _]. simpl in *. congruence.
  - simpl. split; [congruence |].
    split; [unfold same_host; simpl; repeat split; congruence |].
    split; [reflexivity | exact Sv0].
  - simpl. split; [congruence |].
    split; [unfold same_host; simpl; repeat split; congruence |].
    split; [reflexivity | exact Sv0].
Qed.

End Login.

(** X8. [verifySeedPhraseLogin] refuses a phrase that is not a valid
    mnemonic and changes nothing. It accepts every valid mnemonic: with a
    storage key resident it establishes the session at once, without
    consulting the store or the key; without one it derives the key of the
    phrase and either succeeds, with that key resident and the session
    established, or reports the failure of the initialisation, with no key
    resident, the session and the store as they were. It never throws. *)
Theorem verifySeedPhraseLogin_outcome `{Platform} (seedPhrase : string) (w : World) :
  (validateSeedPhrase seedPhrase = false ->
   verifySeedPhraseLogin seedPhrase w
   = (Ok (VObj [("success", VBool false); ("error", VStr "Invalid seed phrase")]), w))
  /\ (validateSeedPhrase seedPhrase = true ->
      forall sk, currentStorageKey w = Some sk ->
      verifySeedPhraseLogin seedPhrase w
      = (Ok (VObj [("success", VBool true); ("seedPhrase", VStr seedPhrase)]),
         set_session (Some {| seedPhrase := seedPhrase;
                              timestamp := clock w (tick w);
                              isActive := true |})
           (set_tick (N.succ (tick w)) w)))
  /\ (validateSeedPhrase seedPhrase = true ->
      currentStorageKey w = None ->
      exists r w1,
        verifySeedPhraseLogin seedPhrase w = (Ok r, w1)
        /\ ((r = VObj [("success", VBool true); ("seedPhrase", VStr seedPhrase)]
             /\ currentStorageKey w1 = Some (storageKey seedPhrase)
             /\ exists t, currentUserSession w1
                          = Some {| seedPhrase := seedPhrase; timestamp := t;
                                    isActive := true |})
            \/ (exists error,
                  r = VObj [("success", VBool false); ("error", VStr error)]
                  /\ currentStorageKey w1 = None
                  /\ currentUserSession w1 = currentUserSession w
                  /\ storage w1 = storage w))).
Proof.
  split; [| split].
  - intros Hv. unfold verifySeedPhraseLogin, try_catch. now rewrite Hv.
  - intros Hv sk Hsk. unfold verifySeedPhraseLogin. rewrite Hv. cbn [negb].
    erewrite try_catch_ok; [reflexivity |].
    now rewrite (bind_ok _ _ _ _ _ (ensureStorageEncryption_resident seedPhrase w sk Hsk)).
  - intros Hv Hk. unfold verifySeedPhraseLogin. rewrite Hv. cbn [negb].
    assert (Eens : ensureStorageEncryption seedPhrase w
                   = (let* _ := initializeStorageEncryption seedPhrase in ret tt) w).
    { unfold ensureStorageEncryption. rewrite bind_get_world. now rewrite Hk. }
    destruct (initializeStorageEncryption_cases seedPhrase w) as (Hs & _ & Hc).
    destruct (initializeStorageEncryption seedPhrase w) as [[b | e] w1] eqn:Ei.
    + destruct Hc as (_ & Hkey & _). cbn [snd] in Hs.
      eexists _, _. split.
      * erewrite try_catch_ok; [reflexivity |].
        erewrite bind_ok; [| rewrite Eens; unfold bind at 1; now rewrite Ei].
        reflexivity.
      * left. split; [reflexivity |]. split; [exact Hkey | eauto].
    + destruct Hc as (Hkey & Hst). cbn [snd] in Hs.
      eexists _, _. split.
      * etransitivity;
          [eapply try_catch_throw; apply bind_throw; rewrite Eens;
           unfold bind at 1; now rewrite Ei
          | reflexivity].
      * right. eexists. split; [reflexivity |]. auto.
Qed.

(** ** The vault after the storage key is dropped *)

Section Locked.
Context `{Platform}.

Lemma lookup_removed keys (s : gmap string value) key :
  ~ In key keys ->
  filter (fun kv : string * value => negb (bool_decide (kv.1 ∈ keys))) s !! key = s !! key.
Proof.
  intros Hk. destruct (s !! key) as [v |] eqn:E.
  - apply map_lookup_filter_Some. split; [exact E |]. simpl.
    apply negb_prop_intro. intros Hd. apply Hk. apply list_elem_of_In.
    eapply bool_decide_unpack. exact Hd.
  - apply map_lookup_filter_None. now left.
Qed.

Lemma logout_eq w :
  logout w
  = (Ok (VObj [("success", VBool true)]),
     let w0 := set_key None (set_session None w) in
     let w1 := set_tick (N.succ (tick w)) w0 in
     if fault w (tick w) then w1
     else set_storage
            (filter (fun kv : string * value =>
                       negb (bool_decide
                               (kv.1 ∈ ["isVerified"; "lastLoginTimestamp";
                                        "serverResponse"])))
                    (storage w)) w1).
Proof.
  unfold logout, try_catch, bind, clearUserSession, modify, secureAuth_clearSession,
    try_catch, chrome_storage_remove. simpl.
  now destruct (fault w (tick w)).
Qed.

(** [decryptData] handed an envelope of the storage layer reads its [iv]
    and [data] like those of its own envelopes. *)
Lemma decryptData_storage_envelope sk x iv n key w :
  decryptData (storage_envelope sk x iv n) key w =
    match aes_gcm_decrypt key iv
            (aes_gcm_encrypt sk iv (TextEncoder_encode (dataString x))) with
    | Some decrypted => (Ok (TextDecoder_decode decrypted), w)
    | None => (Throw (HostError OperationError), w)
    end.
Proof.
  unfold decryptData. rewrite try_rethrow.
  unfold storage_envelope, bind, prop, ret. simpl.
  pose proof Uint8Array_from_Array_from as E.
  unfold Uint8Array_from, Array_from in E. rewrite !E.
  now destruct (aes_gcm_decrypt key iv _).
Qed.

(** Without a storage key, [verifyPin] reads the raw entries: the
    envelopes of the storage layer, which the key of the PIN does not open. *)
Lemma verifyPin_raw p sk x1 x2 ivs1 ivs2 n1 n2 w :
  currentStorageKey w = None ->
  storage w !! "pinCode" = Some (storage_envelope sk x1 ivs1 n1) ->
  storage w !! "encryptedSeedPhrase" = Some (storage_envelope sk x2 ivs2 n2) ->
  fault w (tick w) = false ->
  (forall iv data,
     aes_gcm_decrypt (pinKey p (encryptionIterations w)) iv
       (aes_gcm_encrypt sk iv data) = None) ->
  verifyPin p w
  = (Ok (VObj [("verified", VBool false); ("error", VStr "Invalid PIN")]),
     set_tick (N.succ (tick w)) w).
Proof.
  intros Hk Hp He Hf Hno.
  set (w0 := set_tick (N.succ (tick w)) w).
  assert (Hget : secureStorage_get ["pinCode"; "encryptedSeedPhrase"] w
                 = (Ok (restrict ["pinCode"; "encryptedSeedPhrase"] (storage w)), w0)).
  { unfold secureStorage_get. rewrite bind_get_world, Hk.
    unfold chrome_storage_get. now rewrite Hf. }
  unfold verifyPin. erewrite try_catch_ok; [reflexivity |].
  rewrite (bind_ok _ _ _ _ _ Hget). rewrite !lookup_restrict.
  rewrite !bool_decide_eq_true_2 by (apply list_elem_of_In; simpl; tauto).
  rewrite Hp, He.
  change (if_truthy (Some (storage_envelope sk x1 ivs1 n1)))
    with (Some (storage_envelope sk x1 ivs1 n1)).
  change (if_truthy (Some (storage_envelope sk x2 ivs2 n2)))
    with (Some (storage_envelope sk x2 ivs2 n2)).
  cbv iota. rewrite bind_get_world.
  change (encryptionIterations w0) with (encryptionIterations w).
  assert (Hrec :
    try_catch
      (let* s := decryptData (storage_envelope sk x2 ivs2 n2)
                   (pinKey p (encryptionIterations w)) in ret (Some s))
      (fun _ => ret None) w0 = (Ok None, w0)).
  { etransitivity;
      [eapply try_catch_throw; apply bind_throw;
       rewrite decryptData_storage_envelope, Hno; reflexivity
      | reflexivity]. }
  now rewrite (bind_ok _ _ _ _ _ Hrec).
Qed.

End Locked.

(** X9. After [logout] no session and no storage key are left, and the
    PIN no longer opens the vault that [storePin] wrote: [verifyPin] then
    reads the raw entries, which the storage layer had encrypted under the
    storage key, so the right PIN is answered 'Invalid PIN' (AES-GCM
    rejecting a ciphertext under another key, and the key of the PIN not
    being the storage key). *)
Theorem verifyPin_after_logout `{Platform} :
  aes_gcm_authentic ->
  forall (p m : string) (w0 : World),
    fst (storePin p m w0) = Ok (VObj [("success", VBool true)]) ->
    let w := snd (storePin p m w0) in
    currentStorageKey w <> Some (pinKey p (encryptionIterations w)) ->
    let w1 := snd (logout w) in
    fst (logout w) = Ok (VObj [("success", VBool true)])
    /\ currentUserSession w1 = None
    /\ currentStorageKey w1 = None
    /\ (fault w1 (tick w1) = false ->
        verifyPin p w1
        = (Ok (VObj [("verified", VBool false); ("error", VStr "Invalid PIN")]),
           set_tick (N.succ (tick w1)) w1)).
Proof.
  intros auth p m w0 Hstore w.
  destruct (storePin_vault p m w0 Hstore)
    as [[_ (sk & iv1 & iv2 & ivs1 & ivs2 & n1 & n2 & Hsk & Hp & He)] _].
  fold w in Hsk, Hp, He. intros Hne w1.
  subst w1. rewrite logout_eq. cbv zeta. cbn [fst snd].
  set (w1 := if fault w (tick w) then _ else _).
  assert (Hw1 : currentUserSession w1 = None /\ currentStorageKey w1 = None
                /\ encryptionIterations w1 = encryptionIterations w
                /\ storage w1 !! "pinCode" = storage w !! "pinCode"
                /\ storage w1 !! "encryptedSeedPhrase"
                   = storage w !! "encryptedSeedPhrase").
  { unfold w1. destruct (fault w (tick w)); simpl; repeat split; try reflexivity;
      apply lookup_removed; simpl; intros [E | [E | [E | []]]]; discriminate E. }
  destruct Hw1 as (Hs1 & Hk1 & Hi1 & Hp1 & He1).
  split; [reflexivity |]. split; [exact Hs1 |]. split; [exact Hk1 |].
  intros Hf. rewrite Hp in Hp1. rewrite He in He1.
  apply (verifyPin_raw p sk _ _ ivs1 ivs2 n1 n2 w1 Hk1 Hp1 He1 Hf).
  intros iv data. apply auth. rewrite Hi1. fold w. congruence.
Qed.

(** X10. The background script keeps the storage key in a variable of the
    worker: whenever that variable is empty (after [clearUserSession], or
    in a fresh worker) and the vault was written by [storePinCode], through
    the storage layer, [verifyPinCode] answers the right PIN with 'Invalid
    PIN', for the same reason. *)
Theorem verifyPinCode_without_key `{Platform} :
  aes_gcm_authentic ->
  forall (p m : string) (w0 : World),
    fst (Background.storePinCode p m w0) = Ok true ->
    let w := snd (Background.storePinCode p m w0) in
    currentStorageKey w <> Some (Background.pinKey p) ->
    let w1 := snd (Background.clearUserSession w) in
    fault w1 (tick w1) = false ->
    Background.verifyPinCode p w1
    = (Ok (VObj [("verified", VBool false); ("error", VStr "Invalid PIN")]),
       set_tick (N.succ (tick w1)) w1).
Proof.
  intros auth p m w0 Hstore w.
  destruct (storePinCode_vault p m w0 Hstore)
    as [[_ (sk & iv1 & iv2 & ivs1 & ivs2 & n1 & n2 & Hsk & Hp & He)] _].
  fold w in Hsk, Hp, He. intros Hne w1 Hf.
  assert (Hno : forall iv data,
             aes_gcm_decrypt (Background.pinKey p) iv (aes_gcm_encrypt sk iv data)
             = None).
  { intros iv data. apply auth. congruence. }
  set (w2 := set_tick (N.succ (tick w1)) w1).
  assert (Hget : secureStorage_get ["pinCode"; "encryptedSeedPhrase"] w1
                 = (Ok (restrict ["pinCode"; "encryptedSeedPhrase"] (storage w1)), w2)).
  { unfold secureStorage_get. rewrite bind_get_world.
    change (currentStorageKey w1) with (@None (list byte)). cbv iota.
    unfold chrome_storage_get. now rewrite Hf. }
  unfold Background.verifyPinCode. erewrite try_catch_ok; [reflexivity |].
  rewrite (bind_ok _ _ _ _ _ Hget). rewrite !lookup_restrict.
  rewrite !bool_decide_eq_true_2 by (apply list_elem_of_In; simpl; tauto).
  change (storage w1) with (storage w). rewrite Hp, He.
  match goal with
  | |- context [if_truthy (Some (storage_envelope ?a ?b ?c ?d))] =>
      change (if_truthy (Some (storage_envelope a b c d)))
        with (Some (storage_envelope a b c d))
  end.
  match goal with
  | |- context [if_truthy (Some (storage_envelope ?a ?b ?c ?d))] =>
      change (if_truthy (Some (storage_envelope a b c d)))
        with (Some (storage_envelope a b c d))
  end.
  cbv iota.
  match goal with
  | |- context [try_catch ?b (fun _ => ret None)] =>
      assert (Hrec : try_catch b (fun _ => ret None) w2 = (Ok None, w2))
  end.
  { etransitivity;
      [eapply try_catch_throw; apply bind_throw;
       rewrite decryptData_storage_envelope, Hno; reflexivity
      | reflexivity]. }
  now rewrite (bind_ok _ _ _ _ _ Hrec).
Qed.

(** ** Changing the PIN *)

Section ChangePin.
Context `{Platform}.

(** [storePin] with the storage key resident. *)
Lemma storePin_resident q m w sk :
  currentStorageKey w = Some sk ->
  (64 <= List.length (mnemonicToSeed m))%nat ->
  let w1 := set_tick (tick w + 12) w in
  let w2 := set_tick (tick w1 + 12) w1 in
  let items : gmap string value :=
    list_to_map
      [("pinCode",
        envelope (fresh_iv w)
          (aes_gcm_encrypt (seedKey m) (fresh_iv w) (TextEncoder_encode q)));
       ("encryptedSeedPhrase",
        envelope (fresh_iv w1)
          (aes_gcm_encrypt (pinKey q (encryptionIterations w)) (fresh_iv w1)
             (TextEncoder_encode m)));
       ("storedSeedPhrase", VStr m);
       ("hasSeedPhrase", VBool true)] in
  storePin q m w
  = match secureStorageSet items sk w2 with
    | (Ok _, w3) => (Ok (VObj [("success", VBool true)]), w3)
    | (Throw e, w3) =>
        (Ok (VObj [("success", VBool false); ("error", VStr (message e))]), w3)
    end.
Proof.
  intros Hsk Hlen w1 w2 items.
  destruct (generateKeyFromSeedBytes_ok (mnemonicToSeed m) w Hlen) as [keys [Hk Hkey]].
  fold (seedKey m) in Hkey.
  assert (Hset : secureStorage_set items w2 = secureStorageSet items sk w2).
  { now apply secureStorage_set_resident. }
  unfold storePin.
  match goal with
  | |- try_catch ?body _ w = _ =>
      assert (Hrun : body w
                     = (secureStorage_set items ;; ret (VObj [("success", VBool true)])) w2)
  end.
  { rewrite (bind_ok _ _ _ _ _ (ensureStorageEncryption_resident m w sk Hsk)).
    cbv zeta. rewrite (bind_ok _ _ _ _ _ Hk). rewrite Hkey.
    rewrite (bind_ok _ _ _ _ _ (encryptData_eq _ _ w)).
    rewrite bind_get_world.
    rewrite (bind_ok _ _ _ _ _ (encryptData_eq _ _ _)).
    reflexivity. }
  unfold try_catch at 1. rewrite Hrun. unfold bind at 1. rewrite Hset.
  now destruct (secureStorageSet items sk w2) as [[[] | e] w3].
Qed.

Lemma pin_vault_frame pinK p m w w' :
  pin_vault pinK p m w ->
  currentStorageKey w' = currentStorageKey w ->
  storage w' = storage w ->
  pin_vault pinK p m w'.
Proof.
  intros [Hlen (sk & iv1 & iv2 & ivs1 & ivs2 & n1 & n2 & Hsk & Hp & He)] Ek Es.
  split; [exact Hlen |]. exists sk, iv1, iv2, ivs1, ivs2, n1, n2.
  rewrite Ek, Es. auto.
Qed.

End ChangePin.

(** X11. [storePin(p, m)] leaves the vault of [p] in the store with the
    storage key resident. In such a state, for [p] and [m] well-formed
    texts not beginning with U+FEFF, [changePin] with the current PIN [p]
    verifies it (which establishes a session) and stores the new PIN under
    the same phrase: when it reports success the vault is that of the new
    PIN, which [verifyPin] then accepts when it is such a text, returning
    the phrase; when the write fails it reports 'Failed to store new PIN'
    and the store is as it was. With any other candidate it reports
    'Current PIN is incorrect' and writes nothing, and so it does with the
    right PIN once the storage key is gone (after a logout, say). *)
Theorem changePin_outcome `{Platform} :
  aes_gcm_sound -> aes_gcm_authentic -> JSON_envelopes ->
  forall (p m : string) (w : World),
    plain_text p -> plain_text m ->
    pin_vault (pinKey p (encryptionIterations w)) p m w ->
    (forall w0,
       fst (storePin p m w0) = Ok (VObj [("success", VBool true)]) ->
       pin_vault (pinKey p (encryptionIterations (snd (storePin p m w0)))) p m
         (snd (storePin p m w0)))
    /\ (fault w (tick w) = false ->
        forall q, exists r w1,
          changePin p q w = (Ok r, w1)
          /\ (exists t, currentUserSession w1
                        = Some {| seedPhrase := m; timestamp := t; isActive := true |})
          /\ ((r = VObj [("success", VBool true)]
               /\ pin_vault (pinKey q (encryptionIterations w1)) q m w1
               /\ (plain_text q -> fault w1 (tick w1) = false ->
                   fst (verifyPin q w1)
                   = Ok (VObj [("verified", VBool true); ("seedPhrase", VStr m)])))
              \/ (r = VObj [("success", VBool false);
                            ("error", VStr "Failed to store new PIN")]
                  /\ storage w1 = storage w)))
    /\ (forall c q,
          c <> p ->
          changePin c q w
          = (Ok (VObj [("success", VBool false);
                       ("error", VStr "Current PIN is incorrect")]),
             set_tick (N.succ (tick w)) w))
    /\ (forall q w',
          currentStorageKey w' = None ->
          storage w' = storage w ->
          encryptionIterations w' = encryptionIterations w ->
          fault w' (tick w') = false ->
          currentStorageKey w <> Some (pinKey p (encryptionIterations w)) ->
          changePin p q w'
          = (Ok (VObj [("success", VBool false);
                       ("error", VStr "Current PIN is incorrect")]),
             set_tick (N.succ (tick w')) w')).
Proof.
  intros sound auth J p m w Tp Tm Hv.
  split; [| split; [| split]].
  - intros w0 Hs. now apply storePin_vault.
  - intros Hf q.
    pose proof (verifyPin_right p m w sound J Tp Tm Hv Hf) as Hver.
    set (wv := set_session _ _) in Hver.
    destruct Hv as [Hlen Hrest]. pose proof Hrest as (sk & _ & _ & _ & _ & _ & _ & Hsk & _ & _).
    assert (Hskv : currentStorageKey wv = Some sk) by exact Hsk.
    pose proof (storePin_resident q m wv sk Hskv Hlen) as Hstore. cbv zeta in Hstore.
    set (w2 := set_tick _ (set_tick _ wv)) in Hstore.
    set (items := list_to_map _) in Hstore.
    destruct (secureStorageSet items sk w2) as [[[] | e] w3] eqn:Hset.
    + exists (VObj [("success", VBool true)]), w3. split; [| split].
      * unfold changePin. erewrite try_catch_ok; [reflexivity |].
        rewrite (bind_ok _ _ _ _ _ Hver). cbn [field assoc String.eqb Ascii.eqb Bool.eqb
          truthy_opt truthy negb].
        cbv iota. erewrite bind_ok; [| reflexivity].
        now rewrite (bind_ok _ _ _ _ _ Hstore).
      * pose proof (keeps_run _ _ _ _ _ (keeps_secureStorageSet items sk) Hset) as Sv.
        destruct Sv as (Sv1 & _). rewrite Sv1. eexists. reflexivity.
      * left. split; [reflexivity |].
        assert (Hvault : pin_vault (pinKey q (encryptionIterations w3)) q m w3).
        { pose proof (storePin_vault q m wv) as Hsv. rewrite Hstore in Hsv.
          now apply Hsv. }
        split; [exact Hvault |].
        intros Tq Hf3. now rewrite (verifyPin_right q m w3 sound J Tq Tm Hvault Hf3).
    + exists (VObj [("success", VBool false); ("error", VStr "Failed to store new PIN")]), w3.
      split; [| split].
      * unfold changePin. erewrite try_catch_ok; [reflexivity |].
        rewrite (bind_ok _ _ _ _ _ Hver). cbn [field assoc String.eqb Ascii.eqb Bool.eqb
          truthy_opt truthy negb].
        cbv iota. erewrite bind_ok; [| reflexivity].
        now rewrite (bind_ok _ _ _ _ _ Hstore).
      * pose proof (keeps_run _ _ _ _ _ (keeps_secureStorageSet items sk) Hset) as Sv.
        destruct Sv as (Sv1 & _). rewrite Sv1. eexists. reflexivity.
      * right. split; [reflexivity |].
        now rewrite (secureStorageSet_failed _ _ _ _ _ Hset).
  - intros c q Hne.
    destruct (verifyPin_wrong p c m w sound auth J Tp Hv Hne) as [error Hver].
    unfold changePin. erewrite try_catch_ok; [reflexivity |].
    now rewrite (bind_ok _ _ _ _ _ Hver).
  - intros q w' Hk Hst Hit Hf Hne.
    destruct Hv as [_ (sk & iv1 & iv2 & ivs1 & ivs2 & n1 & n2 & Hsk & Hp & He)].
    rewrite <- Hst in Hp, He.
    assert (Hver := verifyPin_raw p sk _ _ ivs1 ivs2 n1 n2 w' Hk Hp He Hf).
    rewrite Hit in Hver.
    assert (Hkne : sk <> pinKey p (encryptionIterations w)) by congruence.
    unfold changePin. erewrite try_catch_ok; [reflexivity |].
    rewrite (bind_ok _ _ _ _ _ (Hver (fun iv data => auth _ _ iv data Hkne))).
    reflexivity.
Qed.

(** ** Login status and the session clock *)

Section Status.
Context `{Platform}.

Lemma isSessionValid_total w :
  exists b, isSessionValid w = (Ok b, snd (isSessionValid w)).
Proof.
  rewrite isSessionValid_spec.
  destruct (currentUserSession w) as [s |]; [| eexists; reflexivity].
  destruct (negb (isActive s)); [eexists; reflexivity |].
  destruct (sessionTimeout w <? clock w (tick w) - timestamp s); eexists; reflexivity.
Qed.

Lemma strict_eq_true_iff v : strict_eq_true v = true <-> v = Some (VBool true).
Proof.
  split; [| now intros ->].
  destruct v as [[| [|] | | | |] |]; simpl; intros E; try discriminate E; reflexivity.
Qed.

Lemma keeps_secureStorage_get keys : keeps same_state (secureStorage_get keys).
Proof. unfold secureStorage_get. keeps_tac. Qed.

End Status.

(** X12. [checkLoginStatus] never throws. It reports [isLoggedIn] exactly
    when the session is valid at the check, the store can be read, and the
    store does not carry [firstTimeSetup: true]: a first-run flag or an
    unreadable store reports a logged-out user even while the session is
    valid. The validity check it makes is the lazy one, so a timed-out
    session is cleared by asking for the status. *)
Theorem checkLoginStatus_isLoggedIn `{Platform} (w : World) :
  let keys := ["hasSeedPhrase"; "encryptedSeedPhrase"; "storedSeedPhrase";
               "firstTimeSetup"; "pinCode"; "credentials"] in
  let w1 := snd (isSessionValid w) in
  exists r,
    fst (checkLoginStatus w) = Ok r
    /\ (field r "isLoggedIn" = Some (VBool true) <->
        fst (isSessionValid w) = Ok true
        /\ exists result,
             fst (secureStorage_get keys w1) = Ok result
             /\ result !! "firstTimeSetup" <> Some (VBool true))
    /\ currentUserSession (snd (checkLoginStatus w)) = currentUserSession w1
    /\ currentStorageKey (snd (checkLoginStatus w)) = currentStorageKey w1.
Proof.
  intros keys w1. destruct (isSessionValid_total w) as [b Hb]. fold w1 in Hb.
  pose proof (keeps_secureStorage_get keys w1) as Sg.
  unfold checkLoginStatus. fold keys. rewrite Hb. cbn [fst].
  destruct (secureStorage_get keys w1) as [[result | e] w2] eqn:Hg; cbn [snd fst] in *.
  - destruct Sg as (_ & Sg1 & Sg2 & _).
    destruct (strict_eq_true (result !! "firstTimeSetup")) eqn:Hfirst.
    + eexists. split; [| split; [| split]].
      * erewrite try_catch_ok; [reflexivity |].
        rewrite (bind_ok _ _ _ _ _ Hb), (bind_ok _ _ _ _ _ Hg). now rewrite Hfirst.
      * apply strict_eq_true_iff in Hfirst. split; [discriminate |].
        intros (_ & result' & E & Hn). injection E as <-. now destruct Hn.
      * erewrite try_catch_ok;
          [| rewrite (bind_ok _ _ _ _ _ Hb), (bind_ok _ _ _ _ _ Hg); now rewrite Hfirst].
        exact Sg1.
      * erewrite try_catch_ok;
          [| rewrite (bind_ok _ _ _ _ _ Hb), (bind_ok _ _ _ _ _ Hg); now rewrite Hfirst].
        exact Sg2.
    + eexists. split; [| split; [| split]].
      * erewrite try_catch_ok; [reflexivity |].
        rewrite (bind_ok _ _ _ _ _ Hb), (bind_ok _ _ _ _ _ Hg). now rewrite Hfirst.
      * cbn [field login_status assoc String.eqb Ascii.eqb Bool.eqb].
        split.
        -- intros E. injection E as ->. split; [reflexivity |].
           exists result. split; [reflexivity |].
           intros Hn. apply strict_eq_true_iff in Hn. congruence.
        -- intros (E & _). injection E as ->. reflexivity.
      * erewrite try_catch_ok;
          [| rewrite (bind_ok _ _ _ _ _ Hb), (bind_ok _ _ _ _ _ Hg); now rewrite Hfirst].
        exact Sg1.
      * erewrite try_catch_ok;
          [| rewrite (bind_ok _ _ _ _ _ Hb), (bind_ok _ _ _ _ _ Hg); now rewrite Hfirst].
        exact Sg2.
  - destruct Sg as (_ & Sg1 & Sg2 & _).
    match goal with
    | |- context [try_catch ?body ?h w] =>
        assert (Hrun : try_catch body h w
                       = (Ok (login_status false false false false false), w2))
    end.
    { etransitivity;
        [eapply try_catch_throw; rewrite (bind_ok _ _ _ _ _ Hb); apply bind_throw; exact Hg
        | reflexivity]. }
    rewrite Hrun. cbn [fst snd].
    eexists. split; [reflexivity |]. split; [| split; assumption].
    split; [discriminate |]. intros (_ & result & E & _). discriminate E.
Qed.

(** X14. [refreshUserSession] restarts the clock of an active session
    without asking whether the session has expired: whatever the age of the
    session, a check made right after the refresh finds it valid as long as
    the timeout covers the time between the two calls. The phrase, the
    storage key and the store are untouched. *)
Theorem refreshUserSession_extends `{Platform} (w : World) (s : Session) :
  currentUserSession w = Some s ->
  isActive s = true ->
  let w1 := snd (refreshUserSession w) in
  currentUserSession w1
  = Some {| seedPhrase := seedPhrase s; timestamp := clock w (tick w); isActive := true |}
  /\ currentStorageKey w1 = currentStorageKey w
  /\ storage w1 = storage w
  /\ (fst (isSessionValid w1) = Ok true
      <-> clock w (N.succ (tick w)) - clock w (tick w) <= sessionTimeout w).
Proof.
  intros Hs Ha w1.
  assert (Hw : w1 = set_session
                      (Some {| seedPhrase := seedPhrase s;
                               timestamp := clock w (tick w);
                               isActive := isActive s |})
                      (set_tick (N.succ (tick w)) w)).
  { subst w1. unfold refreshUserSession. rewrite bind_get_world, Hs, Ha. reflexivity. }
  rewrite Hw, Ha. clear Hw w1.
  split; [reflexivity |]. split; [reflexivity |]. split; [reflexivity |].
  rewrite isSessionValid_spec. cbn.
  destruct (sessionTimeout w <? clock w (N.succ (tick w)) - clock w (tick w)) eqn:E;
    cbn [fst].
  - apply Z.ltb_lt in E. split; [discriminate | lia].
  - apply Z.ltb_ge in E. split; [lia | reflexivity].
Qed.

(** ** Storing and retrieving credentials *)

#[local] Instance same_entry_preorder key : PreOrder (same_entry key).
Proof.
  split.
  - intros w. split; reflexivity.
  - intros a b c [E1 S1] [E2 S2]. split; [congruence | etransitivity; eassumption].
Qed.

Lemma same_state_entry key w w' : same_state w w' -> same_entry key w w'.
Proof.
  intros S. split; [now destruct S as [-> _] | now apply same_state_vars].
Qed.

Ltac entry_tac :=
  repeat first
    [ solve [eauto with keeps]
    | apply (keeps_weaken same_state (same_entry _) _ (same_state_entry _));
      solve [keeps_tac]
    | keeps_step ].

Section StoreAndGet.
Context `{Platform}.

Lemma keeps_entry_chrome_storage_set key items :
  items !! key = None -> keeps (same_entry key) (chrome_storage_set items).
Proof.
  intros Hi w. split; [| apply keeps_chrome_storage_set].
  unfold chrome_storage_set. destruct (fault w (tick w)); [reflexivity |].
  simpl. now rewrite lookup_union_r.
Qed.

Lemma keeps_entry_secureStorageSet key items k :
  items !! key = None ->
  key <> "hasEncryptedStorage" -> key <> "storageVersion" ->
  keeps (same_entry key) (secureStorageSet items k).
Proof.
  intros Hi N1 N2 w. split; [| apply keeps_secureStorageSet].
  destruct (secureStorageSet items k w) as [[[] | e] w1] eqn:Hr; cbn [snd].
  - destruct (secureStorageSet_stored _ _ _ _ Hr) as (_ & _ & _ & _ & _ & Hframe).
    now apply Hframe.
  - now rewrite (secureStorageSet_failed _ _ _ _ _ Hr).
Qed.

Lemma keeps_entry_secureStorage_set key items :
  items !! key = None ->
  key <> "hasEncryptedStorage" -> key <> "storageVersion" ->
  keeps (same_entry key) (secureStorage_set items).
Proof.
  intros Hi N1 N2. unfold secureStorage_set.
  apply keeps_bind; [typeclasses eauto | apply keeps_get_world; typeclasses eauto |].
  intros w0. destruct (currentStorageKey w0).
  - now apply keeps_entry_secureStorageSet.
  - now apply keeps_entry_chrome_storage_set.
Qed.

Lemma keeps_entry_createBackupRecord key n :
  key <> "backups" -> key <> "currentBackupId" ->
  key <> "hasEncryptedStorage" -> key <> "storageVersion" ->
  keeps (same_entry key) (createBackupRecord n).
Proof.
  intros N1 N2 N3 N4. unfold createBackupRecord.
  apply keeps_try_catch; [typeclasses eauto | | intros e; apply keeps_throw; typeclasses eauto].
  apply keeps_bind; [typeclasses eauto | |].
  { apply (keeps_weaken same_state (same_entry _) _ (same_state_entry _)).
    apply keeps_secureStorage_get. }
  intros backupResult. cbv zeta.
  apply keeps_bind; [typeclasses eauto | |].
  { apply (keeps_weaken same_state (same_entry _) _ (same_state_entry _)).
    apply keeps_Date_now. }
  intros id.
  apply keeps_bind; [typeclasses eauto | |].
  { apply (keeps_weaken same_state (same_entry _) _ (same_state_entry _)).
    apply keeps_Date_now. }
  intros now.
  apply keeps_bind; [typeclasses eauto | apply keeps_spread; typeclasses eauto |].
  intros rest.
  apply keeps_entry_secureStorage_set; [| assumption | assumption].
  simpl. rewrite lookup_insert_ne by congruence.
  rewrite lookup_insert_ne by congruence. apply lookup_empty.
Qed.

(** How the secure storage reads back a value it stored. *)
Lemma secureStorage_get_stored keys key e w x :
  aes_gcm_sound ->
  fault w (tick w) = false ->
  In key keys -> includes skipEncryption key = false ->
  storage w !! key = Some x ->
  stored_as (currentStorageKey w) e x ->
  (forall key', In key' keys -> key' <> key -> storage w !! key' = None) ->
  exists result,
    secureStorage_get keys w = (Ok result, set_tick (N.succ (tick w)) w)
    /\ result !! key
       = Some (match currentStorageKey w with
               | Some _ => read_back e
               | None => e
               end).
Proof.
  intros sound Hf Hk Hskip Hx Hst Hothers.
  unfold secureStorage_get. rewrite bind_get_world.
  destruct (currentStorageKey w) as [sk |]; simpl in Hst.
  - destruct Hst as (iv & now & ->).
    destruct (secureStorageGet_reads sk keys w Hf) as (result & Hget & Hres & _).
    { intros key' v Hk' Hv _.
      destruct (string_dec key' key) as [-> | Hne].
      - rewrite Hx in Hv. injection Hv as <-. eexists. now apply reads_envelope.
      - rewrite (Hothers key' Hk' Hne) in Hv. discriminate. }
    exists result. split; [exact Hget |].
    apply (proj2 (Hres key _ Hk Hx) _ Hskip). now apply reads_envelope.
  - subst x. eexists. split.
    + unfold chrome_storage_get. rewrite Hf. reflexivity.
    + rewrite lookup_restrict, bool_decide_eq_true_2 by now apply list_elem_of_In.
      exact Hx.
Qed.

Lemma secureStorage_set_stored items key e w w1 :
  secureStorage_set items w = (Ok tt, w1) ->
  items !! key = Some e -> includes skipEncryption key = false ->
  exists x, storage w1 !! key = Some x /\ stored_as (currentStorageKey w) e x.
Proof.
  intros Hr Hi Hskip. unfold secureStorage_set in Hr. rewrite bind_get_world in Hr.
  destruct (currentStorageKey w) as [sk |]; simpl.
  - destruct (secureStorageSet_stored _ _ _ _ Hr) as (_ & _ & _ & _ & Henv & _).
    destruct (Henv key e Hi Hskip) as (iv & now & Hx). eauto.
  - unfold chrome_storage_set in Hr. destruct (fault w (tick w)); [discriminate |].
    injection Hr as <-. simpl. exists e. split; [| reflexivity].
    now apply lookup_union_Some_l.
Qed.

(** What [storeCredentials] leaves in an available store. *)
Lemma storeCredentials_retry_stamped attempts credentials m timestamp retryCount w :
  bip39_seed_length ->
  available w ->
  exists stamp iv x w1,
    storeCredentials_retry attempts credentials m timestamp retryCount w
    = (Ok (VObj [("success", VBool true)]), w1)
    /\ same_vars w w1
    /\ storage w1 !! "backupCID" = storage w !! "backupCID"
    /\ storage w1 !! "credentials" = Some x
    /\ stored_as (currentStorageKey w)
         (envelope iv
            (aes_gcm_encrypt (seedKey m) iv
               (TextEncoder_encode
                  (JSON_stringify (credentials_document credentials stamp))))) x
    /\ (forall ts, timestamp = Some ts -> ts <> "" -> stamp = ts)
    /\ (timestamp = None -> stamp = toISOString (clock w (tick w))).
Proof.
  intros seed64 Ha.
  destruct (generateKeyFromSeedBytes_ok (mnemonicToSeed m) w) as [keys [Hk Hkey]].
  { rewrite seed64. lia. }
  fold (seedKey m) in Hkey.
  assert (Hstamp : exists stamp ws,
             match timestamp with
             | Some t => if String.eqb t "" then
                           let* now := Date_now in ret (toISOString now)
                         else ret t
             | None => let* now := Date_now in ret (toISOString now)
             end w = (Ok stamp, ws)
             /\ same_state w ws
             /\ (forall ts, timestamp = Some ts -> ts <> "" -> stamp = ts)
             /\ (timestamp = None -> stamp = toISOString (clock w (tick w)))).
  { destruct timestamp as [t |].
    - destruct (String.eqb t "") eqn:Et.
      + eexists _, _. split; [reflexivity |]. split; [apply same_state_tick |].
        split; [| discriminate].
        intros ts [= <-] Hts. apply String.eqb_neq in Hts. congruence.
      + eexists _, _. split; [reflexivity |]. split; [apply same_state_refl |].
        split; [| discriminate]. now intros ts [= <-] _.
    - eexists _, _. split; [reflexivity |]. split; [apply same_state_tick |].
      split; [discriminate | reflexivity]. }
  destruct Hstamp as (stamp & ws & Hstamp & Ss & Hts & Hnow).
  pose proof Ss as (Sst & _ & Sk & _ & _ & _ & _ & Sf).
  assert (Has : available ws) by (intros n; rewrite Sf; apply Ha).
  set (text := JSON_stringify (credentials_document credentials stamp)).
  set (w2 := set_tick (tick ws + 12)%N ws).
  assert (Ha2 : available w2) by exact Has.
  set (e := envelope (fresh_iv ws)
              (aes_gcm_encrypt (encryptionKey keys) (fresh_iv ws)
                 (TextEncoder_encode text))).
  set (items := (list_to_map [("credentials", e); ("hasSeedPhrase", VBool true)]
                 : gmap string value)).
  destruct (secureStorage_set_available items w2 Ha2) as (w3 & Hset & S3).
  destruct (secureStorage_set_stored items "credentials" e w2 w3 Hset eq_refl eq_refl)
    as (x & Hx & Hst).
  assert (Hcid : storage w3 !! "backupCID" = storage w !! "backupCID").
  { pose proof (keeps_entry_secureStorage_set "backupCID" items) as Hke.
    specialize (Hke eq_refl ltac:(discriminate) ltac:(discriminate) w2).
    rewrite Hset in Hke. cbn [snd] in Hke. destruct Hke as [-> _].
    change (storage w2) with (storage ws). now rewrite Sst. }
  set (backup := let* n := js_length credentials in createBackupRecord n).
  assert (Kb : forall key, key <> "backups" -> key <> "currentBackupId" ->
                 key <> "hasEncryptedStorage" -> key <> "storageVersion" ->
                 keeps (same_entry key) (try_catch backup (fun _ => ret tt))).
  { intros key N1 N2 N3 N4.
    apply keeps_try_catch; [typeclasses eauto | | intros; apply keeps_ret; typeclasses eauto].
    apply keeps_bind; [typeclasses eauto | apply keeps_js_length; typeclasses eauto |].
    intros n. now apply keeps_entry_createBackupRecord. }
  destruct (try_catch_swallow backup w3) as [w4 Hbackup].
  pose proof (Kb "credentials" ltac:(discriminate) ltac:(discriminate)
                ltac:(discriminate) ltac:(discriminate) w3) as [Kc Sv4].
  pose proof (Kb "backupCID" ltac:(discriminate) ltac:(discriminate)
                ltac:(discriminate) ltac:(discriminate) w3) as [Kd _].
  rewrite Hbackup in Kc, Kd, Sv4. cbn [snd] in Kc, Kd, Sv4.
  exists stamp, (fresh_iv ws), x, w4.
  split; [| split; [| split; [| split; [| split; [| split]]]]].
  - destruct attempts; unfold storeCredentials_retry; fold storeCredentials_retry;
      (erewrite try_catch_ok; [reflexivity |]);
      rewrite (bind_ok _ _ _ _ _ Hk); cbv zeta;
      rewrite (bind_ok _ _ _ _ _ Hstamp);
      rewrite (bind_ok _ _ _ _ _ (encryptData_eq _ _ ws));
      (erewrite bind_ok;
       [| erewrite try_catch_ok; [reflexivity |];
          fold (credentials_document credentials stamp); fold text; fold e; fold items;
          fold w2; now rewrite (bind_ok _ _ _ _ _ Hset)]);
      cbv iota; fold backup; now rewrite (bind_ok _ _ _ _ _ Hbackup).
  - etransitivity; [apply (same_state_vars _ _ Ss) |].
    etransitivity; [| exact Sv4]. exact S3.
  - congruence.
  - congruence.
  - unfold e in Hst. rewrite Hkey in Hst.
    change (currentStorageKey w2) with (currentStorageKey ws) in Hst.
    now rewrite Sk in Hst.
  - exact Hts.
  - exact Hnow.
Qed.

Lemma storeCredentials_retry_stored attempts credentials m ts retryCount w :
  bip39_seed_length ->
  available w ->
  ts <> "" ->
  exists iv x w1,
    storeCredentials_retry attempts credentials m (Some ts) retryCount w
    = (Ok (VObj [("success", VBool true)]), w1)
    /\ same_vars w w1
    /\ storage w1 !! "backupCID" = storage w !! "backupCID"
    /\ storage w1 !! "credentials" = Some x
    /\ stored_as (currentStorageKey w)
         (envelope iv
            (aes_gcm_encrypt (seedKey m) iv
               (TextEncoder_encode
                  (JSON_stringify (credentials_document credentials ts))))) x.
Proof.
  intros seed64 Ha Hts.
  destruct (storeCredentials_retry_stamped attempts credentials m (Some ts) retryCount w
              seed64 Ha) as (stamp & iv & x & w1 & Hr & Sv & Hc & Hx & Hst & Hstamp & _).
  rewrite (Hstamp ts eq_refl Hts) in Hst. exists iv, x, w1. auto.
Qed.


End StoreAndGet.

Section Retrieve.
Context `{Platform}.

(** [getCredentials] on a blob that the key of the phrase does not open. *)
Lemma getCredentials_undecryptable seedPhrase w keys stored w1 blob e :
  seedPhrase <> "" ->
  validateSeedPhrase seedPhrase = true ->
  generateKeyFromSeedBytes (mnemonicToSeed seedPhrase) w = (Ok keys, w) ->
  secureStorage_get ["credentials"; "backupCID"] w = (Ok stored, w1) ->
  if_truthy (stored !! "credentials") = Some blob ->
  decryptData blob (encryptionKey keys) w1 = (Throw e, w1) ->
  getCredentials seedPhrase w
  = (Ok (empty_result (Some ("Failed to decrypt credentials: " +:+ message e))), w1).
Proof.
  intros Hne Hv Ek Hs Hb Ed.
  unfold getCredentials.
  apply String.eqb_neq in Hne. rewrite Hne, Hv. cbn [negb]. cbv iota.
  erewrite try_catch_ok; [reflexivity |].
  erewrite try_catch_ok; [reflexivity |].
  rewrite (bind_ok _ _ _ _ _ Ek). cbv zeta. rewrite (bind_ok _ _ _ _ _ Hs), Hb.
  etransitivity; [eapply try_catch_throw; apply bind_throw; exact Ed | reflexivity].
Qed.

(** [getCredentials] when the store holds no credentials. *)
Lemma getCredentials_nothing seedPhrase w keys stored w1 :
  seedPhrase <> "" ->
  validateSeedPhrase seedPhrase = true ->
  generateKeyFromSeedBytes (mnemonicToSeed seedPhrase) w = (Ok keys, w) ->
  secureStorage_get ["credentials"; "backupCID"] w = (Ok stored, w1) ->
  if_truthy (stored !! "credentials") = None ->
  getCredentials seedPhrase w = (Ok (empty_result None), w1).
Proof.
  intros Hne Hv Ek Hs Hb.
  unfold getCredentials.
  apply String.eqb_neq in Hne. rewrite Hne, Hv. cbn [negb]. cbv iota.
  erewrite try_catch_ok; [reflexivity |].
  erewrite try_catch_ok; [reflexivity |].
  rewrite (bind_ok _ _ _ _ _ Ek). cbv zeta. now rewrite (bind_ok _ _ _ _ _ Hs), Hb.
Qed.

End Retrieve.

Section ImportStore.
Context `{Platform}.



End ImportStore.


(** X15. What [storeCredentials] stores under a valid mnemonic,
    [getCredentials] returns under the same mnemonic: after
    [storeCredentials(list, m, ts)] on a store that accepts the writes,
    [getCredentials(m)] is [{credentials: list, walletSeeds: []}], whether
    or not a storage key is resident (JSON reading back the document and
    the envelopes it wrote). *)
Theorem storeCredentials_getCredentials `{Platform} :
  aes_gcm_sound -> JSON_envelopes -> bip39_seed_length ->
  forall (credentials : list value) (m ts : string) (w : World),
    m <> "" -> validateSeedPhrase m = true -> ts <> "" ->
    available w ->
    storage w !! "backupCID" = None ->
    JSON_parse (JSON_stringify (credentials_document (VArr credentials) ts))
    = Some (credentials_document (VArr credentials) ts) ->
    let w1 := snd (storeCredentials (VArr credentials) m (Some ts) 0 w) in
    fst (storeCredentials (VArr credentials) m (Some ts) 0 w)
    = Ok (VObj [("success", VBool true)])
    /\ fst (getCredentials m w1)
       = Ok (VObj [("credentials", VArr credentials); ("walletSeeds", VArr [])]).
Proof.
  intros sound J seed64 credentials m ts w Hne Hv Hts Ha Hcid HJ w1. subst w1.
  unfold storeCredentials.
  destruct (storeCredentials_retry_stored (3 - 0) (VArr credentials) m ts 0%nat w
              seed64 Ha Hts) as (iv & x & w1 & Hstore & Sv & Hc & Hx & Hst).
  rewrite Hstore. cbn [fst snd]. split; [reflexivity |].
  pose proof Sv as (_ & Sk & _ & _ & _ & _ & Sf).
  assert (Hf : fault w1 (tick w1) = false) by (rewrite Sf; apply Ha).
  rewrite <- Sk in Hst.
  set (text := JSON_stringify (credentials_document (VArr credentials) ts)) in *.
  set (e := envelope iv (aes_gcm_encrypt (seedKey m) iv (TextEncoder_encode text))) in *.
  destruct (secureStorage_get_stored ["credentials"; "backupCID"] "credentials" e w1 x
              sound Hf) as (result & Hget & Hres); try assumption;
    [simpl; tauto | reflexivity | |].
  { intros key' [<- | [<- | []]] Hk'; [now destruct Hk' | congruence]. }
  assert (Hblob : result !! "credentials" = Some e).
  { rewrite Hres. destruct (currentStorageKey w1); [| reflexivity].
    unfold e. now rewrite revive_envelope. }
  destruct (generateKeyFromSeedBytes_ok (mnemonicToSeed m) w1) as [keys [Hk Hkey]].
  { rewrite seed64. lia. }
  fold (seedKey m) in Hkey.
  rewrite (getCredentials_parsed m w1 keys result (set_tick (N.succ (tick w1)) w1) e text
             (credentials_document (VArr credentials) ts) Hne Hv);
    [| now rewrite Hk | exact Hget | now rewrite Hblob
     | rewrite Hkey; unfold e; now rewrite decryptData_envelope, sound, (decode_parsed text _ HJ)
     | exact HJ].
  unfold credentials_document. now rewrite shape_object.
Qed.

(** X16. Credentials stored under one mnemonic are not returned under
    another: when the two phrases derive different keys and AES-GCM rejects
    a ciphertext under another key, [getCredentials] with the other (valid)
    phrase returns an empty list with the error 'Failed to decrypt
    credentials: ...'. *)
Theorem getCredentials_other_mnemonic `{Platform} :
  aes_gcm_sound -> aes_gcm_authentic -> JSON_envelopes -> bip39_seed_length ->
  forall (credentials : value) (m m' ts : string) (w : World),
    m' <> "" -> validateSeedPhrase m' = true -> ts <> "" ->
    seedKey m <> seedKey m' ->
    available w ->
    storage w !! "backupCID" = None ->
    let w1 := snd (storeCredentials credentials m (Some ts) 0 w) in
    fst (getCredentials m' w1)
    = Ok (empty_result
            (Some ("Failed to decrypt credentials: "
                   +:+ message (HostError OperationError)))).
Proof.
  intros sound auth J seed64 credentials m m' ts w Hne Hv Hts Hkeys Ha Hcid w1. subst w1.
  unfold storeCredentials.
  destruct (storeCredentials_retry_stored (3 - 0) credentials m ts 0%nat w
              seed64 Ha Hts) as (iv & x & w1 & Hstore & Sv & Hc & Hx & Hst).
  rewrite Hstore. cbn [snd].
  pose proof Sv as (_ & Sk & _ & _ & _ & _ & Sf).
  assert (Hf : fault w1 (tick w1) = false) by (rewrite Sf; apply Ha).
  rewrite <- Sk in Hst.
  set (text := JSON_stringify (credentials_document credentials ts)) in *.
  set (e := envelope iv (aes_gcm_encrypt (seedKey m) iv (TextEncoder_encode text))) in *.
  destruct (secureStorage_get_stored ["credentials"; "backupCID"] "credentials" e w1 x
              sound Hf) as (result & Hget & Hres); try assumption;
    [simpl; tauto | reflexivity | |].
  { intros key' [<- | [<- | []]] Hk'; [now destruct Hk' | congruence]. }
  assert (Hblob : result !! "credentials" = Some e).
  { rewrite Hres. destruct (currentStorageKey w1); [| reflexivity].
    unfold e. now rewrite revive_envelope. }
  destruct (generateKeyFromSeedBytes_ok (mnemonicToSeed m') w1) as [keys [Hk Hkey]].
  { rewrite seed64. lia. }
  fold (seedKey m') in Hkey.
  rewrite (getCredentials_undecryptable m' w1 keys result (set_tick (N.succ (tick w1)) w1)
             e (HostError OperationError)
             Hne Hv Hk Hget); [reflexivity | now rewrite Hblob |].
  rewrite Hkey. unfold e. rewrite decryptData_envelope.
  now rewrite (auth _ _ _ _ Hkeys).
Qed.

(** X17. [getCredentials] never throws; it answers with an empty list and
    the error 'Invalid seed phrase' for a phrase that is not a valid
    mnemonic, without reading the store; with the error of the store when
    the store cannot be read; and with an empty list and no error when the
    store holds no credentials. Called without a phrase it returns the
    stored blob itself, still encrypted under the phrase, as [credentials]. *)
Theorem getCredentials_edge_cases `{Platform} (m : string) (w : World) :
  (exists r, fst (getCredentials m w) = Ok r)
  /\ (m <> "" -> validateSeedPhrase m = false ->
      getCredentials m w = (Ok (empty_result (Some "Invalid seed phrase")), w))
  /\ (m <> "" -> validateSeedPhrase m = true ->
      (64 <= List.length (mnemonicToSeed m))%nat ->
      fault w (tick w) = true ->
      fst (getCredentials m w)
      = Ok (empty_result (Some (message (HostError LastError)))))
  /\ (m <> "" -> validateSeedPhrase m = true ->
      (64 <= List.length (mnemonicToSeed m))%nat ->
      fault w (tick w) = false ->
      storage w !! "credentials" = None -> storage w !! "backupCID" = None ->
      getCredentials m w = (Ok (empty_result None), set_tick (N.succ (tick w)) w))
  /\ (m = "" -> aes_gcm_sound -> JSON_envelopes ->
      fault w (tick w) = false ->
      forall iv data x,
        storage w !! "credentials" = Some x ->
        stored_as (currentStorageKey w) (envelope iv data) x ->
        fst (getCredentials m w)
        = Ok (VObj [("credentials", envelope iv data); ("walletSeeds", VArr [])])).
Proof.
  split; [| split; [| split; [| split]]].
  - unfold getCredentials, try_catch at 1.
    match goal with
    | |- context [match ?b w with _ => _ end] => destruct (b w) as [[r | e] w1]
    end; eexists; reflexivity.
  - intros Hne Hv. unfold getCredentials.
    apply String.eqb_neq in Hne. rewrite Hne, Hv. reflexivity.
  - intros Hne Hv Hlen Hf.
    destruct (generateKeyFromSeedBytes_ok (mnemonicToSeed m) w Hlen) as [keys [Hk _]].
    assert (Hget : secureStorage_get ["credentials"; "backupCID"] w
                   = (Throw (HostError LastError), set_tick (N.succ (tick w)) w)).
    { unfold secureStorage_get. rewrite bind_get_world.
      destruct (currentStorageKey w) as [sk |].
      - unfold secureStorageGet. rewrite try_rethrow.
        apply bind_throw. unfold chrome_storage_get. now rewrite Hf.
      - unfold chrome_storage_get. now rewrite Hf. }
    unfold getCredentials. apply String.eqb_neq in Hne. rewrite Hne, Hv.
    cbn [negb]. cbv iota.
    erewrite try_catch_ok; [reflexivity |].
    etransitivity;
      [eapply try_catch_throw; rewrite (bind_ok _ _ _ _ _ Hk); cbv zeta;
       apply bind_throw; exact Hget
      | reflexivity].
  - intros Hne Hv Hlen Hf Hc Hb.
    destruct (generateKeyFromSeedBytes_ok (mnemonicToSeed m) w Hlen) as [keys [Hk _]].
    assert (Hget : exists result,
               secureStorage_get ["credentials"; "backupCID"] w
               = (Ok result, set_tick (N.succ (tick w)) w)
               /\ result !! "credentials" = None).
    { unfold secureStorage_get. rewrite bind_get_world.
      destruct (currentStorageKey w) as [sk |].
      - destruct (secureStorageGet_reads sk ["credentials"; "backupCID"] w Hf)
          as (result & Hget & _ & Hnone).
        { intros key v [<- | [<- | []]] Hs; congruence. }
        exists result. split; [exact Hget |]. apply Hnone. now left.
      - eexists. split; [unfold chrome_storage_get; now rewrite Hf |].
        rewrite lookup_restrict, Hc. now destruct (bool_decide _). }
    destruct Hget as (result & Hget & Hr).
    apply (getCredentials_nothing m w keys result (set_tick (N.succ (tick w)) w) Hne Hv Hk Hget). now rewrite Hr.
  - intros -> sound J Hf iv data x Hx Hst.
    destruct (secureStorage_get_stored ["credentials"] "credentials" (envelope iv data) w x
                sound Hf) as (result & Hget & Hres); try assumption;
      [simpl; tauto | reflexivity | |].
    { intros key' [<- | []] Hk'. now destruct Hk'. }
    assert (Hblob : result !! "credentials" = Some (envelope iv data)).
    { rewrite Hres. destruct (currentStorageKey w); [| reflexivity].
      now rewrite revive_envelope. }
    assert (Hws : result !! "walletSeeds" = None).
    { unfold secureStorage_get in Hget. rewrite bind_get_world in Hget.
      destruct (currentStorageKey w) as [sk |].
      - destruct (secureStorageGet_reads sk ["credentials"] w Hf)
          as (result' & Hget' & _ & Hnone).
        { intros key v [<- | []] Hs _. rewrite Hx in Hs. injection Hs as <-.
          simpl in Hst. destruct Hst as (iv' & now & ->).
          eexists. now apply reads_envelope. }
        rewrite Hget' in Hget. injection Hget as <-. apply Hnone. right.
        simpl. intros [E | []]. discriminate E.
      - unfold chrome_storage_get in Hget. rewrite Hf in Hget. injection Hget as <-.
        rewrite lookup_restrict. rewrite bool_decide_eq_false_2; [reflexivity |].
        rewrite list_elem_of_In. simpl. intros [E | []]. discriminate E. }
    unfold getCredentials. rewrite String.eqb_refl.
    erewrite try_catch_ok; [reflexivity |].
    erewrite try_catch_ok; [reflexivity |].
    rewrite (bind_ok _ _ _ _ _ Hget), Hblob, Hws. reflexivity.
Qed.

(** ** Import: the ways it fails *)

Section ImportFailures.
Context `{Platform}.

Lemma filterM_is_valid_throws records w :
  (exists r, In r records /\ record_ok r = None) ->
  filterM is_valid records w = (Throw (HostError TypeError), w).
Proof.
  induction records as [| r records IH]; intros (r0 & Hin & Hr0); [now destruct Hin |].
  change (filterM is_valid (r :: records))
    with (let* keep := is_valid r in
          let* rest := filterM is_valid records in
          ret (if keep then r :: rest else rest)).
  destruct (record_ok r) as [b |] eqn:Er.
  - assert (E1 : is_valid r w = (Ok b, w)) by now rewrite is_valid_eq, Er.
    rewrite (bind_ok _ _ _ _ _ E1). apply bind_throw. apply IH.
    destruct Hin as [-> | Hin]; [congruence | eauto].
  - apply bind_throw. now rewrite is_valid_eq, Er.
Qed.

End ImportFailures.

(** X18. [importCredentials] never throws: it reports as
    [{success: false, error}] and leaves the world as it was when the
    format is not 'json' ('Unsupported import format: ' and the format),
    when the data is not JSON, when the batch is not an array, and when a
    record of the batch has a required field that is truthy but not a
    string, [.trim()] raising a TypeError that fails the whole batch. *)
Theorem importCredentials_failures `{Platform}
    (data m format : string) (options : value) (w : World) :
  (String.eqb format "json" = false ->
   importCredentials data m format options w
   = (Ok (VObj [("success", VBool false);
                ("error", VStr ("Unsupported import format: " +:+ format))]), w))
  /\ (JSON_parse data = None ->
      importCredentials data m "json" options w
      = (Ok (VObj [("success", VBool false);
                   ("error", VStr (message (HostError SyntaxError)))]), w))
  /\ (forall parsed,
        JSON_parse data = Some parsed -> parsed <> VNull ->
        (forall records, batch_of parsed <> VArr records) ->
        importCredentials data m "json" options w
        = (Ok (VObj [("success", VBool false);
                     ("error", VStr (message (HostError TypeError)))]), w))
  /\ (forall parsed records,
        JSON_parse data = Some parsed -> parsed <> VNull ->
        batch_of parsed = VArr records ->
        (exists r, In r records /\ record_ok r = None) ->
        importCredentials data m "json" options w
        = (Ok (VObj [("success", VBool false);
                     ("error", VStr (message (HostError TypeError)))]), w)).
Proof.
  assert (Eimp : forall parsed,
    JSON_parse data = Some parsed -> parsed <> VNull ->
    (match JSON_parse data with
     | None => throw (HostError SyntaxError)
     | Some parsed =>
         let* c := prop parsed "credentials" in
         match if_truthy c with
         | Some x => ret x
         | None =>
             let* p := prop parsed "passwords" in
             ret (or_empty p)
         end
     end) w
    = (Ok (batch_of parsed), w)).
  { intros parsed Hparse Hnull. rewrite Hparse.
    rewrite (bind_ok _ _ _ _ _ (prop_defined parsed "credentials" w Hnull)).
    unfold batch_of.
    destruct (if_truthy (field parsed "credentials")); [reflexivity |].
    now rewrite (bind_ok _ _ _ _ _ (prop_defined parsed "passwords" w Hnull)). }
  split; [| split; [| split]].
  - intros Hf. unfold importCredentials, try_catch at 1. now rewrite Hf.
  - intros Hp. unfold importCredentials.
    etransitivity;
      [eapply try_catch_throw;
       change (String.eqb "json" "json") with true; cbv iota;
       apply bind_throw; rewrite Hp; reflexivity
      | reflexivity].
  - intros parsed Hp Hn Hb. unfold importCredentials.
    etransitivity;
      [eapply try_catch_throw;
       change (String.eqb "json" "json") with true; cbv iota;
       rewrite (bind_ok _ _ _ _ _ (Eimp parsed Hp Hn));
       apply bind_throw;
       destruct (batch_of parsed) as [| | | | records |];
       first [reflexivity | now destruct (Hb records)]
      | reflexivity].
  - intros parsed records Hp Hn Hb Hbad. unfold importCredentials.
    etransitivity;
      [eapply try_catch_throw;
       change (String.eqb "json" "json") with true; cbv iota;
       rewrite (bind_ok _ _ _ _ _ (Eimp parsed Hp Hn)); rewrite Hb;
       (erewrite bind_ok; [| reflexivity]);
       apply bind_throw; now apply filterM_is_valid_throws
      | reflexivity].
Qed.

(** ** The backup log *)

Section BackupLog.
Context `{Platform}.

Lemma getBackups_eq w :
  getBackups w
  = (Ok (if fault w (tick w) then VArr []
         else match storage w !! "backups" with
              | Some v => v
              | None => VArr []
              end), set_tick (N.succ (tick w)) w).
Proof.
  unfold getBackups, try_catch, bind, chrome_storage_get.
  destruct (fault w (tick w)); [reflexivity |]. cbn [ret].
  rewrite lookup_restrict, bool_decide_eq_true_2 by (apply list_elem_of_In; now left).
  reflexivity.
Qed.

End BackupLog.

(** X19. On a store that accepts the writes, [createBackupRecord] puts the
    new record in front of the records it read and keeps the first ten: the
    log never grows beyond ten records, the newest first, and
    [currentBackupId] names the new record. The record's [id] and
    [timestamp] are two readings of the clock. [getBackups], which reads
    the store directly, returns that list only when no storage key is
    resident; with one it returns the envelope the storage layer wrote. *)
Theorem createBackupRecord_log `{Platform}
    (credentialCount : option value) (old : list value)
    (result : gmap string value) (w w0 : World) :
  available w ->
  secureStorage_get ["backups"] w = (Ok result, w0) ->
  or_empty (result !! "backups") = VArr old ->
  let record :=
    VObj ([("id", VStr (Number_toString (clock w0 (tick w0))));
           ("timestamp", VNum (clock w0 (N.succ (tick w0))))]
          ++ match credentialCount with
             | Some c => [("credentialCount", c)]
             | None => []
             end) in
  let log := firstn 10 (record :: old) in
  exists w1 x,
    createBackupRecord credentialCount w = (Ok tt, w1)
    /\ (List.length log <= 10)%nat
    /\ List.length log = Nat.min 10 (S (List.length old))
    /\ storage w1 !! "backups" = Some x
    /\ stored_as (currentStorageKey w) (VArr log) x
    /\ (exists y, storage w1 !! "currentBackupId" = Some y
                  /\ stored_as (currentStorageKey w)
                       (VStr (Number_toString (clock w0 (tick w0)))) y)
    /\ fst (getBackups w1) = Ok x.
Proof.
  intros Ha Hget Hold record log.
  pose proof (keeps_run _ _ _ _ _ (keeps_secureStorage_get ["backups"]) Hget) as S0.
  set (wa := set_tick (N.succ (tick w0)) w0).
  set (wb := set_tick (N.succ (tick wa)) wa).
  assert (Hab : available wb).
  { intros n. destruct S0 as (_ & _ & _ & _ & _ & _ & _ & Sf).
    change (fault wb) with (fault w0). rewrite Sf. apply Ha. }
  set (items := (list_to_map
                   [("backups", VArr log);
                    ("currentBackupId", VStr (Number_toString (clock w0 (tick w0))))]
                 : gmap string value)).
  destruct (secureStorage_set_available items wb Hab) as (w1 & Hset & S1).
  assert (Hkey : currentStorageKey wb = currentStorageKey w).
  { destruct S0 as (_ & _ & Sk & _). exact Sk. }
  destruct (secureStorage_set_stored items "backups" (VArr log) wb w1 Hset eq_refl eq_refl)
    as (x & Hx & Hst).
  destruct (secureStorage_set_stored items "currentBackupId" _ wb w1 Hset eq_refl eq_refl)
    as (y & Hy & Hsty).
  rewrite Hkey in Hst, Hsty.
  exists w1, x. split; [| split; [| split; [| split; [| split; [| split]]]]].
  - unfold createBackupRecord. rewrite try_rethrow.
    rewrite (bind_ok _ _ _ _ _ Hget). cbv zeta. rewrite Hold.
    assert (E1 : Date_now w0 = (Ok (clock w0 (tick w0)), wa)) by reflexivity.
    assert (E2 : Date_now wa = (Ok (clock w0 (N.succ (tick w0))), wb)) by reflexivity.
    rewrite (bind_ok _ _ _ _ _ E1), (bind_ok _ _ _ _ _ E2).
    erewrite bind_ok; [| reflexivity]. exact Hset.
  - unfold log. rewrite length_firstn. lia.
  - unfold log. rewrite length_firstn. reflexivity.
  - exact Hx.
  - exact Hst.
  - eauto.
  - rewrite getBackups_eq. cbn [fst].
    assert (Hf : fault w1 (tick w1) = false).
    { destruct S1 as (_ & _ & _ & _ & _ & _ & ->). apply Hab. }
    now rewrite Hf, Hx.
Qed.

(** ** Backups of the credentials *)

Section Backups.
Context `{Platform}.

Lemma getCredentials_total m w :
  exists r w1, getCredentials m w = (Ok r, w1).
Proof.
  unfold getCredentials, try_catch at 1.
  match goal with
  | |- context [match ?b w with _ => _ end] => destruct (b w) as [[r | e] w1]
  end; eexists _, _; reflexivity.
Qed.

Lemma or_empty_length v w :
  exists n, js_length (or_empty v) w = (Ok n, w).
Proof.
  unfold or_empty, if_truthy. destruct v as [x |]; [| eexists; reflexivity].
  destruct (truthy x) eqn:E; [| eexists; reflexivity].
  destruct x; try (eexists; reflexivity). discriminate E.
Qed.

End Backups.

(** X20. [createBackup] always reports success: it takes the list that
    [getCredentials] returns, or the empty list when that call reports an
    error. With a phrase that is not a valid mnemonic the backup is
    therefore a success with no credentials and [credentialCount] 0. *)
Theorem createBackup_always_succeeds `{Platform} (m : string) (w : World) :
  (exists data w1,
     createBackup m w = (Ok (VObj [("success", VBool true); ("data", data)]), w1))
  /\ (m <> "" -> validateSeedPhrase m = false ->
      createBackup m w
      = (Ok (VObj [("success", VBool true);
                   ("data",
                    VObj [("timestamp", VStr (toISOString (clock w (tick w))));
                          ("appVersion", VStr "1.0.0");
                          ("credentials", VArr []);
                          ("credentialCount", VNum 0)])]),
         set_tick (N.succ (tick w)) w)).
Proof.
  split.
  - destruct (getCredentials_total m w) as (r & w1 & Hget).
    set (w2 := set_tick (N.succ (tick w1)) w1).
    destruct (or_empty_length (field r "credentials") w2) as [n Hn].
    eexists _, _. unfold createBackup.
    erewrite try_catch_ok; [reflexivity |].
    rewrite (bind_ok _ _ _ _ _ Hget). cbv zeta.
    assert (E1 : Date_now w1 = (Ok (clock w1 (tick w1)), w2)) by reflexivity.
    rewrite (bind_ok _ _ _ _ _ E1), (bind_ok _ _ _ _ _ Hn). reflexivity.
  - intros Hne Hv.
    assert (Hget : getCredentials m w
                   = (Ok (empty_result (Some "Invalid seed phrase")), w)).
    { unfold getCredentials. apply String.eqb_neq in Hne. now rewrite Hne, Hv. }
    unfold createBackup. erewrite try_catch_ok; [reflexivity |].
    rewrite (bind_ok _ _ _ _ _ Hget). reflexivity.
Qed.

(** X21. [restoreFromBackup] reads the credentials from the store
    directly. It fails with 'No credentials found to restore' when there
    are none. When the blob is the envelope that [storeCredentials] makes
    under the phrase, stored as it is, it returns the [credentials] of the
    document and records [currentBackupId]. When the blob was written
    through the storage layer, it is an envelope under the storage key,
    which the key of the phrase does not open: the restore then fails. *)
Theorem restoreFromBackup_outcome `{Platform} :
  aes_gcm_sound ->
  forall (backupId : value) (m : string) (w : World),
    (64 <= List.length (mnemonicToSeed m))%nat ->
    fault w (tick w) = false ->
    let w1 := set_tick (N.succ (tick w)) w in
    (if_truthy (storage w !! "credentials") = None ->
     restoreFromBackup (Some backupId) m w
     = (Ok (VObj [("success", VBool false);
                  ("error", VStr ("Failed to restore from backup: "
                                  +:+ "No credentials found to restore"))]), w1))
    /\ (forall iv text data,
          storage w !! "credentials"
          = Some (envelope iv (aes_gcm_encrypt (seedKey m) iv (TextEncoder_encode text))) ->
          JSON_parse text = Some data -> data <> VNull ->
          fault w (N.succ (tick w)) = false ->
          restoreFromBackup (Some backupId) m w
          = (Ok (VObj (defined [("success", Some (VBool true));
                                ("credentials", field data "credentials")])),
             set_storage (<["currentBackupId" := backupId]> (storage w))
               (set_tick (N.succ (tick w1)) w1)))
    /\ (aes_gcm_authentic ->
        forall sk e iv now,
          sk <> seedKey m ->
          storage w !! "credentials" = Some (storage_envelope sk e iv now) ->
          restoreFromBackup (Some backupId) m w
          = (Ok (VObj [("success", VBool false);
                       ("error", VStr ("Failed to restore from backup: "
                                       +:+ message (HostError OperationError)))]), w1)).
Proof.
  intros sound backupId m w Hlen Hf w1.
  destruct (generateKeyFromSeedBytes_ok (mnemonicToSeed m) w Hlen) as [keys [Hk Hkey]].
  fold (seedKey m) in Hkey.
  assert (Hget : chrome_storage_get (Some ["credentials"]) w
                 = (Ok (restrict ["credentials"] (storage w)), w1)).
  { unfold chrome_storage_get. now rewrite Hf. }
  assert (Hl : restrict ["credentials"] (storage w) !! "credentials"
               = storage w !! "credentials").
  { rewrite lookup_restrict, bool_decide_eq_true_2; [reflexivity |].
    apply list_elem_of_In. now left. }
  split; [| split].
  - intros Hnone. unfold restoreFromBackup.
    etransitivity;
      [eapply try_catch_throw; cbv zeta; rewrite (bind_ok _ _ _ _ _ Hk);
       rewrite (bind_ok _ _ _ _ _ Hget); rewrite Hl, Hnone; reflexivity
      | reflexivity].
  - intros iv text data Hs HJ Hn Hf1. unfold restoreFromBackup.
    erewrite try_catch_ok; [reflexivity |].
    cbv zeta. rewrite (bind_ok _ _ _ _ _ Hk), (bind_ok _ _ _ _ _ Hget).
    rewrite Hl, Hs, if_truthy_envelope, Hkey.
    erewrite bind_ok; [| now rewrite decryptData_envelope, sound, (decode_parsed _ _ HJ)].
    rewrite HJ.
    erewrite bind_ok;
      [| unfold chrome_storage_set; change (fault w1 (tick w1)) with (fault w (N.succ (tick w)));
         rewrite Hf1; reflexivity].
    rewrite (bind_ok _ _ _ _ _ (prop_defined data "credentials" _ Hn)).
    unfold ret. f_equal. f_equal.
    change (list_to_map (defined [("currentBackupId", Some backupId)]))
      with (<["currentBackupId" := backupId]> (∅ : gmap string value)).
    change (storage w1) with (storage w).
    rewrite <- insert_union_l, (left_id_L ∅ (∪)). reflexivity.
  - intros auth sk e iv now Hne Hs. unfold restoreFromBackup.
    etransitivity;
      [eapply try_catch_throw; cbv zeta; rewrite (bind_ok _ _ _ _ _ Hk);
       rewrite (bind_ok _ _ _ _ _ Hget); rewrite Hl, Hs;
       change (if_truthy (Some (storage_envelope sk e iv now)))
         with (Some (storage_envelope sk e iv now));
       cbv iota; apply bind_throw;
       rewrite decryptData_storage_envelope, Hkey, (auth _ _ _ _ Hne); reflexivity
      | reflexivity].
Qed.

(** ** The password list *)

Section PasswordListFacts.
Context `{Platform}.

Lemma stored_passwords_eq w :
  fault w (tick w) = false ->
  stored_passwords w
  = (Ok (match storage w !! "passwords" with
         | Some v => v
         | None => VArr []
         end), set_tick (N.succ (tick w)) w).
Proof.
  intros Hf. unfold stored_passwords, bind, chrome_storage_get. rewrite Hf. cbn [ret].
  rewrite lookup_restrict, bool_decide_eq_true_2 by (apply list_elem_of_In; now left).
  reflexivity.
Qed.

Lemma chrome_storage_set_ok items w :
  fault w (tick w) = false ->
  chrome_storage_set items w
  = (Ok tt, set_storage (items ∪ storage w) (set_tick (N.succ (tick w)) w)).
Proof. intros Hf. unfold chrome_storage_set. now rewrite Hf. Qed.

Lemma singleton_union_lookup (key : string) (v : value) (s : gmap string value) :
  ({[key := v]} ∪ s) !! key = Some v.
Proof. apply lookup_union_Some_l. apply lookup_singleton_eq. Qed.

End PasswordListFacts.

(** X22. [savePassword] appends one record to the stored list (the empty
    list when there is none) and [getPasswords] then returns the list with
    that record last; the record carries the [url] and [username] given, a
    clock reading, and the password as an envelope that [decryptData] opens
    under the same key to the text of the password as the decoder returns
    it: the text itself when it is well-formed and does not begin with
    U+FEFF. A stored value that is not an array makes it throw a TypeError
    and leaves the store as it was. *)
Theorem savePassword_getPasswords `{Platform} :
  aes_gcm_sound ->
  forall (credentials : value) (key : list byte) (w : World),
    credentials <> VNull ->
    available w ->
    (forall xs,
       storage w !! "passwords" = Some (VArr xs)
       \/ (storage w !! "passwords" = None /\ xs = []) ->
       exists iv now w1,
         let sealed :=
           envelope iv
             (aes_gcm_encrypt key iv
                (TextEncoder_encode (USVString (field credentials "password")))) in
         let record :=
           VObj (defined [("url", field credentials "url");
                          ("username", field credentials "username");
                          ("password", Some sealed);
                          ("timestamp", Some (VNum now))]) in
         savePassword credentials key w = (Ok true, w1)
         /\ getPasswords w1
            = (Ok (VArr (xs ++ [record])), set_tick (N.succ (tick w1)) w1)
         /\ (forall w2,
               decryptData sealed key w2
               = (Ok (decoded (USVString (field credentials "password"))), w2))
         /\ (plain_text (USVString (field credentials "password")) ->
             forall w2,
               decryptData sealed key w2
               = (Ok (USVString (field credentials "password")), w2)))
    /\ (forall v,
          storage w !! "passwords" = Some v -> Array_isArray v = false ->
          exists w1,
            savePassword credentials key w = (Throw (HostError TypeError), w1)
            /\ storage w1 = storage w).
Proof.
  intros sound credentials key w Hn Ha.
  pose proof (stored_passwords_eq w (Ha _)) as Hget.
  set (w0 := set_tick (N.succ (tick w)) w) in *.
  set (pw := USVString (field credentials "password")).
  pose proof (encryptData_eq pw key w0) as Henc.
  set (sealed := envelope (fresh_iv w0)
                   (aes_gcm_encrypt key (fresh_iv w0) (TextEncoder_encode pw))) in *.
  set (w1 := set_tick (tick w0 + 12) w0) in *.
  assert (Hnow : Date_now w1 = (Ok (clock w1 (tick w1)), set_tick (N.succ (tick w1)) w1))
    by reflexivity.
  set (w2 := set_tick (N.succ (tick w1)) w1) in *.
  split.
  - intros xs Hxs.
    assert (Hlist : match storage w !! "passwords" with
                    | Some v => v
                    | None => VArr []
                    end = VArr xs).
    { destruct Hxs as [-> | [-> ->]]; reflexivity. }
    rewrite Hlist in Hget.
    exists (fresh_iv w0), (clock w1 (tick w1)). eexists. cbv zeta. fold pw. fold sealed.
    split; [| split; [| split]].
    + unfold savePassword. rewrite try_rethrow.
      rewrite (bind_ok _ _ _ _ _ Hget).
      rewrite (bind_ok _ _ _ _ _ (prop_defined credentials "password" _ Hn)).
      fold pw. rewrite (bind_ok _ _ _ _ _ Henc).
      rewrite (bind_ok _ _ _ _ _ (prop_defined credentials "url" _ Hn)).
      rewrite (bind_ok _ _ _ _ _ (prop_defined credentials "username" _ Hn)).
      rewrite (bind_ok _ _ _ _ _ Hnow).
      erewrite bind_ok; [reflexivity |].
      apply chrome_storage_set_ok. apply Ha.
    + unfold getPasswords. rewrite try_rethrow.
      rewrite stored_passwords_eq by apply Ha.
      cbn [storage set_storage]. now rewrite singleton_union_lookup.
    + intros w3. unfold sealed. now rewrite decryptData_envelope, sound.
    + intros Tp w3. unfold sealed.
      now rewrite decryptData_envelope, sound, (decode_encode pw Tp).
  - intros v Hv Harr. rewrite Hv in Hget.
    exists w2. split; [| reflexivity].
    unfold savePassword. rewrite try_rethrow.
    rewrite (bind_ok _ _ _ _ _ Hget).
    rewrite (bind_ok _ _ _ _ _ (prop_defined credentials "password" _ Hn)).
    fold pw. rewrite (bind_ok _ _ _ _ _ Henc).
    rewrite (bind_ok _ _ _ _ _ (prop_defined credentials "url" _ Hn)).
    rewrite (bind_ok _ _ _ _ _ (prop_defined credentials "username" _ Hn)).
    rewrite (bind_ok _ _ _ _ _ Hnow).
    destruct v; try reflexivity. discriminate Harr.
Qed.

(** X23. [deletePassword(i)] removes the entry at index [i] of the stored
    list when [0 <= i < length]; an index at or beyond the length removes
    nothing; a negative index counts from the end, and one below
    [-length] removes the first entry. [getPasswords] then returns what
    is left. *)
Theorem deletePassword_index `{Platform} (index : Z) (xs : list value) (w : World) :
  available w ->
  storage w !! "passwords" = Some (VArr xs) ->
  let len := Z.of_nat (List.length xs) in
  exists ys w1,
    deletePassword index w = (Ok true, w1)
    /\ getPasswords w1 = (Ok (VArr ys), set_tick (N.succ (tick w1)) w1)
    /\ (0 <= index < len ->
        ys = firstn (Z.to_nat index) xs ++ skipn (S (Z.to_nat index)) xs
        /\ List.length ys = (List.length xs - 1)%nat)
    /\ (len <= index -> ys = xs)
    /\ (- len <= index < 0 ->
        ys = firstn (Z.to_nat (len + index)) xs
             ++ skipn (S (Z.to_nat (len + index))) xs)
    /\ (index < - len -> ys = skipn 1 xs).
Proof.
  intros Ha Hs len.
  pose proof (stored_passwords_eq w (Ha _)) as Hget. rewrite Hs in Hget.
  exists (Array_splice xs index). eexists.
  split; [| split; [| split; [| split; [| split]]]].
  - unfold deletePassword. rewrite try_rethrow.
    rewrite (bind_ok _ _ _ _ _ Hget).
    erewrite bind_ok; [reflexivity |].
    apply chrome_storage_set_ok. apply Ha.
  - unfold getPasswords. rewrite try_rethrow.
    rewrite stored_passwords_eq by apply Ha.
    cbn [storage set_storage]. now rewrite singleton_union_lookup.
  - intros Hi. unfold Array_splice. fold len.
    assert (E1 : (index <? 0) = false) by (apply Z.ltb_ge; lia). rewrite E1.
    rewrite Z.min_l by lia. rewrite (Z.min_l 1) by lia.
    replace (Z.to_nat (index + 1)) with (S (Z.to_nat index)) by lia.
    split; [reflexivity |].
    rewrite length_app, length_firstn, length_skipn. lia.
  - intros Hi. unfold Array_splice. fold len.
    assert (E1 : (index <? 0) = false) by (apply Z.ltb_ge; lia). rewrite E1.
    rewrite Z.min_r by lia. rewrite (Z.min_r 1) by lia.
    replace (Z.to_nat (len + (len - len))) with (List.length xs) by lia.
    replace (Z.to_nat len) with (List.length xs) by lia.
    rewrite firstn_all, skipn_all. apply app_nil_r.
  - intros Hi. unfold Array_splice. fold len.
    assert (E1 : (index <? 0) = true) by (apply Z.ltb_lt; lia). rewrite E1.
    rewrite Z.max_l by lia. rewrite (Z.min_l 1) by lia.
    replace (Z.to_nat (len + index + 1)) with (S (Z.to_nat (len + index))) by lia.
    reflexivity.
  - intros Hi. unfold Array_splice. fold len.
    assert (E1 : (index <? 0) = true) by (apply Z.ltb_lt; lia). rewrite E1.
    rewrite Z.max_r by lia.
    destruct xs as [| x xs']; [reflexivity |].
    rewrite (Z.min_l 1) by (subst len; cbn [List.length]; lia).
    reflexivity.
Qed.

(** ** Clearing the cache and resetting *)

Section Clearing.
Context `{Platform}.

Lemma lookup_without (keys : list string) (s : gmap string value) key :
  filter (fun kv : string * value => negb (bool_decide (kv.1 ∈ keys))) s !! key
  = if bool_decide (key ∈ keys) then None else s !! key.
Proof.
  destruct (bool_decide (key ∈ keys)) eqn:Ek.
  - apply map_lookup_filter_None. right. intros v _ Hp. simpl in Hp.
    rewrite Ek in Hp. exact Hp.
  - apply lookup_removed. intros Hin. apply list_elem_of_In in Hin.
    apply bool_decide_eq_false in Ek. contradiction.
Qed.

(** The keys that [clearCache] removes from a store. *)
Lemma itemsToRemove_spec (s : gmap string value) key :
  In key (List.filter (fun key => negb (includes Background.itemsToKeep key))
            (map fst (map_to_list s)))
  <-> s !! key <> None /\ includes Background.itemsToKeep key = false.
Proof.
  rewrite filter_In, negb_true_iff. split; intros [Hk Hi]; split; try exact Hi.
  - apply in_map_iff in Hk as [[k' v'] [E Hin]]. simpl in E. subst k'.
    apply list_elem_of_In, elem_of_map_to_list in Hin. congruence.
  - destruct (s !! key) as [v |] eqn:E; [| now destruct Hk].
    apply in_map_iff. exists (key, v). split; [reflexivity |].
    apply list_elem_of_In. now apply elem_of_map_to_list.
Qed.

Lemma clearCache_eq w :
  Background.clearCache w
  = let w0 := set_tick (N.succ (tick w)) w in
    let itemsToRemove :=
      List.filter (fun key => negb (includes Background.itemsToKeep key))
        (map fst (map_to_list (storage w))) in
    if fault w (tick w) then
      (Ok (VObj [("success", VBool false);
                 ("error", VStr (message (HostError LastError)))]), w0)
    else if (0 <? List.length itemsToRemove)%nat then
      if fault w (N.succ (tick w)) then
        (Ok (VObj [("success", VBool false);
                   ("error", VStr (message (HostError LastError)))]),
         set_tick (N.succ (tick w0)) w0)
      else
        (Ok (VObj [("success", VBool true)]),
         set_storage
           (filter (fun kv : string * value =>
                      negb (bool_decide (kv.1 ∈ itemsToRemove))) (storage w))
           (set_tick (N.succ (tick w0)) w0))
    else (Ok (VObj [("success", VBool true)]), w0).
Proof.
  unfold Background.clearCache, try_catch, bind, chrome_storage_get,
    chrome_storage_remove. cbv zeta.
  destruct (fault w (tick w)); [reflexivity |].
  destruct (0 <? List.length _)%nat; [| reflexivity].
  cbn [tick set_tick fault storage].
  now destruct (fault w (N.succ (tick w))).
Qed.

(** What is left of an entry once the keys that [clearCache] removes are
    gone. *)
Lemma itemsToRemove_kept (s : gmap string value) key :
  (if bool_decide
        (key ∈ List.filter (fun key => negb (includes Background.itemsToKeep key))
                 (map fst (map_to_list s)))
   then None else s !! key)
  = if includes Background.itemsToKeep key then s !! key else None.
Proof.
  destruct (bool_decide _) eqn:Ek.
  - apply bool_decide_eq_true in Ek. apply list_elem_of_In in Ek.
    apply itemsToRemove_spec in Ek as [_ ->]. reflexivity.
  - apply bool_decide_eq_false in Ek. rewrite list_elem_of_In in Ek.
    destruct (includes Background.itemsToKeep key) eqn:Ei; [reflexivity |].
    destruct (s !! key) eqn:Es; [| reflexivity].
    exfalso. apply Ek. apply itemsToRemove_spec. split; [congruence | exact Ei].
Qed.

(** The store that a successful [clearCache] leaves. *)
Lemma clearCache_kept w w1 :
  Background.clearCache w = (Ok (VObj [("success", VBool true)]), w1) ->
  forall key,
    storage w1 !! key
    = if includes Background.itemsToKeep key then storage w !! key else None.
Proof.
  rewrite clearCache_eq. cbv zeta. intros Hr key.
  rewrite <- itemsToRemove_kept.
  destruct (fault w (tick w)); [discriminate |].
  destruct (0 <? List.length _)%nat eqn:Hlen.
  - destruct (fault w (N.succ (tick w))); [discriminate |].
    injection Hr as <-. cbn [storage set_storage]. apply lookup_without.
  - injection Hr as <-. cbn [storage set_tick].
    rewrite bool_decide_eq_false_2; [reflexivity |].
    rewrite list_elem_of_In.
    destruct (List.filter _ _); [intros [] | discriminate Hlen].
Qed.

End Clearing.

(** X24. [clearCache] keeps the six entries it names ([credentials],
    [pinCode], [encryptedSeedPhrase], [storedSeedPhrase],
    [extensionSettings], [backups]) and removes every other entry of the
    store, the markers [hasEncryptedStorage] and [storageVersion] and the
    flags [hasSeedPhrase] and [firstTimeSetup] included; when it reports a
    failure the store is as it was. It never throws and does not touch the
    session or the storage key. *)
Theorem clearCache_keeps `{Platform} (w : World) :
  exists r w1,
    Background.clearCache w = (Ok r, w1)
    /\ same_vars w w1
    /\ ((r = VObj [("success", VBool true)]
         /\ (forall key,
               storage w1 !! key
               = if includes Background.itemsToKeep key
                 then storage w !! key else None)
         /\ marked (storage w1) = false)
        \/ ((exists error, r = VObj [("success", VBool false); ("error", VStr error)])
            /\ storage w1 = storage w))
    /\ (available w -> r = VObj [("success", VBool true)]).
Proof.
  rewrite clearCache_eq. cbv zeta.
  set (rm := List.filter _ _).
  pose proof (itemsToRemove_kept (storage w)) as Hkeep. fold rm in Hkeep.
  destruct (fault w (tick w)) eqn:Hf.
  { eexists _, _. split; [reflexivity |]. split; [repeat split |].
    split; [right; split; [eauto | reflexivity] |].
    intros Ha. rewrite (Ha _) in Hf. discriminate. }
  destruct (0 <? List.length rm)%nat eqn:Hlen.
  - destruct (fault w (N.succ (tick w))) eqn:Hf1.
    + eexists _, _. split; [reflexivity |]. split; [repeat split |].
      split; [right; split; [eauto | reflexivity] |].
      intros Ha. rewrite (Ha _) in Hf1. discriminate.
    + eexists _, _. split; [reflexivity |]. split; [repeat split |].
      split; [| reflexivity]. left. split; [reflexivity |].
      cbn [storage set_storage].
      split.
      * intros key. rewrite lookup_without. apply Hkeep.
      * unfold marked. rewrite lookup_without, Hkeep. reflexivity.
  - eexists _, _. split; [reflexivity |]. split; [repeat split |].
    split; [| reflexivity]. left. split; [reflexivity |].
    cbn [storage set_tick].
    assert (Hnone : forall key, bool_decide (key ∈ rm) = false).
    { intros key. apply bool_decide_eq_false. rewrite list_elem_of_In.
      destruct rm; [intros [] | discriminate Hlen]. }
    split.
    + intros key. rewrite <- Hkeep. now rewrite Hnone.
    + unfold marked. pose proof (Hkeep "hasEncryptedStorage") as E.
      rewrite Hnone in E. rewrite E. reflexivity.
Qed.

(** X25. Because [clearCache] removes the marker, the next migration does
    not take the store for an encrypted one: after a successful
    [clearCache], [migrateToEncryptedStorage] encrypts every kept entry
    again, the entries that already are envelopes of the storage layer
    included, so that [secureStorageGet] afterwards returns for such an
    entry what [decryptStorageData] makes of the text of the old envelope
    (the text decoded, then parsed when [JSON.parse] reads it), not the
    value it held. *)
Theorem clearCache_then_migrate `{Platform} :
  aes_gcm_sound ->
  forall (k : list byte) (w w1 w2 : World),
    Background.clearCache w = (Ok (VObj [("success", VBool true)]), w1) ->
    migrateToEncryptedStorage k w1 = (Ok true, w2) ->
    forall key v,
      In key Background.itemsToKeep ->
      storage w !! key = Some v -> v <> VNull ->
      (exists iv now, storage w2 !! key = Some (storage_envelope k v iv now))
      /\ (fault w2 (tick w2) = false ->
          exists result,
            secureStorageGet [key] k w2 = (Ok result, set_tick (N.succ (tick w2)) w2)
            /\ result !! key = Some (read_back v)).
Proof.
  intros sound k w w1 w2 Hclear Hmig key v Hk Hs Hv.
  pose proof (clearCache_kept w w1 Hclear) as Hkept.
  assert (Hm : marked (storage w1) = false).
  { unfold marked. now rewrite Hkept. }
  assert (Hin : includes Background.itemsToKeep key = true).
  { now apply includes_true_iff. }
  assert (Hs1 : storage w1 !! key = Some v) by now rewrite Hkept, Hin.
  assert (Hskip : includes skipEncryption key = false).
  { simpl in Hk. destruct Hk as [<- | [<- | [<- | [<- | [<- | [<- | []]]]]]]; reflexivity. }
  destruct (migrate_unmarked k w1 w2 Hm Hmig) as (_ & _ & _ & Henc & _).
  destruct (proj2 (Henc key v Hs1 Hskip) Hv) as (iv & now & Hx).
  split; [eauto |].
  intros Hf.
  destruct (secureStorageGet_reads k [key] w2 Hf) as (result & Hget & Hres & _).
  { intros key' x [<- | []] Hx' _. rewrite Hx in Hx'. injection Hx' as <-.
    eexists. now apply reads_envelope. }
  exists result. split; [exact Hget |].
  apply (proj2 (Hres key _ (or_introl eq_refl) Hx) _ Hskip). now apply reads_envelope.
Qed.

(** X26. [resetAllData] never throws. When it reports success the store
    holds [firstTimeSetup: true] and nothing else, and no session and no
    storage key are left. When clearing the store fails, the store, the
    session and the key are as they were; when the store was cleared but
    the flag could not be written, the store is left empty, without the
    flag, and the session is gone. *)
Theorem resetAllData_outcome `{Platform} (w : World) :
  let failure :=
    VObj [("success", VBool false); ("error", VStr (message (HostError LastError)))] in
  exists r w1,
    Background.resetAllData w = (Ok r, w1)
    /\ (fault w (tick w) = true ->
        r = failure /\ storage w1 = storage w
        /\ currentUserSession w1 = currentUserSession w
        /\ currentStorageKey w1 = currentStorageKey w)
    /\ (fault w (tick w) = false -> fault w (N.succ (tick w)) = true ->
        r = failure /\ storage w1 = ∅
        /\ currentUserSession w1 = None /\ currentStorageKey w1 = None)
    /\ (fault w (tick w) = false -> fault w (N.succ (tick w)) = false ->
        r = VObj [("success", VBool true)]
        /\ storage w1 = {["firstTimeSetup" := VBool true]}
        /\ currentUserSession w1 = None /\ currentStorageKey w1 = None).
Proof.
  intros failure.
  unfold Background.resetAllData, try_catch, bind, chrome_storage_clear,
    Background.clearUserSession, modify, chrome_storage_set.
  destruct (fault w (tick w)) eqn:Hf.
  { eexists _, _. split; [reflexivity |].
    split; [intros _; repeat split |]. split; discriminate. }
  cbn [tick set_tick set_key set_session set_storage fault storage].
  destruct (fault w (N.succ (tick w))) eqn:Hf1.
  - eexists _, _. split; [reflexivity |].
    split; [discriminate |]. split; [intros _ _; repeat split | intros _; discriminate].
  - eexists _, _. split; [reflexivity |].
    split; [discriminate |]. split; [intros _; discriminate |].
    intros _ _. split; [reflexivity |]. split; [| split; reflexivity].
    cbn [storage set_storage]. apply (right_id_L ∅ (∪)).
Qed.

(** X27. [getSettings] returns the settings that [saveSettings] stored,
    through the storage layer when a key is resident (truthy settings that
    JSON reads back as it wrote them); on a store without settings, or one
    that cannot be read, it returns the defaults, whose [buildNumber] ends
    in the clock reading. Neither call throws. *)
Theorem saveSettings_getSettings `{Platform} :
  aes_gcm_sound ->
  forall (settings : value) (w : World),
    available w ->
    truthy settings = true ->
    (forall s, settings <> VStr s) ->
    JSON_parse (JSON_stringify settings) = Some settings ->
    let w1 := snd (Background.saveSettings settings w) in
    fst (Background.saveSettings settings w) = Ok true
    /\ fst (Background.getSettings w1) = Ok settings
    /\ (forall w',
          fault w' (tick w') = true ->
          Background.getSettings w'
          = (Ok (Background.default_settings (clock w' (N.succ (tick w')))),
             set_tick (N.succ (N.succ (tick w'))) w'))
    /\ (forall w',
          fault w' (tick w') = false ->
          storage w' !! "extensionSettings" = None ->
          Background.getSettings w'
          = (Ok (Background.default_settings (clock w' (N.succ (tick w')))),
             set_tick (N.succ (N.succ (tick w'))) w')).
Proof.
  intros sound settings w Ha Ht Hns HJ w1. subst w1.
  set (items := ({["extensionSettings" := settings]} : gmap string value)).
  destruct (secureStorage_set_available items w Ha) as (w1 & Hset & S1).
  assert (Hsave : Background.saveSettings settings w = (Ok true, w1)).
  { unfold Background.saveSettings. erewrite try_catch_ok; [reflexivity |].
    fold items. now rewrite (bind_ok _ _ _ _ _ Hset). }
  rewrite Hsave. cbn [fst snd]. split; [reflexivity |].
  split; [| split].
  - destruct (secureStorage_set_stored items "extensionSettings" settings w w1 Hset)
      as (x & Hx & Hst); [apply lookup_singleton_eq | reflexivity |].
    pose proof S1 as (_ & Sk & _ & _ & _ & _ & Sf).
    assert (Hf : fault w1 (tick w1) = false) by (rewrite Sf; apply Ha).
    rewrite <- Sk in Hst.
    destruct (secureStorage_get_stored ["extensionSettings"] "extensionSettings"
                settings w1 x sound Hf) as (result & Hget & Hres); try assumption;
      [simpl; tauto | reflexivity | |].
    { intros key' [<- | []] Hk'. now destruct Hk'. }
    assert (Hr : result !! "extensionSettings" = Some settings).
    { rewrite Hres. destruct (currentStorageKey w1); [| reflexivity].
      f_equal. now apply read_back_value. }
    unfold Background.getSettings. erewrite try_catch_ok; [reflexivity |].
    rewrite (bind_ok _ _ _ _ _ Hget), Hr. unfold if_truthy. now rewrite Ht.
  - intros w' Hf.
    assert (Hget : secureStorage_get ["extensionSettings"] w'
                   = (Throw (HostError LastError), set_tick (N.succ (tick w')) w')).
    { unfold secureStorage_get. rewrite bind_get_world.
      destruct (currentStorageKey w') as [sk |].
      - unfold secureStorageGet. rewrite try_rethrow.
        apply bind_throw. unfold chrome_storage_get. now rewrite Hf.
      - unfold chrome_storage_get. now rewrite Hf. }
    unfold Background.getSettings.
    etransitivity; [eapply try_catch_throw; apply bind_throw; exact Hget | reflexivity].
  - intros w' Hf Hnone.
    assert (Hget : exists result,
               secureStorage_get ["extensionSettings"] w'
               = (Ok result, set_tick (N.succ (tick w')) w')
               /\ result !! "extensionSettings" = None).
    { unfold secureStorage_get. rewrite bind_get_world.
      destruct (currentStorageKey w') as [sk |].
      - destruct (secureStorageGet_reads sk ["extensionSettings"] w' Hf)
          as (result & Hget & _ & Hn).
        { intros key v [<- | []] Hs; congruence. }
        exists result. split; [exact Hget |]. apply Hn. now left.
      - eexists. split; [unfold chrome_storage_get; now rewrite Hf |].
        rewrite lookup_restrict, Hnone. now destruct (bool_decide _). }
    destruct Hget as (result & Hget & Hr).
    unfold Background.getSettings. erewrite try_catch_ok; [reflexivity |].
    rewrite (bind_ok _ _ _ _ _ Hget), Hr. reflexivity.
Qed.

(** ** The reference host satisfies the assumptions *)

Module ReferenceFacts.
Import Reference.

Lemma unframe_frame l rest : unframe (frame l ++ rest) = Some (l, rest).
Proof.
  induction l as [| b l IH]; simpl; [reflexivity |]. now rewrite IH.
Qed.

Lemma bytes_eqb_eq a b : bytes_eqb a b = true <-> a = b.
Proof.
  unfold bytes_eqb. rewrite String.eqb_eq. split; [| now intros ->].
  intros E. apply (f_equal list_byte_of_string) in E.
  now rewrite !list_byte_of_string_of_list_byte in E.
Qed.

Lemma bytes_eqb_refl a : bytes_eqb a a = true.
Proof. now apply bytes_eqb_eq. Qed.

Lemma seal_sound : aes_gcm_sound.
Proof.
  intros key iv data. simpl. unfold unseal, seal.
  rewrite unframe_frame, unframe_frame.
  now rewrite !bytes_eqb_refl.
Qed.

Lemma seal_authentic : aes_gcm_authentic.
Proof.
  intros key key' iv data Hne. simpl. unfold unseal, seal.
  rewrite unframe_frame, unframe_frame.
  destruct (bytes_eqb key key') eqn:E; [| reflexivity].
  apply bytes_eqb_eq in E. contradiction.
Qed.

Lemma seed_of_length : bip39_seed_length.
Proof.
  intros m. simpl. unfold seed_of.
  rewrite List.length_firstn, List.length_app, List.repeat_length. lia.
Qed.

Lemma print_Array_from bs : print (Array_from bs) = x5b :: elems bs.
Proof.
  unfold Array_from. simpl. f_equal.
  induction bs as [| b bs IH]; [reflexivity |].
  destruct bs as [| b' bs]; [reflexivity |].
  simpl in *. now rewrite IH.
Qed.

Lemma parse_value_byte_comma b f tl :
  parse_value (S f) (print_Z (Z_of_byte b) ++ x2c :: tl)
  = Some (VNum (Z_of_byte b), x2c :: tl).
Proof. destruct b; reflexivity. Qed.

Lemma parse_value_byte_close b f tl :
  parse_value (S f) (print_Z (Z_of_byte b) ++ x5d :: tl)
  = Some (VNum (Z_of_byte b), x5d :: tl).
Proof. destruct b; reflexivity. Qed.

Lemma parse_elements_bytes bs :
  forall b k tl,
    parse_elements (S (S (List.length bs + k))) (elems (b :: bs) ++ tl)
    = Some (map (fun b => VNum (Z_of_byte b)) (b :: bs), tl).
Proof.
  induction bs as [| b' bs IH]; intros b k tl.
  - change (elems [b] ++ tl) with ((print_Z (Z_of_byte b) ++ [x5d]) ++ tl).
    rewrite <- List.app_assoc. simpl List.app.
    change (parse_elements (S (S (List.length (@nil byte) + k)))
              (print_Z (Z_of_byte b) ++ x5d :: tl))
      with (match parse_value (S (0 + k)) (print_Z (Z_of_byte b) ++ x5d :: tl) with
            | Some (v, r) =>
                match skip_ws r with
                | x2c :: r' =>
                    match parse_elements (S (0 + k)) r' with
                    | Some (vs, r'') => Some (v :: vs, r'')
                    | None => None
                    end
                | x5d :: r' => Some ([v], r')
                | _ => None
                end
            | None => None
            end).
    now rewrite parse_value_byte_close.
  - change (elems (b :: b' :: bs) ++ tl)
      with ((print_Z (Z_of_byte b) ++ x2c :: elems (b' :: bs)) ++ tl).
    rewrite <- List.app_assoc. rewrite <- List.app_comm_cons.
    change (parse_elements (S (S (List.length (b' :: bs) + k)))
              (print_Z (Z_of_byte b) ++ x2c :: elems (b' :: bs) ++ tl))
      with (match parse_value (S (List.length (b' :: bs) + k))
                    (print_Z (Z_of_byte b) ++ x2c :: elems (b' :: bs) ++ tl) with
            | Some (v, r) =>
                match skip_ws r with
                | x2c :: r' =>
                    match parse_elements (S (List.length (b' :: bs) + k)) r' with
                    | Some (vs, r'') => Some (v :: vs, r'')
                    | None => None
                    end
                | x5d :: r' => Some ([v], r')
                | _ => None
                end
            | None => None
            end).
    rewrite parse_value_byte_comma. cbn [skip_ws].
    change (S (List.length (b' :: bs) + k)) with (S (S (List.length bs + k))).
    now rewrite IH.
Qed.

Lemma elems_cons b bs : elems (b :: bs) = print_Z (Z_of_byte b) ++ after_first bs.
Proof. destruct bs; reflexivity. Qed.

Lemma parse_value_open b f tl :
  parse_value (S f) (x5b :: print_Z (Z_of_byte b) ++ tl)
  = match parse_elements f (print_Z (Z_of_byte b) ++ tl) with
    | Some (xs, r) => Some (VArr xs, r)
    | None => None
    end.
Proof. destruct b; reflexivity. Qed.

Lemma parse_value_array bs n tl :
  (List.length bs + 3 <= n)%nat ->
  parse_value n (print (Array_from bs) ++ tl) = Some (Array_from bs, tl).
Proof.
  intros Hn. rewrite print_Array_from.
  replace n with (S (S (S (List.length bs + (n - 3 - List.length bs))))) by lia.
  destruct bs as [| b bs]; [reflexivity |].
  rewrite <- List.app_comm_cons, elems_cons, <- List.app_assoc, parse_value_open.
  rewrite List.app_assoc, <- elems_cons.
  change (S (S (List.length (b :: bs) + (n - 3 - List.length (b :: bs)))))
    with (S (S (S (List.length bs + (n - 3 - List.length (b :: bs)))))).
  replace (S (S (S (List.length bs + (n - 3 - List.length (b :: bs))))))
    with (S (S (List.length bs + S (n - 3 - List.length (b :: bs))))) by lia.
  now rewrite parse_elements_bytes.
Qed.

Lemma length_elems bs : (List.length bs <= List.length (elems bs))%nat.
Proof.
  induction bs as [| b bs IH]; simpl; [lia |].
  destruct bs as [| b' bs]; rewrite ?List.length_app; simpl in *; lia.
Qed.

Lemma print_envelope iv data :
  print (envelope iv data)
  = [x7b; x22; x69; x76; x22; x3a] ++ print (Array_from iv)
    ++ [x2c; x22; x64; x61; x74; x61; x22; x3a] ++ print (Array_from data) ++ [x7d].
Proof.
  unfold envelope.
  change (print (VObj [("iv", Array_from iv); ("data", Array_from data)]))
    with (x7b :: print_string "iv" ++ x3a :: print (Array_from iv)
          ++ x2c :: print_string "data" ++ x3a :: print (Array_from data) ++ [x7d]).
  reflexivity.
Qed.

Lemma parse_value_envelope iv data n :
  (List.length iv + List.length data + 6 <= n)%nat ->
  parse_value n (print (envelope iv data)) = Some (envelope iv data, []).
Proof.
  intros Hn. rewrite print_envelope.
  destruct n as [| [| [| n]]]; try lia.
  change (parse_value (S (S (S n)))
            ([x7b; x22; x69; x76; x22; x3a] ++ print (Array_from iv)
             ++ [x2c; x22; x64; x61; x74; x61; x22; x3a]
             ++ print (Array_from data) ++ [x7d]))
    with (match
            match parse_value (S n)
                    (print (Array_from iv)
                     ++ [x2c; x22; x64; x61; x74; x61; x22; x3a]
                     ++ print (Array_from data) ++ [x7d]) with
            | Some (v, r) =>
                let acc' := obj_set "iv" v [] in
                match skip_ws r with
                | x2c :: r' => parse_members (S n) r' acc'
                | x7d :: r' => Some (acc', r')
                | _ => None
                end
            | None => None
            end
          with
          | Some (fs, r) => Some (VObj fs, r)
          | None => None
          end).
  rewrite parse_value_array by lia. cbv zeta.
  change (skip_ws ([x2c; x22; x64; x61; x74; x61; x22; x3a]
                   ++ print (Array_from data) ++ [x7d]))
    with (x2c :: [x22; x64; x61; x74; x61; x22; x3a]
                 ++ print (Array_from data) ++ [x7d]).
  cbv iota.
  change (parse_members (S n)
            ([x22; x64; x61; x74; x61; x22; x3a] ++ print (Array_from data) ++ [x7d])
            (obj_set "iv" (Array_from iv) []))
    with (match parse_value n (print (Array_from data) ++ [x7d]) with
          | Some (v, r) =>
              let acc' := obj_set "data" v (obj_set "iv" (Array_from iv) []) in
              match skip_ws r with
              | x2c :: r' => parse_members n r' acc'
              | x7d :: r' => Some (acc', r')
              | _ => None
              end
          | None => None
          end).
  rewrite parse_value_array by lia. reflexivity.
Qed.

Lemma length_print_envelope iv data :
  (List.length iv + List.length data + 5
   <= List.length (print (envelope iv data)))%nat.
Proof.
  rewrite print_envelope, !print_Array_from.
  pose proof (length_elems iv). pose proof (length_elems data).
  repeat (rewrite List.length_app || cbn [List.length List.app]). lia.
Qed.

(** The text of an envelope is made of ASCII characters. *)
Lemma utf8_valid_ascii l :
  Forall (fun b => in_range 0 127 b = true) l -> utf8_valid l = true.
Proof.
  induction 1 as [| b l Hb _ IH]; [reflexivity |].
  cbn [utf8_valid]. now rewrite Hb.
Qed.

Lemma digit_ascii n : in_range 0 127 (byte_of_N (48 + n mod 10)) = true.
Proof.
  assert (Hr : (n mod 10 < 10)%N) by (apply N.mod_lt; discriminate).
  set (r := (n mod 10)%N) in *. clearbody r.
  assert (Hc : (r = 0 \/ r = 1 \/ r = 2 \/ r = 3 \/ r = 4 \/ r = 5 \/ r = 6
                \/ r = 7 \/ r = 8 \/ r = 9)%N) by lia.
  repeat destruct Hc as [-> | Hc]; try reflexivity. now rewrite Hc.
Qed.

Lemma digits_ascii fuel n acc :
  Forall (fun b => in_range 0 127 b = true) acc ->
  Forall (fun b => in_range 0 127 b = true) (digits fuel n acc).
Proof.
  revert n acc. induction fuel as [| fuel IH]; intros n acc Ha; cbn [digits].
  - constructor; [apply digit_ascii | exact Ha].
  - destruct (n <? 10)%N.
    + constructor; [apply digit_ascii | exact Ha].
    + apply IH. constructor; [apply digit_ascii | exact Ha].
Qed.

Lemma print_Z_ascii z : Forall (fun b => in_range 0 127 b = true) (print_Z z).
Proof.
  unfold print_Z, print_N. destruct (z <? 0).
  - constructor; [reflexivity |]. apply digits_ascii. constructor.
  - apply digits_ascii. constructor.
Qed.

Lemma elems_ascii bs : Forall (fun b => in_range 0 127 b = true) (elems bs).
Proof.
  induction bs as [| b bs IH]; [repeat constructor |].
  rewrite elems_cons. apply Forall_app. split; [apply print_Z_ascii |].
  destruct bs as [| b' bs]; [repeat constructor |].
  constructor; [reflexivity | exact IH].
Qed.

Lemma print_envelope_text iv data :
  utf8_valid (print (envelope iv data)) = true
  /\ starts_with_BOM (print (envelope iv data)) = false.
Proof.
  rewrite print_envelope, !print_Array_from. split; [| reflexivity].
  apply utf8_valid_ascii.
  cbn [app].
  repeat first [ apply elems_ascii
               | constructor; [reflexivity |]
               | apply Forall_nil_2
               | apply Forall_app; split ].
Qed.

Lemma stringify_parse_envelope : JSON_envelopes.
Proof.
  intros iv data. simpl. unfold parse, stringify.
  rewrite list_byte_of_string_of_list_byte.
  destruct (print_envelope_text iv data) as [-> ->]. cbn [andb negb].
  rewrite parse_value_envelope; [reflexivity |].
  pose proof (length_print_envelope iv data). lia.
Qed.

End ReferenceFacts.

(** ** The properties on the reference host *)

Module Runs.
Import Reference ReferenceFacts.

Lemma plain_1234 : plain_text "1234".
Proof. split; vm_compute; reflexivity. Qed.

Lemma plain_mnemonic : plain_text mnemonic.
Proof. split; vm_compute; reflexivity. Qed.

Lemma encryptData_decryptData_roundtrip_witness :
  exists keys e w',
    generateKeyFromSeedBytes (mnemonicToSeed mnemonic) idle = (Ok keys, idle)
    /\ encryptData "hunter2" (encryptionKey keys) idle = (Ok e, w')
    /\ forall w2, decryptData e (encryptionKey keys) w2 = (Ok "hunter2", w2).
Proof.
  apply (proj2 (encryptData_decryptData_roundtrip seal_sound seed_of_length
                  "hunter2" idle ltac:(vm_compute; reflexivity)) mnemonic).
  - vm_compute. reflexivity.
  - vm_compute. reflexivity.
Defined.

(** A plaintext that begins with U+FEFF comes back without it. *)
Lemma encryptData_decryptData_drops_mark :
  exists keys e w',
    generateKeyFromSeedBytes (mnemonicToSeed mnemonic) idle = (Ok keys, idle)
    /\ encryptData (U_FEFF +:+ "abc") (encryptionKey keys) idle = (Ok e, w')
    /\ decryptData e (encryptionKey keys) w' = (Ok "abc", w')
    /\ U_FEFF +:+ "abc" <> "abc".
Proof.
  eexists _, _, _. split; [vm_compute; reflexivity |].
  split; [vm_compute; reflexivity |].
  split; [vm_compute; reflexivity | discriminate].
Qed.



Lemma storeCredentials_unvalidated_witness :
  validateMnemonic "not a mnemonic" = false
  /\ fst (storeCredentials (VArr [login]) "not a mnemonic" None 0 idle)
     = Ok (VObj [("success", VBool true)]).
Proof.
  split; [vm_compute; reflexivity |].
  apply (storeCredentials_unvalidated seed_of_length (VArr [login]) "not a mnemonic" idle).
  - vm_compute. reflexivity.
  - intros n. reflexivity.
Defined.




(** A stored document [{credentials: null, timestamp}] is an object with
    a [credentials] field; retrieval does not return that field but the
    whole object as a single record. *)
Lemma getCredentials_falsy_credentials_field :
  fst (getCredentials mnemonic null_world)
  = Ok (VObj [("credentials",
               VArr [VObj [("credentials", VNull);
                           ("timestamp", VStr "2024-01-01")]]);
              ("walletSeeds", VArr [])])
  /\ fst (getCredentials mnemonic null_world)
     <> Ok (VObj [("credentials", VNull); ("walletSeeds", VArr [])]).
Proof. vm_compute. split; [reflexivity | discriminate]. Qed.


Lemma getCredentials_legacy_shapes_witness :
  exists w1,
    getCredentials mnemonic stored_world
    = (Ok (VObj [("credentials", VArr [login]); ("walletSeeds", VArr [])]), w1).
Proof.
  edestruct (getCredentials_legacy_shapes mnemonic stored_world) as (_ & H2 & _).
  - discriminate.
  - vm_compute. reflexivity.
  - vm_compute. reflexivity.
  - vm_compute. reflexivity.
  - vm_compute. reflexivity.
  - vm_compute. reflexivity.
  - vm_compute. reflexivity.
  - specialize (H2 _ (VArr [login]) eq_refl eq_refl).
    eexists. exact H2.
Defined.


Lemma secureStorageSet_secureStorageGet_witness :
  exists result w2,
    secureStorageGet ["settings"; "storageVersion"] [x01]
      (snd (secureStorageSet {["settings" := VNum 7]} [x01] idle))
    = (Ok result, w2)
    /\ result !! "settings" = Some (VNum 7)
    /\ result !! "storageVersion" = Some (VStr "1.0").
Proof.
  destruct (secureStorageSet_secureStorageGet seal_sound {["settings" := VNum 7]} [x01]
              ["settings"; "storageVersion"] idle
              (snd (secureStorageSet {["settings" := VNum 7]} [x01] idle)))
    as (result & Hget & Hval & _ & _ & Hver).
  - vm_compute. reflexivity.
  - vm_compute. reflexivity.
  - intros key [<- | [<- | []]] Hskip; [discriminate | discriminate Hskip].
  - exists result. eexists. split; [exact Hget |]. split.
    + apply (proj2 (Hval "settings" (VNum 7) (or_introl eq_refl) eq_refl eq_refl)).
      * discriminate.
      * vm_compute. reflexivity.
    + apply Hver. simpl. tauto.
Defined.

Lemma migrateToEncryptedStorage_encrypts_witness :
  exists result w3,
    secureStorageGet ["note"; "count"] [x01]
      (snd (migrateToEncryptedStorage [x01] plain_world))
    = (Ok result, w3)
    /\ result !! "note" = Some (VStr "hello")
    /\ result !! "count" = Some (VNum 7).
Proof.
  destruct (migrateToEncryptedStorage_encrypts seal_sound [x01] plain_world
              (snd (migrateToEncryptedStorage [x01] plain_world)))
    as (_ & _ & Hread).
  - vm_compute. reflexivity.
  - vm_compute. reflexivity.
  - destruct (Hread ["note"; "count"]) as (result & Hget & Hres).
    + vm_compute. reflexivity.
    + exists result. eexists. split; [exact Hget |]. split.
      * rewrite (Hres "note" (VStr "hello")); [| simpl; tauto | | reflexivity].
        -- vm_compute. reflexivity.
        -- vm_compute. reflexivity.
      * rewrite (Hres "count" (VNum 7)); [| simpl; tauto | | reflexivity].
        -- vm_compute. reflexivity.
        -- vm_compute. reflexivity.
Defined.

Lemma verifyPin_after_logout_witness :
  fst (verifyPin "1234" (snd (logout pin_world)))
  = Ok (VObj [("verified", VBool false); ("error", VStr "Invalid PIN")]).
Proof.
  destruct (verifyPin_after_logout seal_authentic "1234" mnemonic idle)
    as (_ & _ & _ & Hv).
  - vm_compute. reflexivity.
  - vm_compute. discriminate.
  - fold pin_world in Hv. rewrite Hv; [reflexivity |]. vm_compute. reflexivity.
Defined.

Lemma verifyPinCode_without_key_witness :
  fst (Background.verifyPinCode "1234" (snd (Background.clearUserSession pin_code_world)))
  = Ok (VObj [("verified", VBool false); ("error", VStr "Invalid PIN")]).
Proof.
  unfold pin_code_world.
  rewrite (verifyPinCode_without_key seal_authentic "1234" mnemonic idle).
  - reflexivity.
  - vm_compute. reflexivity.
  - vm_compute. discriminate.
  - vm_compute. reflexivity.
Defined.

Lemma changePin_outcome_witness :
  exists r w1,
    changePin "1234" "9876" pin_world = (Ok r, w1)
    /\ (r = VObj [("success", VBool true)]
        \/ r = VObj [("success", VBool false); ("error", VStr "Failed to store new PIN")]).
Proof.
  assert (Hs : fst (storePin "1234" mnemonic idle) = Ok (VObj [("success", VBool true)]))
    by (vm_compute; reflexivity).
  destruct (changePin_outcome seal_sound seal_authentic stringify_parse_envelope
              "1234" mnemonic pin_world plain_1234 plain_mnemonic
              (proj1 (storePin_vault "1234" mnemonic idle Hs)))
    as (_ & Hright & _).
  destruct (Hright ltac:(vm_compute; reflexivity) "9876") as (r & w1 & Hrun & _ & Hcases).
  exists r, w1. split; [exact Hrun |].
  destruct Hcases as [(-> & _) | (-> & _)]; [now left | now right].
Defined.

Lemma refreshUserSession_extends_witness :
  let w := unlocked 0 in
  fst (isSessionValid w) = Ok false
  /\ fst (isSessionValid (snd (refreshUserSession w))) = Ok true.
Proof.
  intros w. split; [vm_compute; reflexivity |].
  apply (proj2 (proj2 (proj2 (refreshUserSession_extends w
           {| seedPhrase := mnemonic; timestamp := 0; isActive := true |}
           eq_refl eq_refl)))).
  vm_compute. discriminate.
Defined.

Lemma storeCredentials_getCredentials_witness :
  fst (getCredentials mnemonic stored_world)
  = Ok (VObj [("credentials", VArr [login]); ("walletSeeds", VArr [])]).
Proof.
  apply (storeCredentials_getCredentials seal_sound stringify_parse_envelope seed_of_length
           [login] mnemonic "2024-01-01" idle).
  - discriminate.
  - vm_compute. reflexivity.
  - discriminate.
  - intros n. reflexivity.
  - reflexivity.
  - vm_compute. reflexivity.
Defined.

Lemma getCredentials_other_mnemonic_witness :
  fst (getCredentials other_mnemonic stored_world)
  = Ok (empty_result
          (Some ("Failed to decrypt credentials: "
                 +:+ message (HostError OperationError)))).
Proof.
  apply (getCredentials_other_mnemonic seal_sound seal_authentic stringify_parse_envelope
           seed_of_length (VArr [login]) mnemonic other_mnemonic "2024-01-01" idle).
  - discriminate.
  - vm_compute. reflexivity.
  - discriminate.
  - vm_compute. discriminate.
  - intros n. reflexivity.
  - reflexivity.
Defined.

Lemma createBackupRecord_log_witness :
  exists w1 x,
    createBackupRecord (Some (VNum 1)) idle = (Ok tt, w1)
    /\ storage w1 !! "backups" = Some x
    /\ fst (getBackups w1) = Ok x.
Proof.
  destruct (createBackupRecord_log (Some (VNum 1)) [] ∅ idle (set_tick 1 idle))
    as (w1 & x & Hrun & _ & _ & Hx & _ & _ & Hget).
  - intros n. reflexivity.
  - vm_compute. reflexivity.
  - reflexivity.
  - exists w1, x. auto.
Defined.

Lemma restoreFromBackup_outcome_witness :
  fst (restoreFromBackup (Some (VStr "b1")) mnemonic idle)
  = Ok (VObj [("success", VBool false);
              ("error", VStr ("Failed to restore from backup: "
                              +:+ "No credentials found to restore"))]).
Proof.
  destruct (restoreFromBackup_outcome seal_sound (VStr "b1") mnemonic idle)
    as (Hnone & _).
  - vm_compute. lia.
  - reflexivity.
  - rewrite Hnone; reflexivity.
Defined.

Lemma savePassword_getPasswords_witness :
  exists record w1,
    fst (savePassword (VObj [("url", VStr "x.org"); ("password", VStr "p")]) [x01] idle)
    = Ok true
    /\ getPasswords
         (snd (savePassword (VObj [("url", VStr "x.org"); ("password", VStr "p")])
                 [x01] idle))
       = (Ok (VArr [record]), w1)
    /\ field record "url" = Some (VStr "x.org").
Proof.
  destruct (savePassword_getPasswords seal_sound
              (VObj [("url", VStr "x.org"); ("password", VStr "p")]) [x01] idle)
    as (Happend & _).
  - discriminate.
  - intros n. reflexivity.
  - destruct (Happend []) as (iv & now & w1 & Hsave & Hget & _).
    + right. split; reflexivity.
    + rewrite Hsave. cbn [fst snd]. eexists _, _.
      split; [reflexivity |]. split; [exact Hget | reflexivity].
Defined.

Lemma deletePassword_index_witness :
  exists w1 w2,
    deletePassword (-5) passwords_world = (Ok true, w1)
    /\ getPasswords w1 = (Ok (VArr [VStr "b"; VStr "c"]), w2).
Proof.
  destruct (deletePassword_index (-5) [VStr "a"; VStr "b"; VStr "c"] passwords_world)
    as (ys & w1 & Hdel & Hget & _ & _ & _ & Hfirst).
  - intros n. reflexivity.
  - reflexivity.
  - exists w1. eexists. split; [exact Hdel |].
    rewrite Hget. rewrite Hfirst; [reflexivity |]. vm_compute. reflexivity.
Defined.

Lemma clearCache_then_migrate_witness :
  let w1 := snd (Background.clearCache cached_world) in
  let w2 := snd (migrateToEncryptedStorage [x01] w1) in
  exists inner iv now iv' now',
    storage cached_world !! "credentials" = Some inner
    /\ inner = storage_envelope [x01] (VStr "blob") iv now
    /\ storage w2 !! "credentials" = Some (storage_envelope [x01] inner iv' now').
Proof.
  intros w1 w2.
  assert (Hs : exists iv now,
             storage cached_world !! "credentials"
             = Some (storage_envelope [x01] (VStr "blob") iv now)).
  { assert (Hr : secureStorageSet
                   (list_to_map [("credentials", VStr "blob"); ("userId", VStr "u1")])
                   [x01] idle = (Ok tt, cached_world)).
    { unfold cached_world.
      rewrite (surjective_pairing (secureStorageSet _ _ idle)) at 1.
      f_equal. }
    destruct (secureStorageSet_stored _ _ _ _ Hr) as (_ & _ & _ & _ & Henv & _).
    exact (Henv "credentials" (VStr "blob") eq_refl eq_refl). }
  destruct Hs as (iv & now & Hs).
  destruct (clearCache_then_migrate seal_sound [x01] cached_world w1 w2)
    with (key := "credentials") (v := storage_envelope [x01] (VStr "blob") iv now)
    as ((iv' & now' & Hw2) & _).
  - vm_compute. reflexivity.
  - vm_compute. reflexivity.
  - simpl. tauto.
  - exact Hs.
  - discriminate.
  - eexists _, iv, now, iv', now'. split; [exact Hs |]. split; [reflexivity | exact Hw2].
Defined.

Lemma saveSettings_getSettings_witness :
  let settings := VObj [("session", VObj [("timeout", VNum 15)])] in
  fst (Background.getSettings (snd (Background.saveSettings settings pin_world)))
  = Ok settings.
Proof.
  intros settings.
  apply (saveSettings_getSettings seal_sound settings pin_world).
  - intros n. vm_compute. reflexivity.
  - reflexivity.
  - discriminate.
  - vm_compute. reflexivity.
Defined.

End Runs.
